(** * Un Foggiano nel Mondo: rate-limit gate, block gate, client event queue

    A shallow embedding of the abuse-mitigation core of the backend (class
    DatabaseManager of backend/database, and the security helpers and the
    registration handler of backend/server.js) and of the client event queue
    (class FoggianoAnalytics of analytics/analytics.js), followed by the
    properties of the design document, each proved of the embedding or
    refuted on it by a concrete run.

    Further parts of the code follow the same conventions: the cleanup of
    the two tables, the reading and deleting of registrations, the mail
    service (class EmailService), the landing page (index.js), the age
    check of the form and of the server, the pages of the admin table
    (admin/dashboard.js) and the scroll tracker, each with properties read
    off the code.

    Conventions of the embedding.
    - A JavaScript [Date] is its [getTime()]: an integer number of
      milliseconds, here a [Z].  [toISOString] followed by [new Date(...)]
      is the identity on such a value, so the TEXT columns that hold ISO
      strings are modelled by the timestamp they denote.  Timestamps are
      taken inside the range in which [toISOString] does not throw.
    - JavaScript numbers that hold counters and durations are [Z]; a
      duration in minutes is a whole number of minutes.
    - Every function that reads the clock receives the reading as an
      argument named [now]; a call that reads the clock more than once is
      given the same reading each time.
    - A table with a UNIQUE text key is a [gmap string row]; a table that is
      only appended to is a list, newest row last.
    - The database value also carries [journal]: the prepared statements run
      and the gate calls made so far, oldest first.  It is ghost state: no
      function of the embedding reads it. *)

From Stdlib Require Import ZArith Lia.
From stdpp Require Import gmap strings list pretty.
From Equations Require Import Equations.

Local Open Scope Z_scope.

(** ** The database manager (backend/database) *)

Module DatabaseManager.

(** A row of [rate_limits], without its key and its autoincrement id. *)
Record RateLimitRow := mkRateLimitRow {
  count : Z;
  window_start : Z;
  last_request : Z
}.

(** Modelled from the spec: the CREATE TABLE statement of [ip_blocks] is not
    part of SCHEMA.tables in the sources; the columns are those the prepared
    statements name ([ip] is the conflict target, hence unique) and the
    design document lists for an IPBlockRecord. *)
Record IPBlockRow := mkIPBlockRow {
  blocked_at : Z;
  blocked_until : Z;
  reason : string;
  attempts : Z
}.

(** A row of [iscrizioni]; [created_at], [updated_at], [approved_at] and
    [approved_by] play no part in the functions below and are left out. *)
Record IscrizioneRow := mkIscrizioneRow {
  id : string;
  nome_squadra : string;
  citta_squadra : string;
  paese_squadra : string;
  nome_capitano : string;
  cognome_capitano : string;
  email_capitano : string;
  telefono_capitano : string;
  data_nascita_capitano : string;
  provincia_foggia : string;
  numero_giocatori : Z;
  note : option string;
  status : string;
  ip_address : option string;
  user_agent : option string
}.

(** A row of [admin_logs]; the JSON columns [old_value] and [new_value] and
    the [admin_key] column are left out. *)
Record AdminLogRow := mkAdminLogRow {
  log_action : string;
  log_entity_type : option string;
  log_entity_id : option string;
  log_ip_address : option string
}.

(** A row of [analytics_form]. *)
Record FormStatRow := mkFormStatRow {
  form_action : string;
  form_field : option string
}.

(** Journal entries: one per prepared statement run, and one per call of
    [checkRateLimit] with the arguments of the call. *)
Inductive Entry :=
| Call_checkRateLimit (key : string) (maxRequests windowMs : Z)
| Stmt_getRateLimit (key : string)
| Stmt_upsertRateLimit (key : string)
| Stmt_resetRateLimit (key : string)
| Stmt_getIPBlock (ip : string)
| Stmt_insertIPBlock (ip : string)
| Stmt_deleteIPBlock (ip : string)
| Stmt_insertIscrizione (id : string)
| Stmt_getIscrizioneById (id : string)
| Stmt_insertAdminLog (action : string)
| Stmt_insertFormStat (action : string).

Record DB := mkDB {
  rate_limits : gmap string RateLimitRow;
  ip_blocks : gmap string IPBlockRow;
  iscrizioni : list IscrizioneRow;
  admin_logs : list AdminLogRow;
  analytics_form : list FormStatRow;
  journal : list Entry
}.

Definition empty_db : DB := mkDB ∅ ∅ [] [] [] [].

Definition record (e : Entry) (db : DB) : DB :=
  mkDB (rate_limits db) (ip_blocks db) (iscrizioni db) (admin_logs db)
       (analytics_form db) (journal db ++ [e]).

Definition set_rate_limits (m : gmap string RateLimitRow) (db : DB) : DB :=
  mkDB m (ip_blocks db) (iscrizioni db) (admin_logs db) (analytics_form db)
       (journal db).

Definition set_ip_blocks (m : gmap string IPBlockRow) (db : DB) : DB :=
  mkDB (rate_limits db) m (iscrizioni db) (admin_logs db) (analytics_form db)
       (journal db).

Definition set_iscrizioni (l : list IscrizioneRow) (db : DB) : DB :=
  mkDB (rate_limits db) (ip_blocks db) l (admin_logs db) (analytics_form db)
       (journal db).

Definition set_admin_logs (l : list AdminLogRow) (db : DB) : DB :=
  mkDB (rate_limits db) (ip_blocks db) (iscrizioni db) l (analytics_form db)
       (journal db).

Definition set_analytics_form (l : list FormStatRow) (db : DB) : DB :=
  mkDB (rate_limits db) (ip_blocks db) (iscrizioni db) (admin_logs db) l
       (journal db).

(** *** Prepared statements of the rate limiter *)

(** [SELECT * FROM rate_limits WHERE key = ?] *)
Definition getRateLimit (key : string) (db : DB) : option RateLimitRow * DB :=
  (rate_limits db !! key, record (Stmt_getRateLimit key) db).

(** [INSERT INTO rate_limits (key, count, window_start, last_request)
     VALUES (@key, 1, @window_start, @last_request)
     ON CONFLICT(key) DO UPDATE SET count = count + 1,
                                    last_request = @last_request] *)
Definition upsertRateLimit (key : string) (ws lr : Z) (db : DB) : DB :=
  let row :=
    match rate_limits db !! key with
    | None => mkRateLimitRow 1 ws lr
    | Some old => mkRateLimitRow (count old + 1) (window_start old) lr
    end in
  record (Stmt_upsertRateLimit key)
         (set_rate_limits (<[key := row]> (rate_limits db)) db).

(** [UPDATE rate_limits SET count = 1, window_start = ? WHERE key = ?] *)
Definition resetRateLimit (ws : Z) (key : string) (db : DB) : DB :=
  let m :=
    match rate_limits db !! key with
    | None => rate_limits db
    | Some old =>
        <[key := mkRateLimitRow 1 ws (last_request old)]> (rate_limits db)
    end in
  record (Stmt_resetRateLimit key) (set_rate_limits m db).

(** *** checkRateLimit *)

Record RateLimitResult := mkResult {
  allowed : bool;
  remaining : Z;
  retryAfter : option Z
}.

Definition checkRateLimit (key : string) (maxRequests windowMs : Z)
    (now : Z) (db : DB) : RateLimitResult * DB :=
  let db := record (Call_checkRateLimit key maxRequests windowMs) db in
  let windowStart := now - windowMs in
  let '(existing, db) := getRateLimit key db in
  match existing with
  | None =>
      let db := upsertRateLimit key now now db in
      (mkResult true (maxRequests - 1) None, db)
  | Some existing =>
      let existingWindowStart := window_start existing in
      if existingWindowStart <? windowStart then
        let db := resetRateLimit now key db in
        (mkResult true (maxRequests - 1) None, db)
      else if count existing >=? maxRequests then
        (mkResult false 0 (Some (windowMs - (now - existingWindowStart))), db)
      else
        let db := upsertRateLimit key (window_start existing) now db in
        (mkResult true (maxRequests - count existing - 1) None, db)
  end.

(** Successive calls with the same arguments at the clock readings [times]. *)
Fixpoint checkRateLimit_calls (key : string) (maxRequests windowMs : Z)
    (times : list Z) (db : DB) : list RateLimitResult * DB :=
  match times with
  | [] => ([], db)
  | now :: times =>
      let '(r, db) := checkRateLimit key maxRequests windowMs now db in
      let '(rs, db) := checkRateLimit_calls key maxRequests windowMs times db in
      (r :: rs, db)
  end.

(** [checkRateLimit] from its second statement on: what it does with the
    row its read returned ([checkRateLimit_split] below relates the two). *)
Definition checkRateLimit_after_read (key : string) (maxRequests windowMs : Z)
    (now : Z) (existing : option RateLimitRow) (db : DB)
    : RateLimitResult * DB :=
  let windowStart := now - windowMs in
  match existing with
  | None =>
      let db := upsertRateLimit key now now db in
      (mkResult true (maxRequests - 1) None, db)
  | Some existing =>
      let existingWindowStart := window_start existing in
      if existingWindowStart <? windowStart then
        let db := resetRateLimit now key db in
        (mkResult true (maxRequests - 1) None, db)
      else if count existing >=? maxRequests then
        (mkResult false 0 (Some (windowMs - (now - existingWindowStart))), db)
      else
        let db := upsertRateLimit key (window_start existing) now db in
        (mkResult true (maxRequests - count existing - 1) None, db)
  end.

(** The first call of a window: the key is unknown, or its window is over. *)
Definition opens_window (key : string) (windowMs now : Z) (db : DB) : Prop :=
  match rate_limits db !! key with
  | None => True
  | Some row => window_start row < now - windowMs
  end.

(** The gate calls a journal records, oldest first. *)
Definition gate_calls (j : list Entry) : list (string * Z * Z) :=
  flat_map (λ e, match e with
                 | Call_checkRateLimit k m w => [(k, m, w)]
                 | _ => []
                 end) j.

(** SQLite's CURRENT_TIMESTAMP and [datetime(...)] have a resolution of one
    second: the reading is cut down to a whole number of seconds. *)
Definition to_seconds (t : Z) : Z := 1000 * (t / 1000).

(** [DELETE FROM rate_limits
     WHERE datetime(window_start) < datetime('now', '-1 hour')];
    [cleanupRateLimits] returns the number of rows deleted. *)
Definition cleanupRateLimits (now : Z) (db : DB) : Z * DB :=
  let keep :=
    filter (λ kv, ¬ (to_seconds (window_start kv.2)
                      < to_seconds now - 3600000))
           (rate_limits db) in
  (Z.of_nat (size (rate_limits db)) - Z.of_nat (size keep),
   set_rate_limits keep db).

(** *** IP blocking *)

(** [SELECT * FROM ip_blocks WHERE ip = ?] *)
Definition getIPBlock (ip : string) (db : DB) : option IPBlockRow * DB :=
  (ip_blocks db !! ip, record (Stmt_getIPBlock ip) db).

(** [INSERT INTO ip_blocks (ip, blocked_until, reason, attempts)
     VALUES (@ip, @blocked_until, @reason, @attempts)
     ON CONFLICT(ip) DO UPDATE SET blocked_at = CURRENT_TIMESTAMP,
       blocked_until = @blocked_until, reason = @reason,
       attempts = attempts + 1].
    On a fresh insert [blocked_at] takes the column default, modelled from
    the spec as the time of creation. *)
Definition insertIPBlock (ip : string) (until : Z) (why : string)
    (first_attempts : Z) (now : Z) (db : DB) : DB :=
  let row :=
    match ip_blocks db !! ip with
    | None => mkIPBlockRow (to_seconds now) until why first_attempts
    | Some old => mkIPBlockRow (to_seconds now) until why (attempts old + 1)
    end in
  record (Stmt_insertIPBlock ip)
         (set_ip_blocks (<[ip := row]> (ip_blocks db)) db).

(** [DELETE FROM ip_blocks WHERE ip = ?]; the result is [changes]. *)
Definition deleteIPBlock (ip : string) (db : DB) : Z * DB :=
  let changes := match ip_blocks db !! ip with None => 0 | Some _ => 1 end in
  (changes,
   record (Stmt_deleteIPBlock ip)
          (set_ip_blocks (delete ip (ip_blocks db)) db)).

Record BlockStatus := mkBlockStatus {
  blocked : bool;
  blockedUntil : option Z;
  blockReason : option string;
  blockAttempts : option Z
}.

Definition isIPBlocked (ip : string) (now : Z) (db : DB) : BlockStatus * DB :=
  let '(found, db) := getIPBlock ip db in
  match found with
  | None => (mkBlockStatus false None None None, db)
  | Some row =>
      let until := blocked_until row in
      if until <? now then
        let '(_, db) := deleteIPBlock ip db in
        (mkBlockStatus false None None None, db)
      else
        (mkBlockStatus true (Some (blocked_until row)) (Some (reason row))
                       (Some (attempts row)), db)
  end.

Definition default_reason : string := "Troppi tentativi sospetti".

(** [blockIP(ip, minutes = 30, reason = 'Troppi tentativi sospetti')];
    the defaults are supplied by the callers below. *)
Definition blockIP (ip : string) (minutes : Z) (why : string) (now : Z)
    (db : DB) : bool * DB :=
  let until := now + minutes * 60 * 1000 in
  let db := insertIPBlock ip until why 1 now db in
  (true, db).

Definition unblockIP (ip : string) (db : DB) : bool * DB :=
  let '(changes, db) := deleteIPBlock ip db in
  (0 <? changes, db).

(** [DELETE FROM ip_blocks WHERE datetime(blocked_until) < datetime('now')] *)
Definition cleanupExpiredIPBlocks (now : Z) (db : DB) : Z * DB :=
  let keep :=
    filter (λ kv, ¬ (to_seconds (blocked_until kv.2) < to_seconds now))
           (ip_blocks db) in
  (Z.of_nat (size (ip_blocks db)) - Z.of_nat (size keep),
   set_ip_blocks keep db).

(** *** Admin log and form statistics *)

(** JavaScript's [s || null] on an optional string: the empty string is
    falsy. *)
Definition or_null (o : option string) : option string :=
  match o with
  | Some s => if decide (s = "") then None else Some s
  | None => None
  end.

Record AdminAction := mkAdminAction {
  action : string;
  entityType : option string;
  entityId : option string;
  ipAddress_of_action : option string
}.

Definition logAdminAction (data : AdminAction) (db : DB) : DB :=
  let row := mkAdminLogRow (action data) (or_null (entityType data))
               (or_null (entityId data)) (or_null (ipAddress_of_action data)) in
  record (Stmt_insertAdminLog (action data))
         (set_admin_logs (admin_logs db ++ [row]) db).

Definition trackForm (act : string) (field : option string) (db : DB)
    : bool * DB :=
  (true,
   record (Stmt_insertFormStat act)
          (set_analytics_form
             (analytics_form db ++ [mkFormStatRow act (or_null field)]) db)).

(** *** Registrations *)

Record IscrizioneData := mkIscrizioneData {
  nomeSquadra : string;
  cittaSquadra : string;
  paeseSquadra : string;
  nomeCapitano : string;
  cognomeCapitano : string;
  emailCapitano : string;
  telefonoCapitano : string;
  dataNascitaCapitano : string;
  provinciaFoggia : string;
  numeroGiocatori : option Z;   (* [None] is NaN or undefined *)
  note_of_data : option string;
  ipAddress : option string;
  userAgent : option string
}.

Inductive SqliteError :=
| SQLITE_CONSTRAINT_PRIMARYKEY
| SQLITE_CONSTRAINT_UNIQUE.

(** What a JavaScript call ends in: a value, or an exception. *)
Inductive Completion (A : Type) :=
| Returned (a : A)
| Thrown (e : SqliteError).
Arguments Returned {A} a.
Arguments Thrown {A} e.

Definition has_id (i : string) (row : IscrizioneRow) : bool :=
  bool_decide (id row = i).

Definition has_email (e : string) (row : IscrizioneRow) : bool :=
  bool_decide (email_capitano row = e).

(** The INSERT of a registration.  [id] is the PRIMARY KEY and
    [email_capitano] is UNIQUE; a violated constraint aborts the statement
    and leaves the table as it was.  SQLite checks the index of the UNIQUE
    column, the one declared last, before that of the primary key: a row
    that collides on both is reported as SQLITE_CONSTRAINT_UNIQUE. *)
Definition insertIscrizione (row : IscrizioneRow) (db : DB)
    : Completion unit * DB :=
  let db := record (Stmt_insertIscrizione (id row)) db in
  if existsb (has_email (email_capitano row)) (iscrizioni db) then
    (Thrown SQLITE_CONSTRAINT_UNIQUE, db)
  else if existsb (has_id (id row)) (iscrizioni db) then
    (Thrown SQLITE_CONSTRAINT_PRIMARYKEY, db)
  else
    (Returned tt, set_iscrizioni (iscrizioni db ++ [row]) db).

(** [SELECT * FROM iscrizioni WHERE id = ?] *)
Definition getIscrizioneById (i : string) (db : DB)
    : option IscrizioneRow * DB :=
  (find (has_id i) (iscrizioni db), record (Stmt_getIscrizioneById i) db).

Record CreateResult := mkCreateResult {
  success : bool;
  created_id : option string;
  iscrizione : option IscrizioneRow;
  error : option string
}.

Definition email_taken : string := "Email già registrata".

(** Some stored registration has captain email [e]. *)
Definition email_registered (e : string) (db : DB) : Prop :=
  ∃ row, row ∈ iscrizioni db ∧ email_capitano row = e.

(** No stored registration has id [i]. *)
Definition id_unused (i : string) (db : DB) : Prop :=
  ∀ row, row ∈ iscrizioni db → id row ≠ i.

(** [createIscrizione(data)]; [uuid] is the value of
    [crypto.randomUUID()]. *)
Definition createIscrizione (uuid : string) (data : IscrizioneData) (db : DB)
    : Completion CreateResult * DB :=
  let row :=
    mkIscrizioneRow uuid (nomeSquadra data) (cittaSquadra data)
      (paeseSquadra data) (nomeCapitano data) (cognomeCapitano data)
      (emailCapitano data) (telefonoCapitano data)
      (dataNascitaCapitano data) (provinciaFoggia data)
      (match numeroGiocatori data with
       | Some n => if n =? 0 then 11 else n
       | None => 11
       end)
      (or_null (note_of_data data)) "pending"
      (or_null (ipAddress data)) (or_null (userAgent data)) in
  match insertIscrizione row db with
  | (Returned _, db) =>
      let '(stored, db) := getIscrizioneById uuid db in
      (Returned (mkCreateResult true (Some uuid) stored None), db)
  | (Thrown SQLITE_CONSTRAINT_UNIQUE, db) =>
      (Returned (mkCreateResult false None None (Some email_taken)), db)
  | (Thrown e, db) => (Thrown e, db)
  end.

End DatabaseManager.

(** ** Security helpers and the registration handler (backend/server.js) *)

Module Server.
Import DatabaseManager.

(** SECURITY_CONFIG *)
Definition IP_BLOCK_DURATION_MINUTES : Z := 30.
Definition MAX_SUSPICIOUS_ATTEMPTS : Z := 5.

(** A value of the in-memory map [ipAttempts]. *)
Record Attempts := mkAttempts {
  attempt_count : Z;
  lastAttempt : Z
}.

(** Mail handed to the email service (fire and forget). *)
Inductive Mail :=
| sendConfirmation (row : option IscrizioneRow)
| notifyAdmin (row : option IscrizioneRow).

(** The process: the database singleton, the volatile attempt counters and
    the mail handed over so far. *)
Record State := mkState {
  db : DB;
  ipAttempts : gmap string Attempts;
  outbox : list Mail
}.

Definition with_db (d : DB) (st : State) : State :=
  mkState d (ipAttempts st) (outbox st).

(** The request as the handler sees it, after the body parsers and the
    express-validator chain have run: [validation_errors] holds the [path]
    of every error of [validationResult(req)], and the body fields are the
    sanitized values the chain leaves in [req.body]. *)
Record Request := mkRequest {
  req_ip : string;
  req_userAgent : string;
  admin_key : option string;
  body_website : option string;          (* the honeypot field *)
  validation_errors : list string;
  body_nomeSquadra : string;
  body_cittaSquadra : string;
  body_paeseSquadra : string;
  body_nomeCapitano : string;
  body_cognomeCapitano : string;
  body_emailCapitano : string;
  body_telefonoCapitano : string;
  body_dataNascitaCapitano : string;
  body_provinciaFoggia : string;
  body_numeroGiocatori : string;
  body_note : option string
}.

Record Response := mkResponse {
  status : Z;
  res_success : bool;
  message : string;
  res_id : option string
}.

Inductive Middleware :=
| next
| respond (r : Response).

Definition logSuspiciousActivity (req : Request) (st : State) : State :=
  with_db (logAdminAction
             (mkAdminAction "security_event" (Some "security")
                            (Some (req_ip req)) (Some (req_ip req)))
             (db st)) st.

(** Server-side [blockIP]: the durable block, then the admin log. *)
Definition blockIP (ip : string) (minutes : Z) (why : string) (now : Z)
    (st : State) : State :=
  let '(_, d) := DatabaseManager.blockIP ip minutes why now (db st) in
  let d := logAdminAction
             (mkAdminAction "ip_blocked" (Some "security") (Some ip) (Some ip))
             d in
  with_db d st.

Definition incrementSuspiciousAttempts (ip : string) (now : Z) (st : State)
    : bool * State :=
  let old := default (mkAttempts 0 0) (ipAttempts st !! ip) in
  let rec := mkAttempts (attempt_count old + 1) now in
  let st := mkState (db st) (<[ip := rec]> (ipAttempts st)) (outbox st) in
  if attempt_count rec >=? MAX_SUSPICIOUS_ATTEMPTS then
    (true, blockIP ip IP_BLOCK_DURATION_MINUTES default_reason now st)
  else
    (false, st).

Definition isIPBlocked (ip : string) (now : Z) (st : State) : bool * State :=
  let '(result, d) := DatabaseManager.isIPBlocked ip now (db st) in
  (blocked result, with_db d st).

Definition checkHoneypot (req : Request) (st : State) : bool * State :=
  match body_website req with
  | Some v =>
      if 0 <? Z.of_nat (String.length v)
      then (false, logSuspiciousActivity req st)
      else (true, st)
  | None => (true, st)
  end.

Definition ipBlockMiddleware (req : Request) (now : Z) (st : State)
    : Middleware * State :=
  let '(b, st) := isIPBlocked (req_ip req) now st in
  if b then
    (respond (mkResponse 429 false
       "Accesso temporaneamente sospeso. Riprova più tardi." None),
     logSuspiciousActivity req st)
  else (next, st).

(** The 15-minute sweep of the cron job: volatile counters idle for more
    than an hour are dropped, expired blocks are deleted. *)
Definition sweep (now : Z) (st : State) : State :=
  let keep := filter (λ kv, ¬ (3600000 < now - lastAttempt kv.2))
                     (ipAttempts st) in
  let '(_, d) := cleanupExpiredIPBlocks now (db st) in
  mkState d keep (outbox st).

(** The honeypot field is absent or empty. *)
Definition honeypot_untouched (req : Request) : Prop :=
  body_website req = None ∨ body_website req = Some "".

Section Handlers.

(** Library functions the handlers call. *)
Variable sanitizeInput : string → string.
Variable normalizeEmail : string → string.
Variable parseInt : string → option Z.
Variable validateAdminKey : option string → bool.

Definition adminAuthMiddleware (req : Request) (now : Z) (st : State)
    : Middleware * State :=
  if validateAdminKey (admin_key req) then (next, st)
  else
    let st := logSuspiciousActivity req st in
    let '(b, st) := incrementSuspiciousAttempts (req_ip req) now st in
    if b then
      (respond (mkResponse 429 false
         "Troppi tentativi. Accesso bloccato temporaneamente." None), st)
    else
      (respond (mkResponse 401 false "Non autorizzato" None), st).

Definition track_errors (paths : list string) (d : DB) : DB :=
  fold_left
    (λ d p, (trackForm "error"
               (Some (if decide (p = "") then "unknown" else p)) d).2)
    paths d.

Definition HOUR : Z := 3600000.

Definition email_key (req : Request) : string :=
  "email:" +:+ body_emailCapitano req.

Definition ip_key (req : Request) : string :=
  "ip:" +:+ req_ip req.

Definition registration_of (req : Request) : IscrizioneData :=
  mkIscrizioneData
    (sanitizeInput (body_nomeSquadra req))
    (sanitizeInput (body_cittaSquadra req))
    (body_paeseSquadra req)
    (sanitizeInput (body_nomeCapitano req))
    (sanitizeInput (body_cognomeCapitano req))
    (normalizeEmail (body_emailCapitano req))
    (sanitizeInput (body_telefonoCapitano req))
    (body_dataNascitaCapitano req)
    (body_provinciaFoggia req)
    (parseInt (body_numeroGiocatori req))
    (match or_null (body_note req) with
     | Some n => Some (sanitizeInput n)
     | None => None
     end)
    (Some (req_ip req))
    (Some (req_userAgent req)).

(** The handler of [POST /api/iscrizione], after [formLimiter],
    [csrfProtection] and [validationRules] have let the request through.
    [uuid] is the id [createIscrizione] draws. *)
Definition post_iscrizione (uuid : string) (req : Request) (now : Z)
    (st : State) : Response * State :=
  let '(human, st) := checkHoneypot req st in
  if negb human then
    (mkResponse 400 false "Si è verificato un errore. Riprova." None, st)
  else
  match validation_errors req with
  | _ :: _ =>
      (mkResponse 400 false "Dati non validi" None,
       with_db (track_errors (validation_errors req) (db st)) st)
  | [] =>
  let '(emailRateLimit, d) :=
    checkRateLimit (email_key req) 1 HOUR now (db st) in
  if negb (allowed emailRateLimit) then
    (mkResponse 429 false
       "Hai già inviato un'iscrizione di recente. Riprova più tardi." None,
     with_db d st)
  else
  let '(ipRateLimit, d) := checkRateLimit (ip_key req) 3 HOUR now d in
  if negb (allowed ipRateLimit) then
    (mkResponse 429 false "Troppe iscrizioni da questo indirizzo IP." None,
     with_db d st)
  else
  match createIscrizione uuid (registration_of req) d with
  | (Thrown _, d) =>
      (mkResponse 500 false
         "Si è verificato un errore durante l'invio dell'iscrizione" None,
       with_db d st)
  | (Returned result, d) =>
      if negb (success result) then
        (mkResponse 400 false
           (default "Errore durante l'iscrizione" (or_null (error result)))
           None,
         with_db d st)
      else
        let mail := [sendConfirmation (iscrizione result);
                     notifyAdmin (iscrizione result)] in
        let d := logAdminAction
                   (mkAdminAction "iscrizione_created" (Some "iscrizione")
                                  (created_id result) (Some (req_ip req)))
                   d in
        (mkResponse 200 true
           "Iscrizione inviata con successo! Ti contatteremo a breve."
           (created_id result),
         mkState d (ipAttempts st) (outbox st ++ mail))
  end
  end.

End Handlers.

End Server.

(** ** The client event queue (analytics/analytics.js) *)

Module FoggianoAnalytics.

(** JSON-like values of event payloads. *)
#[local] Unset Elimination Schemes.
Inductive JsVal :=
| JNull
| JBool (b : bool)
| JNum (n : Z)
| JStr (s : string)
| JArr (items : list JsVal)
| JObj (fields : list (string * JsVal)).
#[local] Set Elimination Schemes.

Abbreviation Obj := (list (string * JsVal)).

(** Assignment of one property, as the object spread [{...o, k: v}] does
    it: an existing property keeps its place and takes the new value. *)
Fixpoint obj_set (k : string) (v : JsVal) (o : Obj) : Obj :=
  match o with
  | [] => [(k, v)]
  | (k', v') :: o =>
      if decide (k = k') then (k, v) :: o else (k', v') :: obj_set k v o
  end.

Record Config := mkConfig {
  apiBase : string;
  batchSize : Z;
  batchInterval : Z;
  retryAttempts : Z;
  retryDelay : Z
}.

Record Options := mkOptions {
  opt_apiBase : option string;
  opt_batchSize : option Z;
  opt_batchInterval : option Z;
  opt_retryAttempts : option Z;
  opt_retryDelay : option Z
}.

(** [options.x || d] on an optional number: 0 is falsy. *)
Definition num_or (o : option Z) (d : Z) : Z :=
  match o with
  | Some n => if n =? 0 then d else n
  | None => d
  end.

Definition str_or (o : option string) (d : string) : string :=
  match o with
  | Some s => if decide (s = "") then d else s
  | None => d
  end.

(** The [config] object the constructor builds. *)
Definition make_config (o : Options) : Config :=
  mkConfig (str_or (opt_apiBase o) "/api/analytics")
           (num_or (opt_batchSize o) 10)
           (num_or (opt_batchInterval o) 5000)
           (num_or (opt_retryAttempts o) 3)
           (num_or (opt_retryDelay o) 1000).

Record Event := mkEvent {
  endpoint : string;
  data : Obj;
  attempts : Z;
  createdAt : Z
}.

Record Funnel := mkFunnel {
  pageLoad : bool;
  heroView : bool;
  puzzleView : bool;
  puzzleStart : bool;
  puzzleComplete : bool;
  torneoView : bool;
  formView : bool;
  formStart : bool;
  formSubmit : bool
}.

(** The fields of the [FoggianoAnalytics] object. *)
Record Analytics := mkAnalytics {
  config : Config;
  sessionId : string;
  sessionStart : Z;
  eventQueue : list Event;
  isOnline : bool;
  retryQueue : list Event;
  scrollMilestones : list Z;
  clickedSections : list string;
  funnelSteps : Funnel
}.

Inductive Channel := Fetch | Beacon.

(** One request handed to the network: by which API, where, what, and, as
    ghost data, the clock and the value of [isOnline] at that moment. *)
Record Sent := mkSent {
  via : Channel;
  url : string;
  body : Obj;
  sent_at : Z;
  sent_online : bool
}.

(** The page around the object.
    - [timeouts]: due times of the pending [setTimeout] callbacks; every one
      of them is [() => this.retryFailedEvents()].
    - [pending]: the suspended [for ... await this.sendEvent(event)] loops;
      each waits for the [fetch] of its first event, the rest is still to be
      sent.
    - [network]: everything handed to [fetch] or [navigator.sendBeacon],
      oldest first.
    - [beacon_api]: whether [navigator.sendBeacon] exists.
    - [cls]: [None] when the layout-shift listener was not installed,
      otherwise the current [Math.round(clsValue * 1000)]. *)
Record Page := mkPage {
  self : Analytics;
  clock : Z;
  timeouts : list Z;
  pending : list (list Event);
  network : list Sent;
  beacon_api : bool;
  cls : option Z
}.

Definition with_self (a : Analytics) (p : Page) : Page :=
  mkPage a (clock p) (timeouts p) (pending p) (network p) (beacon_api p)
         (cls p).

Definition set_eventQueue (q : list Event) (a : Analytics) : Analytics :=
  mkAnalytics (config a) (sessionId a) (sessionStart a) q (isOnline a)
              (retryQueue a) (scrollMilestones a) (clickedSections a)
              (funnelSteps a).

Definition set_retryQueue (q : list Event) (a : Analytics) : Analytics :=
  mkAnalytics (config a) (sessionId a) (sessionStart a) (eventQueue a)
              (isOnline a) q (scrollMilestones a) (clickedSections a)
              (funnelSteps a).

Definition set_isOnline (b : bool) (a : Analytics) : Analytics :=
  mkAnalytics (config a) (sessionId a) (sessionStart a) (eventQueue a) b
              (retryQueue a) (scrollMilestones a) (clickedSections a)
              (funnelSteps a).

Definition set_clock (t : Z) (p : Page) : Page :=
  mkPage (self p) t (timeouts p) (pending p) (network p) (beacon_api p)
         (cls p).

Definition set_timeouts (l : list Z) (p : Page) : Page :=
  mkPage (self p) (clock p) l (pending p) (network p) (beacon_api p) (cls p).

Definition set_pending (l : list (list Event)) (p : Page) : Page :=
  mkPage (self p) (clock p) (timeouts p) l (network p) (beacon_api p) (cls p).

Definition transmit (s : Sent) (p : Page) : Page :=
  mkPage (self p) (clock p) (timeouts p) (pending p) (network p ++ [s])
         (beacon_api p) (cls p).

(** [setTimeout(cb, delay)]: a negative delay counts as 0. *)
Definition setTimeout (delay : Z) (p : Page) : Page :=
  set_timeouts (timeouts p ++ [clock p + Z.max 0 delay]) p.

(** [new Date().toISOString()], kept as the reading it denotes. *)
Definition getTimestamp (p : Page) : JsVal := JNum (clock p).

Definition getTimeOnPage (p : Page) : Z := clock p - sessionStart (self p).

Definition endpoint_url (p : Page) (ep : string) : string :=
  apiBase (config (self p)) +:+ "/" +:+ ep.

(** *** Sending one event *)

(** [sendEvent], up to its [await fetch(...)]: the request goes out. *)
Definition sendEvent (event : Event) (p : Page) : Page :=
  transmit (mkSent Fetch (endpoint_url p (endpoint event)) (data event)
                   (clock p) (isOnline (self p))) p.

(** [sendEvent], from the moment the [fetch] settles.  [ok] is false when
    the promise rejects or the response is not ok; then the [catch] block
    runs. *)
Definition sendEvent_settled (ok : bool) (event : Event) (p : Page) : Page :=
  if ok then p
  else if attempts event <? retryAttempts (config (self p)) then
    let event := mkEvent (endpoint event) (data event) (attempts event + 1)
                         (createdAt event) in
    let p := with_self
               (set_retryQueue (retryQueue (self p) ++ [event]) (self p)) p in
    setTimeout (retryDelay (config (self p)) * attempts event) p
  else p.

(** [for (const event of events) await this.sendEvent(event)]: the first
    request goes out and the loop is suspended on it. *)
Definition send_loop (events : list Event) (p : Page) : Page :=
  match events with
  | [] => p
  | event :: _ => set_pending (pending p ++ [events]) (sendEvent event p)
  end.

(** The [fetch] the [i]-th suspended loop waits for settles: its
    [sendEvent] finishes and the loop goes on to its next event, in place. *)
Definition settle (i : nat) (ok : bool) (p : Page) : Page :=
  match pending p !! i with
  | Some (event :: rest) =>
      let before := take i (pending p) in
      let after := drop (S i) (pending p) in
      let p := sendEvent_settled ok event p in
      match rest with
      | [] => set_pending (before ++ after) p
      | next :: _ => set_pending (before ++ [rest] ++ after) (sendEvent next p)
      end
  | _ => p
  end.

Definition flushQueue (p : Page) : Page :=
  match eventQueue (self p) with
  | [] => p
  | _ :: _ =>
      if negb (isOnline (self p)) then p
      else
        let events := eventQueue (self p) in
        let p := with_self (set_eventQueue [] (self p)) p in
        send_loop events p
  end.

Definition retryFailedEvents (p : Page) : Page :=
  let events := retryQueue (self p) in
  let p := with_self (set_retryQueue [] (self p)) p in
  send_loop events p.

Definition queueEvent (ep : string) (d : Obj) (p : Page) : Page :=
  let event :=
    mkEvent ep
      (obj_set "timeOnPage" (JNum (getTimeOnPage p))
         (obj_set "timestamp" (getTimestamp p)
            (obj_set "sessionId" (JStr (sessionId (self p))) d)))
      0 (clock p) in
  let p := with_self
             (set_eventQueue (eventQueue (self p) ++ [event]) (self p)) p in
  if Z.of_nat (length (eventQueue (self p))) >=? batchSize (config (self p))
  then flushQueue p
  else p.

(** The callback of [startBatchProcessor]'s [setInterval]. *)
Definition batch_tick (p : Page) : Page :=
  if 0 <? Z.of_nat (length (eventQueue (self p))) then flushQueue p else p.

Definition sendImmediate (ep : string) (d : Obj) (p : Page) : Page :=
  transmit (mkSent Fetch (endpoint_url p ep)
              (obj_set "timestamp" (getTimestamp p)
                 (obj_set "sessionId" (JStr (sessionId (self p))) d))
              (clock p) (isOnline (self p))) p.

Definition sendBeacon (ep : string) (d : Obj) (p : Page) : Page :=
  if beacon_api p then
    transmit (mkSent Beacon (endpoint_url p ep)
                (obj_set "timestamp" (getTimestamp p)
                   (obj_set "sessionId" (JStr (sessionId (self p))) d))
                (clock p) (isOnline (self p))) p
  else p.

(** *** Engagement score and the final summary *)

Definition funnel_flags (f : Funnel) : list bool :=
  [pageLoad f; heroView f; puzzleView f; puzzleStart f; puzzleComplete f;
   torneoView f; formView f; formStart f; formSubmit f].

(** [Math.max(...this.scrollMilestones, 0)] *)
Definition max_scroll (a : Analytics) : Z :=
  fold_right Z.max 0 (scrollMilestones a).

Definition calculateEngagementScore (p : Page) : Z :=
  let a := self p in
  let timeScore := Z.min 20 (getTimeOnPage p / 30000 * 5) in
  let score := timeScore in
  let score := score + max_scroll a / 5 in
  let steps := Z.of_nat (length (filter (λ b, b = true)
                                        (funnel_flags (funnelSteps a)))) in
  let score := score + steps * 5 in
  let score := score + Z.of_nat (length (clickedSections a)) * 3 in
  let score := if puzzleComplete (funnelSteps a) then score + 5 else score in
  let score := if formSubmit (funnelSteps a) then score + 5 else score in
  Z.min score 100.

Definition funnel_obj (f : Funnel) : JsVal :=
  JObj [("pageLoad", JBool (pageLoad f)); ("heroView", JBool (heroView f));
        ("puzzleView", JBool (puzzleView f));
        ("puzzleStart", JBool (puzzleStart f));
        ("puzzleComplete", JBool (puzzleComplete f));
        ("torneoView", JBool (torneoView f)); ("formView", JBool (formView f));
        ("formStart", JBool (formStart f));
        ("formSubmit", JBool (formSubmit f))].

(** [sendFinalData] of [setupUnloadTracking]. *)
Definition sendFinalData (p : Page) : Page :=
  let timeOnPage := getTimeOnPage p in
  let maxScrollReached := max_scroll (self p) in
  let p := sendBeacon "event"
             [("category", JStr "Session"); ("action", JStr "End");
              ("value", JNum timeOnPage);
              ("sessionData",
               JObj [("duration", JNum timeOnPage);
                     ("maxScroll", JNum maxScrollReached);
                     ("sectionsClicked",
                      JArr (map JStr (clickedSections (self p))));
                     ("funnel", funnel_obj (funnelSteps (self p)))])] p in
  let engagementScore := calculateEngagementScore p in
  sendBeacon "event"
    [("category", JStr "Engagement"); ("action", JStr "Score");
     ("value", JNum engagementScore)] p.

(** The layout-shift listener of [setupPerformanceTracking], on [window]. *)
Definition send_cls (p : Page) : Page :=
  match cls p with
  | Some v =>
      sendBeacon "event"
        [("category", JStr "Performance"); ("action", JStr "CLS");
         ("value", JNum v)] p
  | None => p
  end.

(** *** The page as a transition system *)

(** What can happen to the page, one task of the event loop each. *)
Inductive Input :=
| Track (ep : string) (d : Obj)   (* a tracker calls [queueEvent] *)
| BatchTick                       (* the [setInterval] callback *)
| Timeout (j : nat)               (* the [j]-th pending timeout fires *)
| Settled (i : nat) (ok : bool)   (* the [fetch] of loop [i] settles *)
| Online                          (* window 'online' *)
| Offline                         (* window 'offline' *)
| Hidden       (* 'visibilitychange' with visibilityState 'hidden' *)
| Visible      (* 'visibilitychange' with visibilityState 'visible' *)
| BeforeUnload                    (* window 'beforeunload' *)
| Elapse (dt : Z).                (* time passes *)

Definition step (i : Input) (p : Page) : Page :=
  match i with
  | Track ep d => queueEvent ep d p
  | BatchTick => batch_tick p
  | Timeout j =>
      match timeouts p !! j with
      | Some due =>
          if due <=? clock p then
            retryFailedEvents
              (set_timeouts (take j (timeouts p) ++ drop (S j) (timeouts p)) p)
          else p
      | None => p
      end
  | Settled i ok => settle i ok p
  | Online =>
      let p := with_self (set_isOnline true (self p)) p in
      let p := flushQueue p in
      retryFailedEvents p
  | Offline => with_self (set_isOnline false (self p)) p
  | Hidden => send_cls (sendFinalData p)
  | Visible => p
  | BeforeUnload => sendFinalData p
  | Elapse dt => set_clock (clock p + Z.max 0 dt) p
  end.

Definition run (inputs : list Input) (p : Page) : Page :=
  fold_left (λ p i, step i p) inputs p.

(** The request [sendEvent] hands to [fetch] for [event] at time [t]. *)
Definition delivery (p : Page) (event : Event) (t : Z) (online : bool)
    : Sent :=
  mkSent Fetch (endpoint_url p (endpoint event)) (data event) t online.

(** An event that keeps failing, alone on the page: after a failure that
    left its [attempts] at [a + 1], the timer set by that failure runs out,
    fires, and the retry fails again; [k] times over. *)
Fixpoint failing_retries (d a : Z) (k : nat) : list Input :=
  match k with
  | O => []
  | S k =>
      [Elapse (d * (a + 1)); Timeout 0; Settled 0 false]
      ++ failing_retries d (a + 1) k
  end.

(** The clock readings of those retries, the failure before the first of
    them having happened at [c]. *)
Fixpoint retry_times (d c a : Z) (k : nat) : list Z :=
  match k with
  | O => []
  | S k => (c + d * (a + 1)) :: retry_times d (c + d * (a + 1)) (a + 1) k
  end.

(** Recognizes the session summary among the requests. *)
Definition is_session_end (s : Sent) : bool :=
  match via s, body s with
  | Beacon, ("category", JStr c) :: ("action", JStr a) :: _ =>
      String.eqb c "Session" && String.eqb a "End"
  | _, _ => false
  end.

(** How many session summaries a log holds. *)
Definition summaries (log : list Sent) : nat :=
  length (List.filter is_session_end log).

(** A hide or unload occurrence. *)
Definition leaves_page (i : Input) : Prop := i = Hidden ∨ i = BeforeUnload.

End FoggianoAnalytics.

(** ** Counting deliveries (analytics/analytics.js) *)

Module Deliveries.
Import FoggianoAnalytics.

(** How many requests of a log went to [fetch] with a payload that [sel]
    picks out. *)
Definition fetched (sel : Obj → bool) (log : list Sent) : Z :=
  Z.of_nat (length (List.filter
                      (λ s, match via s with
                            | Fetch => sel (body s)
                            | Beacon => false
                            end) log)).

(** How many events of a queue [sel] picks out. *)
Definition selected (sel : Obj → bool) (events : list Event) : Z :=
  Z.of_nat (length (List.filter (λ e, sel (data e)) events)).

(** The calls of [fetch] an event still has before it when every one of
    them fails and [n] is [retryAttempts]: [owed_sent] for an event whose
    request is under way, [owed_queued] for one that waits in a queue or
    behind the first event of a send loop. *)
Definition owed_sent (sel : Obj → bool) (n : Z) (e : Event) : Z :=
  if sel (data e) then Z.max 0 (n - attempts e) else 0.

Definition owed_queued (sel : Obj → bool) (n : Z) (e : Event) : Z :=
  if sel (data e) then 1 + Z.max 0 (n - attempts e) else 0.

Definition owed_list (sel : Obj → bool) (n : Z) (l : list Event) : Z :=
  foldr (λ e total, owed_queued sel n e + total) 0 l.

Definition owed_loop (sel : Obj → bool) (n : Z) (loop : list Event) : Z :=
  match loop with
  | [] => 0
  | e :: rest => owed_sent sel n e + owed_list sel n rest
  end.

Definition owed_pending (sel : Obj → bool) (n : Z) (l : list (list Event))
    : Z :=
  foldr (λ loop total, owed_loop sel n loop + total) 0 l.

(** The calls of [fetch] made so far together with those still to come. *)
Definition account (sel : Obj → bool) (n : Z) (p : Page) : Z :=
  fetched sel (network p)
  + owed_list sel n (eventQueue (self p))
  + owed_list sel n (retryQueue (self p))
  + owed_pending sel n (pending p).

(** An occurrence that neither tracks a new event nor lets a request
    succeed. *)
Definition fails (i : Input) : Prop :=
  match i with
  | Track _ _ => False
  | Settled _ ok => ok = false
  | _ => True
  end.

(** Nothing is queued, waits for a retry or is under way. *)
Definition at_rest (p : Page) : Prop :=
  eventQueue (self p) = [] ∧ retryQueue (self p) = [] ∧ pending p = [].

End Deliveries.

(** ** Reading and deleting registrations (backend/database) *)

(** Two more methods of [DatabaseManager].  Their statements leave no entry
    in the journal, which is kept for the gate, the block table and the
    registration insert. *)
Module Moderation.
Import DatabaseManager.

(** [DELETE FROM iscrizioni WHERE id = ?]; [deleteIscrizione] returns
    [changes > 0]. *)
Definition deleteIscrizione (i : string) (db : DB) : bool * DB :=
  let kept := List.filter (λ row, negb (has_id i row)) (iscrizioni db) in
  let changes :=
    Z.of_nat (length (iscrizioni db)) - Z.of_nat (length kept) in
  (0 <? changes, set_iscrizioni kept db).

(** [SELECT * FROM iscrizioni WHERE email_capitano = ?] *)
Definition getIscrizioneByEmail (e : string) (db : DB)
    : option IscrizioneRow :=
  find (has_email e) (iscrizioni db).

(** What PRIMARY KEY and UNIQUE promise of the table: no two rows share an
    id, no two rows share a captain email. *)
Definition keys_unique (db : DB) : Prop :=
  NoDup (map id (iscrizioni db)) ∧ NoDup (map email_capitano (iscrizioni db)).

End Moderation.

(** ** The mail service (class EmailService) *)

Module EmailService.
Import Stdlib.Strings.Ascii.

(** The fields of the service the sending methods read: whether [init]
    created a transporter, and the two retry settings. *)
Record Service := mkService {
  transporter : bool;
  maxRetries : nat;
  retryDelay : Z
}.

(** The constructor: [maxRetries = 3], [retryDelay = 5000]; the transporter
    exists when the SMTP credentials are configured. *)
Definition EmailService (configured : bool) : Service :=
  {| transporter := configured; maxRetries := 3; retryDelay := 5000 |}.

Record Options := mkOptions {
  to : string;
  subject : string;
  html : string
}.

(** How [transporter.sendMail] settles: resolved with a message id, or
    rejected with an error message. *)
Inductive Outcome :=
| Accepted (messageId : string)
| Rejected (message : string).

Record Result := mkResult {
  success : bool;
  messageId : option string;
  error : option string
}.

(** What a call does to the world, in order: a mail handed to the
    transporter, a pause of [delay(ms)]. *)
Inductive Effect :=
| SendMail (options : Options)
| Delay (ms : Z).

Definition is_SendMail (e : Effect) : bool :=
  match e with SendMail _ => true | Delay _ => false end.

(** How many mails a trace handed to the transporter. *)
Definition calls (trace : list Effect) : nat :=
  length (List.filter is_SendMail trace).

(** The time a trace spent in [delay]. *)
Definition waited (trace : list Effect) : Z :=
  foldr (λ e total, match e with Delay ms => ms + total | _ => total end)
        0 trace.

Section Transport.

(** The mail server: how the [n]-th call of [sendMail] settles, counting
    from 0. *)
Variable smtp : nat → Outcome.

Definition send (svc : Service) (options : Options) (trace : list Effect)
    : Result * list Effect :=
  if negb (transporter svc) then
    (mkResult false None (Some "Email service not configured"), trace)
  else
    match smtp (calls trace) with
    | Accepted m =>
        (mkResult true (Some m) None, trace ++ [SendMail options])
    | Rejected e =>
        (mkResult false None (Some e), trace ++ [SendMail options])
    end.

(** [sendWithRetry(options, retries)]; [retries] counts the attempts made
    so far, so that [maxRetries - retries] decreases. *)
#[local] Unset Equations With Funext.
Equations? sendWithRetry (svc : Service) (options : Options) (retries : nat)
  (trace : list Effect) : Result * list Effect
  by wf (maxRetries svc - retries)%nat lt :=
sendWithRetry svc options retries trace
  with send svc options trace => {
  | (result, trace1)
      with success result, decide (retries < maxRetries svc)%nat => {
      | false, left _ =>
          let delay := retryDelay svc * 2 ^ Z.of_nat retries in
          sendWithRetry svc options (S retries) (trace1 ++ [Delay delay])
      | _, _ => (result, trace1) } }.
Proof. lia. Qed.

End Transport.

(** The five characters [escapeHtml] replaces (ampersand, angle brackets,
    double and single quote) with their entities; [None] for any other
    character. *)
Definition htmlEntities (char : Ascii.ascii) : option string :=
  if Ascii.eqb char "&"%char then Some "&amp;"
  else if Ascii.eqb char "<"%char then Some "&lt;"
  else if Ascii.eqb char ">"%char then Some "&gt;"
  else if Ascii.eqb char "034"%char then Some "&quot;"
  else if Ascii.eqb char "'"%char then Some "&#39;"
  else None.

(** [escapeHtml] on a string: every character of the class is replaced by
    its entity; the empty string is falsy and gives the empty string. *)
Fixpoint escapeHtml (text : string) : string :=
  match text with
  | EmptyString => EmptyString
  | String char rest =>
      match htmlEntities char with
      | Some entity => entity +:+ escapeHtml rest
      | None => String char (escapeHtml rest)
      end
  end.

(** The characters that open or close a tag or an attribute value. *)
Definition markup : list Ascii.ascii := ["<"; ">"; "034"; "'"]%char.

End EmailService.

(** ** The landing page (index.js) *)

Module Landing.

(** *** The countdown *)

(** What [updateCountdown] writes into the four fields: zeros and the
    started banner once the date has passed, the remaining time before. *)
Inductive Display :=
| Started
| Remaining (days hours minutes seconds : Z).

(** [updateCountdown], the clock reading [now] made explicit. *)
Definition updateCountdown (tournamentDate now : Z) : Display :=
  let distance := tournamentDate - now in
  if distance <? 0 then Started
  else
    let days := distance / (1000 * 60 * 60 * 24) in
    let hours :=
      Z.rem distance (1000 * 60 * 60 * 24) / (1000 * 60 * 60) in
    let minutes := Z.rem distance (1000 * 60 * 60) / (1000 * 60) in
    let seconds := Z.rem distance (1000 * 60) / 1000 in
    Remaining days hours minutes seconds.

(** *** The puzzle *)

Definition PUZZLE_PIECES : Z := 9.

Inductive Callback :=
| ResetTransform (piece : nat)
| AssemblePuzzle.

(** The two globals of the script, the pieces that carry the class
    [flipped] (by their index), and the callbacks handed to [setTimeout]
    with their delays, oldest first. *)
Record Puzzle := mkPuzzle {
  flippedPieces : Z;
  puzzleCompleted : bool;
  flipped : gset nat;
  scheduled : list (Z * Callback)
}.

(** The script as loaded: no piece flipped. *)
Definition initial : Puzzle := mkPuzzle 0 false ∅ [].

(** The pieces [initPuzzle] puts into the grid. *)
Definition grid : gset nat := set_seq 0 (Z.to_nat PUZZLE_PIECES).

(** [handlePieceClick]; [updatePuzzleProgress] only redraws the progress
    bar. *)
Definition handlePieceClick (piece : nat) (st : Puzzle) : Puzzle :=
  if puzzleCompleted st || bool_decide (piece ∈ flipped st) then st
  else
    let st := mkPuzzle (flippedPieces st + 1) (puzzleCompleted st)
                       ({[piece]} ∪ flipped st)
                       (scheduled st ++ [(150, ResetTransform piece)]) in
    if flippedPieces st =? PUZZLE_PIECES then
      mkPuzzle (flippedPieces st) (puzzleCompleted st) (flipped st)
               (scheduled st ++ [(500, AssemblePuzzle)])
    else st.

(** The clicks of a visitor on pieces of the grid, in order. *)
Definition clicks (pieces : list nat) (st : Puzzle) : Puzzle :=
  fold_left (λ st piece, handlePieceClick piece st) pieces st.

Definition is_assembly (entry : Z * Callback) : bool :=
  match entry.2 with AssemblePuzzle => true | ResetTransform _ => false end.

(** How many times [assemblePuzzle] was scheduled. *)
Definition assemblies (st : Puzzle) : nat :=
  length (List.filter is_assembly (scheduled st)).

End Landing.

(** ** The age of the captain (backend/server.js, iscrizioni/form.js) *)

Module AgeCheck.






End AgeCheck.

(** ** The pages of the admin table (admin/dashboard.js) *)

Module Dashboard.

(** [Array.prototype.slice(start, end)]: negative indices count from the
    end, both are clamped to the array. *)
Definition slice {A} (start final : Z) (l : list A) : list A :=
  let len := Z.of_nat (length l) in
  let k := if start <? 0 then Z.max (len + start) 0 else Z.min start len in
  let final :=
    if final <? 0 then Z.max (len + final) 0 else Z.min final len in
  take (Z.to_nat (final - k)) (drop (Z.to_nat k) l).

Record Pager := mkPager {
  currentPage : Z;
  itemsPerPage : Z
}.

(** The constructor's values. *)
Definition AdminDashboard : Pager := mkPager 1 10.

(** [Math.ceil(filtered.length / this.itemsPerPage)] of
    [renderIscrizioni], for a positive page size. *)
Definition totalPages {A} (filtered : list A) (d : Pager) : Z :=
  - (- Z.of_nat (length filtered) / itemsPerPage d).

(** The rows [renderIscrizioni] shows. *)
Definition pageData {A} (filtered : list A) (d : Pager) : list A :=
  let start := (currentPage d - 1) * itemsPerPage d in
  slice start (start + itemsPerPage d) filtered.

(** The [disabled] flags [renderIscrizioni] gives the two buttons. *)
Definition prev_disabled (d : Pager) : bool := currentPage d =? 1.

Definition next_disabled {A} (filtered : list A) (d : Pager) : bool :=
  totalPages filtered d <=? currentPage d.

(** The click listeners of the two buttons, up to the rendering. *)
Definition prevPage (d : Pager) : Pager :=
  if 1 <? currentPage d then mkPager (currentPage d - 1) (itemsPerPage d)
  else d.

Definition nextPage (d : Pager) : Pager :=
  mkPager (currentPage d + 1) (itemsPerPage d).

(** The rows of page [n] for a page size. *)
Definition page {A} (filtered : list A) (size : Z) (n : nat) : list A :=
  pageData filtered (mkPager (Z.of_nat n) size).

End Dashboard.

(** ** Scroll depth (analytics/analytics.js) *)

Module ScrollTracking.
Import FoggianoAnalytics.

Definition milestones : list Z := [10; 25; 50; 75; 90; 100].

Definition set_scrollMilestones (l : list Z) (a : Analytics) : Analytics :=
  mkAnalytics (config a) (sessionId a) (sessionStart a) (eventQueue a)
              (isOnline a) (retryQueue a) l (clickedSections a)
              (funnelSteps a).

(** The closure of [setupScrollTracking]: its local [maxScroll] beside the
    page. *)
Record Tracker := mkTracker {
  maxScroll : Z;
  page : Page
}.

Definition scroll_depth (milestone : Z) : Obj :=
  [("category", JStr "Engagement"); ("action", JStr "Scroll Depth");
   ("label", JStr (pretty milestone +:+ "%")); ("value", JNum milestone)].

(** The body of [milestones.forEach]. *)
Definition reach (scrollPercent : Z) (p : Page) (milestone : Z) : Page :=
  if (milestone <=? scrollPercent)
     && negb (bool_decide (milestone ∈ scrollMilestones (self p)))
  then
    let p := with_self
               (set_scrollMilestones
                  (scrollMilestones (self p) ++ [milestone]) (self p)) p in
    queueEvent "event" (scroll_depth milestone) p
  else p.

(** [updateScrollDepth], for the rounded percentage it computes, a finite
    number; the tracker is installed unless [trackScrollDepth] is switched
    off. *)
Definition updateScrollDepth (scrollPercent : Z) (t : Tracker) : Tracker :=
  if maxScroll t <? scrollPercent then
    mkTracker scrollPercent
              (fold_left (reach scrollPercent) milestones (page t))
  else t.

(** The readings of a visit, in order. *)
Definition scrolls (readings : list Z) (t : Tracker) : Tracker :=
  fold_left (λ t scrollPercent, updateScrollDepth scrollPercent t) readings t.

End ScrollTracking.

(** ** Concrete states used in the examples *)

Module Scenarios.

(** One request counted for the key, in a window opened at time 0. *)
Definition one_request (key : string) : DatabaseManager.DB :=
  DatabaseManager.set_rate_limits
    {[ key := DatabaseManager.mkRateLimitRow 1 0 0 ]}
    DatabaseManager.empty_db.

(** A stored registration, and a second one by the same captain. *)
Definition rossi : DatabaseManager.IscrizioneRow :=
  DatabaseManager.mkIscrizioneRow "id-0001" "Vecchie Glorie" "Foggia" "IT"
    "Mario" "Rossi" "mario.rossi@example.org" "+39 0881 000000" "1960-05-01"
    "si" 11 None "pending" (Some "203.0.113.7") None.

Definition one_registration : DatabaseManager.DB :=
  DatabaseManager.set_iscrizioni [rossi] DatabaseManager.empty_db.

Definition rossi_again : DatabaseManager.IscrizioneData :=
  DatabaseManager.mkIscrizioneData "Nuove Glorie" "Bari" "IT" "Mario" "Rossi"
    "mario.rossi@example.org" "+39 080 0000000" "1960-05-01" "no" (Some 12)
    None (Some "203.0.113.7") None.

(** A well-formed submission of the registration form, and a fresh server. *)
Definition submission : Server.Request :=
  Server.mkRequest "203.0.113.7" "Mozilla/5.0" None None []
    "Vecchie Glorie" "Foggia" "IT" "Mario" "Rossi" "mario.rossi@example.org"
    "+39 0881 000000" "1960-05-01" "si" "11" None.

Definition fresh_server : Server.State :=
  Server.mkState DatabaseManager.empty_db ∅ [].

(** The page as the site creates it ([batchSize: 5, batchInterval: 3000],
    the other settings at their defaults), online, nothing queued, at
    time 0. *)
Definition site_config : FoggianoAnalytics.Config :=
  FoggianoAnalytics.make_config
    (FoggianoAnalytics.mkOptions None (Some 5) (Some 3000) None None).

Definition fresh_page : FoggianoAnalytics.Page :=
  FoggianoAnalytics.mkPage
    (FoggianoAnalytics.mkAnalytics site_config "sess_k3x9" 0 [] true [] [] []
       (FoggianoAnalytics.mkFunnel true false false false false false false
          false false))
    0 [] [] [] true None.


Definition click : list (string * FoggianoAnalytics.JsVal) :=
  [("category", FoggianoAnalytics.JStr "UI");
   ("action", FoggianoAnalytics.JStr "Click")].

(** The event [queueEvent("event", click)] builds on [fresh_page]. *)
Definition click_event : FoggianoAnalytics.Event :=
  FoggianoAnalytics.mkEvent "event"
    (click ++ [("sessionId", FoggianoAnalytics.JStr "sess_k3x9");
               ("timestamp", FoggianoAnalytics.JNum 0);
               ("timeOnPage", FoggianoAnalytics.JNum 0)])
    0 0.

(** [fresh_page] with that one event queued. *)
Definition page_with_click : FoggianoAnalytics.Page :=
  FoggianoAnalytics.step (FoggianoAnalytics.Track "event" click) fresh_page.

(** Stand-ins for the library functions of the handlers. *)
Definition keep (s : string) : string := s.
Definition eleven (s : string) : option Z := Some 11.
Definition wrong_key (k : option string) : bool := false.

(** Requests to an admin route with a wrong key, at the given readings. *)
Fixpoint wrong_key_attempts (times : list Z) (st : Server.State)
    : list Z * Server.State :=
  match times with
  | [] => ([], st)
  | now :: times =>
      let '(m, st) := Server.adminAuthMiddleware wrong_key submission now st in
      let code := match m with
                  | Server.next => 200
                  | Server.respond r => Server.status r
                  end in
      let '(codes, st) := wrong_key_attempts times st in
      (code :: codes, st)
  end.

End Scenarios.

(** ** Further concrete states *)

Module Examples.

(** An address with four failed attempts on record, the last at time 0. *)
Definition four_strikes : Server.State :=
  Server.mkState DatabaseManager.empty_db
    {[ "203.0.113.7" := Server.mkAttempts 4 0 ]} [].

(** An address blocked at time 0 for half an hour. *)
Definition one_block : DatabaseManager.DB :=
  (DatabaseManager.blockIP "198.51.100.23" 30 DatabaseManager.default_reason
     0 DatabaseManager.empty_db).2.

(** A mail server that turns the first two attempts away, and one that is
    never reached. *)
Definition greylisting (n : nat) : EmailService.Outcome :=
  if (n <? 2)%nat then EmailService.Rejected "451 try again later"
  else EmailService.Accepted "<0001@libero.it>".

Definition unreachable (n : nat) : EmailService.Outcome :=
  EmailService.Rejected "connect ETIMEDOUT".

Definition confirmation : EmailService.Options :=
  EmailService.mkOptions "mario.rossi@example.org"
    "Iscrizione Ricevuta - Vecchie Glorie" "<h2>Grazie Mario!</h2>".

(** Twenty-three rows of the admin table, by their numbers. *)
Definition rows : list nat := seq 0 23.

(** The page of the site after the connection dropped, and the same page
    after two clicks were tracked. *)
Definition offline_page : FoggianoAnalytics.Page :=
  FoggianoAnalytics.step FoggianoAnalytics.Offline Scenarios.fresh_page.

Definition page_with_backlog : FoggianoAnalytics.Page :=
  FoggianoAnalytics.run
    [FoggianoAnalytics.Track "event" Scenarios.click;
     FoggianoAnalytics.Track "event" Scenarios.click]
    offline_page.

(** Picks out the payloads of a category. *)
Definition has_category (c : string) (payload : list (string * FoggianoAnalytics.JsVal))
    : bool :=
  match payload with
  | ("category", FoggianoAnalytics.JStr c') :: _ => String.eqb c' c
  | _ => false
  end.

(** The page of the site with a click and a scroll milestone queued, and a
    course of events in which every request fails: the batch goes out, and
    each of the three retry passes is started by a timer. *)
Definition page_with_two_events : FoggianoAnalytics.Page :=
  FoggianoAnalytics.run
    [FoggianoAnalytics.Track "event" Scenarios.click;
     FoggianoAnalytics.Track "event" (ScrollTracking.scroll_depth 50)]
    Scenarios.fresh_page.

Definition nothing_gets_through : list FoggianoAnalytics.Input :=
  [FoggianoAnalytics.BatchTick;
   FoggianoAnalytics.Settled 0 false; FoggianoAnalytics.Settled 0 false;
   FoggianoAnalytics.Elapse 1000; FoggianoAnalytics.Timeout 0;
   FoggianoAnalytics.Settled 0 false; FoggianoAnalytics.Settled 0 false;
   FoggianoAnalytics.Elapse 2000; FoggianoAnalytics.Timeout 0;
   FoggianoAnalytics.Settled 0 false; FoggianoAnalytics.Settled 0 false;
   FoggianoAnalytics.Elapse 3000; FoggianoAnalytics.Timeout 0;
   FoggianoAnalytics.Settled 0 false; FoggianoAnalytics.Settled 0 false].

(** The page of the site, online, with four clicks queued: one short of
    the batch size. *)
Definition page_one_short : FoggianoAnalytics.Page :=
  FoggianoAnalytics.run
    (repeat (FoggianoAnalytics.Track "event" Scenarios.click) 4)
    Scenarios.fresh_page.

End Examples.

(** * Properties *)

(** ** The rate-limit gate *)

Module RateLimitFacts.
Import DatabaseManager.

(** The four branches of [checkRateLimit], one lemma each. *)

Lemma check_absent key maxRequests windowMs now db :
  rate_limits db !! key = None →
  (checkRateLimit key maxRequests windowMs now db).1
    = mkResult true (maxRequests - 1) None
  ∧ rate_limits (checkRateLimit key maxRequests windowMs now db).2 !! key
    = Some (mkRateLimitRow 1 now now).
Proof.
  intros Hnone. unfold checkRateLimit, getRateLimit, upsertRateLimit. simpl.
  rewrite Hnone. simpl. split; [done|].
  by rewrite lookup_insert_eq.
Qed.

Lemma check_expired key maxRequests windowMs now db row :
  rate_limits db !! key = Some row →
  window_start row < now - windowMs →
  (checkRateLimit key maxRequests windowMs now db).1
    = mkResult true (maxRequests - 1) None
  ∧ rate_limits (checkRateLimit key maxRequests windowMs now db).2 !! key
    = Some (mkRateLimitRow 1 now (last_request row)).
Proof.
  intros Hrow Hold. unfold checkRateLimit, getRateLimit, resetRateLimit. simpl.
  rewrite Hrow. simpl.
  destruct (Z.ltb_spec (window_start row) (now - windowMs)); [|lia].
  simpl. repeat rewrite Hrow. split; [done|]. by rewrite lookup_insert_eq.
Qed.

Lemma check_full key maxRequests windowMs now db row :
  rate_limits db !! key = Some row →
  now - windowMs ≤ window_start row →
  maxRequests ≤ count row →
  (checkRateLimit key maxRequests windowMs now db).1
    = mkResult false 0 (Some (windowMs - (now - window_start row)))
  ∧ rate_limits (checkRateLimit key maxRequests windowMs now db).2
    = rate_limits db.
Proof.
  intros Hrow Hin Hfull. unfold checkRateLimit, getRateLimit. simpl.
  rewrite Hrow. simpl.
  destruct (Z.ltb_spec (window_start row) (now - windowMs)); [lia|].
  destruct (Z.geb_spec (count row) maxRequests); [done|lia].
Qed.

Lemma check_room key maxRequests windowMs now db row :
  rate_limits db !! key = Some row →
  now - windowMs ≤ window_start row →
  count row < maxRequests →
  (checkRateLimit key maxRequests windowMs now db).1
    = mkResult true (maxRequests - count row - 1) None
  ∧ rate_limits (checkRateLimit key maxRequests windowMs now db).2 !! key
    = Some (mkRateLimitRow (count row + 1) (window_start row) now).
Proof.
  intros Hrow Hin Hroom. unfold checkRateLimit, getRateLimit, upsertRateLimit.
  simpl. rewrite Hrow. simpl.
  destruct (Z.ltb_spec (window_start row) (now - windowMs)); [lia|].
  destruct (Z.geb_spec (count row) maxRequests); [lia|].
  simpl. repeat rewrite Hrow. split; [done|]. by rewrite lookup_insert_eq.
Qed.

(** Calls that find room in the running window are all allowed and each
    adds one to the count. *)
Lemma calls_with_room key maxRequests windowMs times :
  ∀ db row,
    rate_limits db !! key = Some row →
    Forall (λ t, t - windowMs ≤ window_start row) times →
    count row + Z.of_nat (length times) ≤ maxRequests →
    ∃ lr,
      Forall (λ r, allowed r = true)
             (checkRateLimit_calls key maxRequests windowMs times db).1
      ∧ length (checkRateLimit_calls key maxRequests windowMs times db).1
        = length times
      ∧ rate_limits
          (checkRateLimit_calls key maxRequests windowMs times db).2 !! key
        = Some (mkRateLimitRow (count row + Z.of_nat (length times))
                               (window_start row) lr).
Proof.
  induction times as [|t times IH]; intros db row Hrow Hin Hroom.
  - exists (last_request row). simpl. rewrite Z.add_0_r.
    destruct row; simpl in *. by repeat split.
  - apply Forall_cons in Hin as [Ht Hin].
    rewrite length_cons, Nat2Z.inj_succ in Hroom.
    destruct (check_room key maxRequests windowMs t db row Hrow)
      as [Hres Hnext]; [lia..|].
    simpl.
    destruct (checkRateLimit key maxRequests windowMs t db) as [r db1].
    simpl in Hres, Hnext.
    destruct (IH db1 _ Hnext) as (lr & Hall & Hlen & Hfin); simpl; [done|lia|].
    destruct (checkRateLimit_calls key maxRequests windowMs times db1)
      as [rs db2].
    simpl in *. exists lr. split; [|split].
    + constructor; [by rewrite Hres | done].
    + by rewrite Hlen.
    + rewrite Hfin. f_equal. f_equal. lia.
Qed.

Lemma check_opening key maxRequests windowMs now db :
  opens_window key windowMs now db →
  ∃ lr,
    (checkRateLimit key maxRequests windowMs now db).1
      = mkResult true (maxRequests - 1) None
    ∧ rate_limits (checkRateLimit key maxRequests windowMs now db).2 !! key
      = Some (mkRateLimitRow 1 now lr).
Proof.
  unfold opens_window. intros Hopen.
  destruct (rate_limits db !! key) as [row|] eqn:Hrow.
  - exists (last_request row). by apply check_expired.
  - exists now. by apply check_absent.
Qed.

(** C1.  A call [checkRateLimit(k, maxRequests, windowMs)] at [t0] opens a
    window ([k] has no record, or its window is over).  If it is followed by
    [maxRequests - 1] further calls at the readings [ts] and then by one more
    at [t_last], every one of them less than [windowMs] after [t0], then the
    first [maxRequests] calls all return allowed = true and the
    [(maxRequests+1)]-th returns allowed = false, remaining = 0 and
    retryAfter = windowMs - (t_last - t0), which is greater than 0. *)
Theorem max_calls_allowed_next_denied
    key maxRequests windowMs t0 ts t_last db :
  1 ≤ maxRequests →
  0 < windowMs →
  opens_window key windowMs t0 db →
  Z.of_nat (length (t0 :: ts)) = maxRequests →
  Forall (λ t, t - t0 < windowMs) (ts ++ [t_last]) →
  let first := checkRateLimit_calls key maxRequests windowMs (t0 :: ts) db in
  let denied := (checkRateLimit key maxRequests windowMs t_last first.2).1 in
  Z.of_nat (length first.1) = maxRequests
  ∧ Forall (λ r, allowed r = true) first.1
  ∧ allowed denied = false
  ∧ remaining denied = 0
  ∧ retryAfter denied = Some (windowMs - (t_last - t0))
  ∧ 0 < windowMs - (t_last - t0).
Proof.
  intros Hmax Hw Hopen Hlen Hin first denied. subst first denied.
  apply Forall_app in Hin as [Hts Hlast].
  rewrite Forall_singleton in Hlast.
  destruct (check_opening key maxRequests windowMs t0 db Hopen)
    as (lr0 & Hres0 & Hrow0).
  cbn [checkRateLimit_calls].
  destruct (checkRateLimit key maxRequests windowMs t0 db) as [r0 db1].
  simpl in Hres0, Hrow0.
  rewrite length_cons, Nat2Z.inj_succ in Hlen.
  destruct (calls_with_room key maxRequests windowMs ts db1 _ Hrow0)
    as (lr & Hall & Hlen' & Hfin); simpl.
  { eapply Forall_impl; [exact Hts|]. simpl. intros; lia. }
  { lia. }
  destruct (checkRateLimit_calls key maxRequests windowMs ts db1) as [rs db2].
  simpl in *.
  destruct (check_full key maxRequests windowMs t_last db2 _ Hfin)
    as [Hden _]; simpl; [lia..|].
  rewrite Hden. simpl. repeat split; try done; try lia.
  constructor; [by rewrite Hres0 | done].
Qed.

(** C1, witness: three calls allowed per minute, asked four times within
    the same minute. *)
Lemma max_calls_allowed_next_denied_witness :
  let first := checkRateLimit_calls "ip:203.0.113.7" 3 60000
                 [1000; 2000; 3000] empty_db in
  let denied := (checkRateLimit "ip:203.0.113.7" 3 60000 4000 first.2).1 in
  Z.of_nat (length first.1) = 3
  ∧ Forall (λ r, allowed r = true) first.1
  ∧ allowed denied = false
  ∧ remaining denied = 0
  ∧ retryAfter denied = Some (60000 - (4000 - 1000))
  ∧ 0 < 60000 - (4000 - 1000).
Proof.
  apply (max_calls_allowed_next_denied
           "ip:203.0.113.7" 3 60000 1000 [2000; 3000] 4000 empty_db).
  - lia.
  - lia.
  - exact I.
  - reflexivity.
  - repeat constructor.
Defined.

(** C2, as stated, fails at the boundary: one request per hour, one request
    counted at time 0, and a call exactly one hour later.  The elapsed time
    equals [windowMs], yet the call is denied (with retryAfter = 0) and the
    record keeps its count and its window start. *)
Lemma boundary_call_is_not_a_reset :
  let db := Scenarios.one_request "email:rosa@example.org" in
  let now := 3600000 in
  let call := checkRateLimit "email:rosa@example.org" 1 3600000 now db in
  rate_limits db !! "email:rosa@example.org" = Some (mkRateLimitRow 1 0 0)
  ∧ now - 0 >= 3600000
  ∧ call.1 = mkResult false 0 (Some 0)
  ∧ rate_limits call.2 !! "email:rosa@example.org"
    = Some (mkRateLimitRow 1 0 0).
Proof. vm_compute. repeat split; congruence. Qed.

(** C2, amended.  For every key with an existing record, if at the time of
    the call the elapsed time [now - windowStart] is strictly greater than
    [windowMs], the call resets the record (count becomes 1, windowStart
    becomes now, whatever the previous count was) and returns
    allowed = true. *)
Theorem expired_window_is_reset key maxRequests windowMs now db row :
  rate_limits db !! key = Some row →
  windowMs < now - window_start row →
  let call := checkRateLimit key maxRequests windowMs now db in
  allowed call.1 = true
  ∧ ∃ row', rate_limits call.2 !! key = Some row'
            ∧ count row' = 1 ∧ window_start row' = now.
Proof.
  intros Hrow Hold call. subst call.
  destruct (check_expired key maxRequests windowMs now db row Hrow)
    as [Hres Hnew]; [lia|].
  rewrite Hres, Hnew. split; [done|]. by eexists.
Qed.

Lemma expired_window_is_reset_witness :
  let call := checkRateLimit "email:rosa@example.org" 1 3600000 3600001
                (Scenarios.one_request "email:rosa@example.org") in
  allowed call.1 = true
  ∧ ∃ row', rate_limits call.2 !! "email:rosa@example.org" = Some row'
            ∧ count row' = 1 ∧ window_start row' = 3600001.
Proof.
  apply (expired_window_is_reset "email:rosa@example.org" 1 3600000 3600001
           (Scenarios.one_request "email:rosa@example.org")
           (mkRateLimitRow 1 0 0)).
  - reflexivity.
  - simpl. lia.
Defined.

(** At the boundary itself the window is still running: the window start is
    kept, and a full window denies with retryAfter = 0. *)
Lemma boundary_call_stays_in_window key maxRequests windowMs now db row :
  rate_limits db !! key = Some row →
  now - window_start row = windowMs →
  let call := checkRateLimit key maxRequests windowMs now db in
  (∃ row', rate_limits call.2 !! key = Some row'
           ∧ window_start row' = window_start row)
  ∧ (maxRequests ≤ count row → call.1 = mkResult false 0 (Some 0)).
Proof.
  intros Hrow Heq call. subst call. split.
  - destruct (Z.le_gt_cases maxRequests (count row)) as [Hfull|Hroom].
    + destruct (check_full key maxRequests windowMs now db row Hrow)
        as [_ Hsame]; [lia..|].
      rewrite Hsame. by eexists.
    + destruct (check_room key maxRequests windowMs now db row Hrow)
        as [_ Hnew]; [lia..|].
      rewrite Hnew. by eexists.
  - intros Hfull.
    destruct (check_full key maxRequests windowMs now db row Hrow)
      as [Hres _]; [lia..|].
    rewrite Hres. do 2 f_equal. lia.
Qed.

(** *** The statements behind one call *)

Lemma checkRateLimit_split key maxRequests windowMs now db :
  checkRateLimit key maxRequests windowMs now db
  = let '(existing, db) :=
      getRateLimit key
        (record (Call_checkRateLimit key maxRequests windowMs) db) in
    checkRateLimit_after_read key maxRequests windowMs now existing db.
Proof. reflexivity. Qed.

(** What one call appends to the journal: its own mark, the read, and at
    most one write. *)
Lemma checkRateLimit_journal key maxRequests windowMs now db :
  ∃ writes,
    journal (checkRateLimit key maxRequests windowMs now db).2
    = journal db
      ++ Call_checkRateLimit key maxRequests windowMs
         :: Stmt_getRateLimit key :: writes
    ∧ (writes = [] ∨ writes = [Stmt_upsertRateLimit key]
       ∨ writes = [Stmt_resetRateLimit key]).
Proof.
  unfold checkRateLimit, getRateLimit, upsertRateLimit, resetRateLimit.
  simpl. destruct (rate_limits db !! key) as [row|]; simpl.
  - destruct (window_start row <? now - windowMs); simpl.
    + exists [Stmt_resetRateLimit key]. rewrite <- !app_assoc. auto.
    + destruct (count row >=? maxRequests); simpl.
      * exists []. rewrite <- !app_assoc. auto.
      * exists [Stmt_upsertRateLimit key]. rewrite <- !app_assoc. auto.
  - exists [Stmt_upsertRateLimit key]. rewrite <- !app_assoc. auto.
Qed.

Lemma checkRateLimit_room_journal key maxRequests windowMs now db row :
  rate_limits db !! key = Some row →
  now - windowMs ≤ window_start row →
  count row < maxRequests →
  journal (checkRateLimit key maxRequests windowMs now db).2
  = journal db ++ [Call_checkRateLimit key maxRequests windowMs;
                   Stmt_getRateLimit key; Stmt_upsertRateLimit key].
Proof.
  intros Hrow Hin Hroom. unfold checkRateLimit, getRateLimit, upsertRateLimit.
  simpl. rewrite Hrow. simpl.
  destruct (Z.ltb_spec (window_start row) (now - windowMs)); [lia|].
  destruct (Z.geb_spec (count row) maxRequests); [lia|].
  simpl. by rewrite <- !app_assoc.
Qed.

(** C9, as stated, fails: the gate is not a single upsert.  A call that
    finds room runs two prepared statements, the SELECT and then the
    upsert; a call on an expired window runs the SELECT and then the UPDATE
    that resets it; a call on a full window runs the SELECT alone. *)
Lemma check_then_update_is_two_statements :
  let db := Scenarios.one_request "ip:203.0.113.7" in
  journal (checkRateLimit "ip:203.0.113.7" 3 60000 5000 db).2
  = [Call_checkRateLimit "ip:203.0.113.7" 3 60000;
     Stmt_getRateLimit "ip:203.0.113.7";
     Stmt_upsertRateLimit "ip:203.0.113.7"]
  ∧ journal (checkRateLimit "ip:203.0.113.7" 3 60000 70000 db).2
    = [Call_checkRateLimit "ip:203.0.113.7" 3 60000;
       Stmt_getRateLimit "ip:203.0.113.7";
       Stmt_resetRateLimit "ip:203.0.113.7"]
  ∧ journal (checkRateLimit "ip:203.0.113.7" 1 60000 5000 db).2
    = [Call_checkRateLimit "ip:203.0.113.7" 1 60000;
       Stmt_getRateLimit "ip:203.0.113.7"].
Proof. vm_compute. repeat split; congruence. Qed.

(** What a call that allows the request leaves behind, whatever record it
    found: the row, and the statements it ran. *)
Lemma allowed_call_is_counted key maxRequests windowMs now db :
  allowed (checkRateLimit key maxRequests windowMs now db).1 = true →
  ∃ row' write,
    rate_limits (checkRateLimit key maxRequests windowMs now db).2 !! key
    = Some row'
    ∧ journal (checkRateLimit key maxRequests windowMs now db).2
      = journal db
        ++ [Call_checkRateLimit key maxRequests windowMs;
            Stmt_getRateLimit key; write]
    ∧ (write = Stmt_upsertRateLimit key ∨ write = Stmt_resetRateLimit key)
    ∧ match rate_limits db !! key with
      | None => count row' = 1 ∧ window_start row' = now
      | Some row =>
          if window_start row <? now - windowMs
          then count row' = 1 ∧ window_start row' = now
          else count row' = count row + 1
               ∧ window_start row' = window_start row
      end.
Proof.
  unfold checkRateLimit, getRateLimit, upsertRateLimit, resetRateLimit.
  simpl. destruct (rate_limits db !! key) as [row|] eqn:Hrow; simpl.
  - destruct (window_start row <? now - windowMs) eqn:Hold; simpl.
    + intros _. rewrite ?Hrow. simpl. rewrite lookup_insert_eq.
      eexists _, _. split; [reflexivity|].
      split; [by rewrite <- !app_assoc|]. split; [by right|]. done.
    + destruct (count row >=? maxRequests); simpl; [done|].
      intros _. rewrite ?Hrow. simpl. rewrite lookup_insert_eq.
      eexists _, _. split; [reflexivity|].
      split; [by rewrite <- !app_assoc|]. split; [by left|]. done.
  - intros _. rewrite ?Hrow. simpl. rewrite lookup_insert_eq.
    eexists _, _. split; [reflexivity|].
    split; [by rewrite <- !app_assoc|]. split; [by left|]. done.
Qed.

(** C9, amended.  The check-then-update sequence of the rate-limit gate is
    a read ([getRateLimit]) followed, when the call allows the request, by
    one separate write statement ([upsertRateLimit] or [resetRateLimit]);
    it is not a single upsert.  Run one after the other, as the synchronous
    function is within the server process, two calls sharing a key that are
    both allowed are both counted, whatever record the first one finds:
    the first leaves a count of 1 in a window of its own (no record, or an
    expired one) or one more than it found; the second reads the row the
    first wrote and leaves one more than that in the same window, or a
    count of 1 in a new window when the first call's window is over by
    then.  The journal shows the read of the second call after the write
    of the first. *)
Theorem serial_calls_are_both_counted
    key maxRequests windowMs now1 now2 db :
  let call1 := checkRateLimit key maxRequests windowMs now1 db in
  let call2 := checkRateLimit key maxRequests windowMs now2 call1.2 in
  allowed call1.1 = true →
  allowed call2.1 = true →
  ∃ row1 row2 write1 write2,
    rate_limits call1.2 !! key = Some row1
    ∧ rate_limits call2.2 !! key = Some row2
    ∧ match rate_limits db !! key with
      | None => count row1 = 1 ∧ window_start row1 = now1
      | Some row =>
          if window_start row <? now1 - windowMs
          then count row1 = 1 ∧ window_start row1 = now1
          else count row1 = count row + 1
               ∧ window_start row1 = window_start row
      end
    ∧ (if window_start row1 <? now2 - windowMs
       then count row2 = 1 ∧ window_start row2 = now2
       else count row2 = count row1 + 1
            ∧ window_start row2 = window_start row1)
    ∧ journal call2.2
      = journal db
        ++ [Call_checkRateLimit key maxRequests windowMs;
            Stmt_getRateLimit key; write1;
            Call_checkRateLimit key maxRequests windowMs;
            Stmt_getRateLimit key; write2]
    ∧ (write1 = Stmt_upsertRateLimit key ∨ write1 = Stmt_resetRateLimit key)
    ∧ (write2 = Stmt_upsertRateLimit key ∨ write2 = Stmt_resetRateLimit key).
Proof.
  intros call1 call2 H1 H2. subst call1 call2.
  destruct (allowed_call_is_counted key maxRequests windowMs now1 db H1)
    as (row1 & write1 & Hrow1 & Hj1 & Hw1 & Hc1).
  destruct (allowed_call_is_counted key maxRequests windowMs now2 _ H2)
    as (row2 & write2 & Hrow2 & Hj2 & Hw2 & Hc2).
  rewrite Hrow1 in Hc2. exists row1, row2, write1, write2.
  split; [done|]. split; [done|]. split; [done|]. split; [done|].
  split; [|done]. rewrite Hj2, Hj1. by rewrite <- app_assoc.
Qed.

Lemma serial_calls_are_both_counted_witness :
  let db := Scenarios.one_request "ip:203.0.113.7" in
  let call1 := checkRateLimit "ip:203.0.113.7" 3 60000 70000 db in
  let call2 := checkRateLimit "ip:203.0.113.7" 3 60000 70001 call1.2 in
  rate_limits db !! "ip:203.0.113.7" = Some (mkRateLimitRow 1 0 0)
  ∧ ∃ row1 row2,
      rate_limits call1.2 !! "ip:203.0.113.7" = Some row1
      ∧ rate_limits call2.2 !! "ip:203.0.113.7" = Some row2
      ∧ count row1 = 1 ∧ window_start row1 = 70000
      ∧ count row2 = 2 ∧ window_start row2 = 70000.
Proof.
  split; [reflexivity|].
  destruct (serial_calls_are_both_counted "ip:203.0.113.7" 3 60000 70000
              70001 (Scenarios.one_request "ip:203.0.113.7"))
    as (row1 & row2 & write1 & write2 & Hrow1 & Hrow2 & Hc1 & Hc2 & _).
  - reflexivity.
  - reflexivity.
  - exists row1, row2. split; [done|]. split; [done|].
    change (rate_limits (Scenarios.one_request "ip:203.0.113.7")
              !! "ip:203.0.113.7")
      with (Some (mkRateLimitRow 1 0 0)) in Hc1.
    change (window_start (mkRateLimitRow 1 0 0) <? 70000 - 60000)
      with true in Hc1.
    cbv iota in Hc1. destruct Hc1 as [Hc1 Hw1].
    rewrite Hw1 in Hc2.
    change (70000 <? 70001 - 60000) with false in Hc2. cbv iota in Hc2.
    destruct Hc2 as [Hc2 Hw2]. rewrite Hc1 in Hc2. by repeat split.
Defined.
End RateLimitFacts.

(** ** The block gate *)

Module BlockFacts.
Import DatabaseManager.

Lemma blockIP_row ip minutes why now db :
  ip_blocks (blockIP ip minutes why now db).2 !! ip
  = Some (mkIPBlockRow (to_seconds now) (now + minutes * 60 * 1000) why
            (match ip_blocks db !! ip with
             | None => 1
             | Some old => attempts old + 1
             end)).
Proof.
  unfold blockIP, insertIPBlock. simpl. rewrite lookup_insert_eq.
  by destruct (ip_blocks db !! ip).
Qed.

Lemma blockIP_other ip ip' minutes why now db :
  ip ≠ ip' →
  ip_blocks (blockIP ip minutes why now db).2 !! ip' = ip_blocks db !! ip'.
Proof.
  intros Hne. unfold blockIP, insertIPBlock. simpl.
  by rewrite lookup_insert_ne.
Qed.

Lemma isIPBlocked_active ip now db row :
  ip_blocks db !! ip = Some row →
  now ≤ blocked_until row →
  (isIPBlocked ip now db).1
    = mkBlockStatus true (Some (blocked_until row)) (Some (reason row))
                    (Some (attempts row))
  ∧ ip_blocks (isIPBlocked ip now db).2 = ip_blocks db.
Proof.
  intros Hrow Hact. unfold isIPBlocked, getIPBlock. simpl. rewrite Hrow.
  by destruct (Z.ltb_spec (blocked_until row) now); [lia|].
Qed.

Lemma isIPBlocked_expired ip now db row :
  ip_blocks db !! ip = Some row →
  blocked_until row < now →
  (isIPBlocked ip now db).1 = mkBlockStatus false None None None
  ∧ ip_blocks (isIPBlocked ip now db).2 = delete ip (ip_blocks db).
Proof.
  intros Hrow Hexp. unfold isIPBlocked, getIPBlock, deleteIPBlock. simpl.
  rewrite Hrow.
  by destruct (Z.ltb_spec (blocked_until row) now); [|lia].
Qed.

Lemma isIPBlocked_unknown ip now db :
  ip_blocks db !! ip = None →
  (isIPBlocked ip now db).1 = mkBlockStatus false None None None
  ∧ ip_blocks (isIPBlocked ip now db).2 = ip_blocks db.
Proof.
  intros Hno. unfold isIPBlocked, getIPBlock. simpl. by rewrite Hno.
Qed.

(** C3.  After [blockIP(ip, m)] with [m > 0] at time [now] the stored
    [blocked_until] is [now + m] minutes; [isIPBlocked(ip)] at the same
    reading, and at any reading up to [blocked_until], returns
    blocked = true.  At any reading past [blocked_until] it returns
    blocked = false and deletes the record, and a second [isIPBlocked(ip)],
    whenever it comes, returns blocked = false again and finds no record. *)
Theorem block_then_lazy_expiry ip minutes why now db :
  0 < minutes →
  let db1 := (blockIP ip minutes why now db).2 in
  let until := now + minutes * 60 * 1000 in
  blocked_until <$> ip_blocks db1 !! ip = Some until
  ∧ blocked (isIPBlocked ip now db1).1 = true
  ∧ (∀ t, t ≤ until → blocked (isIPBlocked ip t db1).1 = true)
  ∧ ∀ later, until < later →
      let first := isIPBlocked ip later db1 in
      blocked first.1 = false
      ∧ ip_blocks first.2 !! ip = None
      ∧ ∀ t, let second := isIPBlocked ip t first.2 in
             blocked second.1 = false ∧ ip_blocks second.2 !! ip = None.
Proof.
  intros Hpos db1 until. subst db1 until.
  pose proof (blockIP_row ip minutes why now db) as Hrow.
  set (db1 := (blockIP ip minutes why now db).2) in *.
  assert (Hactive : ∀ t, t ≤ now + minutes * 60 * 1000 →
                         blocked (isIPBlocked ip t db1).1 = true).
  { intros t Ht.
    destruct (isIPBlocked_active ip t db1 _ Hrow) as [Hres _]; [done|].
    by rewrite Hres. }
  split; [by rewrite Hrow|]. split; [apply Hactive; lia|].
  split; [exact Hactive|].
  intros later Hlater first. subst first.
  destruct (isIPBlocked_expired ip later db1 _ Hrow) as [Hres Hdel]; [done|].
  assert (Hgone : ip_blocks (isIPBlocked ip later db1).2 !! ip = None)
    by (rewrite Hdel; apply lookup_delete_eq).
  rewrite Hres. split; [done|]. split; [done|].
  intros t second. subst second.
  destruct (isIPBlocked_unknown ip t _ Hgone) as [Hres2 Hsame].
  rewrite Hres2, Hsame. by split.
Qed.

Lemma block_then_lazy_expiry_witness :
  let db1 := (blockIP "198.51.100.23" 30 default_reason 1000 empty_db).2 in
  let until := 1000 + 30 * 60 * 1000 in
  blocked_until <$> ip_blocks db1 !! "198.51.100.23" = Some until
  ∧ blocked (isIPBlocked "198.51.100.23" 1000 db1).1 = true
  ∧ (∀ t, t ≤ until →
          blocked (isIPBlocked "198.51.100.23" t db1).1 = true)
  ∧ ∀ later, until < later →
      let first := isIPBlocked "198.51.100.23" later db1 in
      blocked first.1 = false
      ∧ ip_blocks first.2 !! "198.51.100.23" = None
      ∧ ∀ t, let second := isIPBlocked "198.51.100.23" t first.2 in
             blocked second.1 = false
             ∧ ip_blocks second.2 !! "198.51.100.23" = None.
Proof.
  apply (block_then_lazy_expiry "198.51.100.23" 30 default_reason 1000
           empty_db).
  lia.
Defined.

(** [unblockIP] on an address without a record changes nothing and reports
    false; on a recorded address it removes the record. *)
Lemma unblockIP_spec ip db :
  (unblockIP ip db).1 = bool_decide (is_Some (ip_blocks db !! ip))
  ∧ ip_blocks (unblockIP ip db).2 = delete ip (ip_blocks db).
Proof.
  unfold unblockIP, deleteIPBlock. simpl.
  by destruct (ip_blocks db !! ip) eqn:E; simpl; split.
Qed.

End BlockFacts.

(** ** Registrations *)

Module RegistrationFacts.
Import DatabaseManager.

Lemma existsb_has_email e rows :
  (∃ row, row ∈ rows ∧ email_capitano row = e) →
  existsb (has_email e) rows = true.
Proof.
  intros (row & Hin & Heq). apply existsb_exists. exists row.
  split; [by apply list_elem_of_In|].
  unfold has_email. by apply bool_decide_eq_true.
Qed.

Lemma createIscrizione_duplicate uuid data db :
  email_registered (emailCapitano data) db →
  createIscrizione uuid data db
  = (Returned (mkCreateResult false None None (Some email_taken)),
     record (Stmt_insertIscrizione uuid) db).
Proof.
  intros Hdup. unfold createIscrizione, insertIscrizione. simpl.
  by rewrite (existsb_has_email _ _ Hdup).
Qed.

End RegistrationFacts.

(** ** Abuse escalation and the registration handler *)

Module ServerFacts.
Import DatabaseManager Server.

(** C4.  Every call of [incrementSuspiciousAttempts(ip)] adds one to the
    volatile counter of [ip] and leaves the new value in [ipAttempts],
    whether or not a block follows.  The call returns true exactly when the
    incremented counter is at least MAX_SUSPICIOUS_ATTEMPTS (5).  When it
    returns true the durable record of [ip] holds a block of 30 minutes from
    now, with attempts = 1 for a new record and the old attempts plus one for
    an address already recorded; when it returns false the database is
    untouched. *)
Theorem escalation_blocks_from_fifth_attempt ip now st :
  let counted :=
    attempt_count (default (mkAttempts 0 0) (ipAttempts st !! ip)) + 1 in
  let call := incrementSuspiciousAttempts ip now st in
  ipAttempts call.2 !! ip = Some (mkAttempts counted now)
  ∧ (call.1 = true ↔ MAX_SUSPICIOUS_ATTEMPTS ≤ counted)
  ∧ (call.1 = true →
       ip_blocks (db call.2) !! ip
       = Some (mkIPBlockRow (to_seconds now)
                 (now + IP_BLOCK_DURATION_MINUTES * 60 * 1000) default_reason
                 (match ip_blocks (db st) !! ip with
                  | None => 1
                  | Some old => attempts old + 1
                  end)))
  ∧ (call.1 = false → db call.2 = db st).
Proof.
  intros counted call. subst counted call.
  unfold incrementSuspiciousAttempts. simpl.
  destruct (Z.geb_spec
              (attempt_count (default (mkAttempts 0 0) (ipAttempts st !! ip))
               + 1) MAX_SUSPICIOUS_ATTEMPTS) as [Hge|Hlt]; simpl.
  - split; [by rewrite lookup_insert_eq|].
    split; [split; [intros _; lia | done]|].
    split; [|done].
    intros _. unfold blockIP, DatabaseManager.blockIP, insertIPBlock. simpl.
    rewrite lookup_insert_eq. by destruct (ip_blocks (db st) !! ip).
  - split; [by rewrite lookup_insert_eq|].
    split; [split; [done | intros; lia]|].
    split; done.
Qed.

(** The constants of the escalation policy. *)
Lemma escalation_policy :
  MAX_SUSPICIOUS_ATTEMPTS = 5
  ∧ IP_BLOCK_DURATION_MINUTES * 60 * 1000 = 1800000.
Proof. by split. Qed.

(** A run of failed attempts from one address: the first four return false,
    the fifth and the sixth return true, the counter ends at 6 and the
    durable record has been re-blocked once. *)
Example six_failed_attempts :
  let go now acc := let '(bs, st) := acc in
                    let '(b, st) :=
                      incrementSuspiciousAttempts "198.51.100.23" now st in
                    (bs ++ [b], st) in
  let '(bs, st) := fold_right go ([], Scenarios.fresh_server)
                     [6000; 5000; 4000; 3000; 2000; 1000] in
  bs = [false; false; false; false; true; true]
  ∧ attempt_count <$> ipAttempts st !! "198.51.100.23" = Some 6
  ∧ attempts <$> ip_blocks (db st) !! "198.51.100.23" = Some 2
  ∧ blocked_until <$> ip_blocks (db st) !! "198.51.100.23"
    = Some (6000 + 1800000).
Proof. vm_compute. repeat split; congruence. Qed.

(** Five requests with a wrong admin key: the fifth is answered 429 and from
    then on the block middleware turns the address away, until the block has
    run out. *)
Example five_wrong_keys_block_the_address :
  let '(codes, st) :=
    Scenarios.wrong_key_attempts [1000; 2000; 3000; 4000; 5000]
      Scenarios.fresh_server in
  let sixth := ipBlockMiddleware Scenarios.submission 6000 st in
  let later := ipBlockMiddleware Scenarios.submission (5000 + 1800001) st in
  codes = [401; 401; 401; 401; 429]
  ∧ sixth.1
    = respond (mkResponse 429 false
                 "Accesso temporaneamente sospeso. Riprova più tardi." None)
  ∧ later.1 = next
  ∧ ip_blocks (db later.2) !! "203.0.113.7" = None.
Proof. vm_compute. repeat split; congruence. Qed.

(** *** Journal bookkeeping *)

Lemma gate_calls_app j1 j2 :
  gate_calls (j1 ++ j2) = gate_calls j1 ++ gate_calls j2.
Proof. unfold gate_calls. apply flat_map_app. Qed.

Lemma gate_calls_checkRateLimit key maxRequests windowMs now d :
  gate_calls (journal (checkRateLimit key maxRequests windowMs now d).2)
  = gate_calls (journal d) ++ [(key, maxRequests, windowMs)].
Proof.
  destruct (RateLimitFacts.checkRateLimit_journal key maxRequests windowMs
              now d) as (writes & Hj & Hw).
  rewrite Hj, gate_calls_app. f_equal.
  by destruct Hw as [-> | [-> | ->]].
Qed.

Lemma iscrizioni_checkRateLimit key maxRequests windowMs now d :
  iscrizioni (checkRateLimit key maxRequests windowMs now d).2 = iscrizioni d.
Proof.
  unfold checkRateLimit, getRateLimit, upsertRateLimit, resetRateLimit.
  simpl. destruct (rate_limits d !! key) as [row|]; simpl; [|done].
  destruct (window_start row <? now - windowMs); simpl; [done|].
  by destruct (count row >=? maxRequests).
Qed.

Lemma gate_calls_createIscrizione uuid data d :
  gate_calls (journal (createIscrizione uuid data d).2)
  = gate_calls (journal d).
Proof.
  unfold createIscrizione, insertIscrizione, getIscrizioneById. simpl.
  destruct (existsb _ _); simpl.
  { rewrite gate_calls_app. simpl. by rewrite app_nil_r. }
  destruct (existsb _ _); simpl.
  { rewrite gate_calls_app. simpl. by rewrite app_nil_r. }
  rewrite !gate_calls_app. simpl. by rewrite !app_nil_r.
Qed.

Section Registration.

Variable sanitizeInput : string → string.
Variable normalizeEmail : string → string.
Variable parseInt : string → option Z.

Lemma checkHoneypot_untouched req st :
  honeypot_untouched req → checkHoneypot req st = (true, st).
Proof.
  unfold honeypot_untouched, checkHoneypot. by intros [-> | ->].
Qed.

(** A submission stopped by the honeypot or by validation never reaches the
    gate. *)
Lemma rejected_before_the_gate uuid req now st :
  ¬ honeypot_untouched req ∨ validation_errors req ≠ [] →
  let out :=
    post_iscrizione sanitizeInput normalizeEmail parseInt uuid req now st in
  status out.1 = 400
  ∧ gate_calls (journal (db out.2)) = gate_calls (journal (db st))
  ∧ iscrizioni (db out.2) = iscrizioni (db st).
Proof.
  assert (Htrack : ∀ paths d,
            gate_calls (journal (track_errors paths d)) = gate_calls (journal d)
            ∧ iscrizioni (track_errors paths d) = iscrizioni d).
  { induction paths as [|p paths IH]; intros d; [done|].
    change (track_errors (p :: paths) d)
      with (track_errors paths
              (trackForm "error"
                 (Some (if decide (p = "") then "unknown" else p)) d).2).
    destruct (IH (trackForm "error"
      (Some (if decide (p = "") then "unknown" else p)) d).2) as [H1 H2].
    rewrite H1, H2. unfold trackForm. simpl. rewrite gate_calls_app. simpl.
    by rewrite app_nil_r. }
  intros Hrej out. subst out. unfold post_iscrizione, checkHoneypot.
  destruct (Htrack (validation_errors req) (db st)) as [H1 H2].
  destruct (body_website req) as [v|] eqn:Hv.
  - destruct v as [|c v]; simpl.
    + destruct Hrej as [Hh | Hval].
      { exfalso. apply Hh. by right. }
      remember (track_errors (validation_errors req) (db st)) as tracked.
      destruct (validation_errors req) as [|e es] eqn:He; [done|].
      simpl. by rewrite H1, H2.
    + rewrite gate_calls_app. simpl. by rewrite app_nil_r.
  - simpl. destruct Hrej as [Hh | Hval].
    { exfalso. apply Hh. by left. }
    remember (track_errors (validation_errors req) (db st)) as tracked.
    destruct (validation_errors req) as [|e es] eqn:He; [done|].
    simpl. by rewrite H1, H2.
Qed.

(** C5, amended.  For every registration submission that passes the
    honeypot and the validation, the handler calls the rate-limit gate first
    with key email:<submitter email> and limit 1 per 3600000 ms and, only
    when that call returns allowed = true, a second time with key
    ip:<caller ip> and limit 3 per 3600000 ms: twice when the email call
    allows, once when it denies.  If either call returns allowed = false the
    request is answered with status 429 and no registration is created; the
    [iscrizioni] table changes only if both calls returned allowed = true. *)
Theorem registration_passes_both_gates uuid req now st :
  honeypot_untouched req →
  validation_errors req = [] →
  let email_call := checkRateLimit (email_key req) 1 3600000 now (db st) in
  let ip_call := checkRateLimit (ip_key req) 3 3600000 now email_call.2 in
  let out :=
    post_iscrizione sanitizeInput normalizeEmail parseInt uuid req now st in
  gate_calls (journal (db out.2))
  = gate_calls (journal (db st))
    ++ (email_key req, 1, 3600000)
       :: (if allowed email_call.1 then [(ip_key req, 3, 3600000)] else [])
  ∧ (allowed email_call.1 = false →
       status out.1 = 429 ∧ iscrizioni (db out.2) = iscrizioni (db st))
  ∧ (allowed email_call.1 = true → allowed ip_call.1 = false →
       status out.1 = 429 ∧ iscrizioni (db out.2) = iscrizioni (db st))
  ∧ (iscrizioni (db out.2) ≠ iscrizioni (db st) →
       allowed email_call.1 = true ∧ allowed ip_call.1 = true).
Proof.
  intros Hhoney Hvalid email_call ip_call out.
  subst out email_call ip_call. unfold post_iscrizione.
  rewrite (checkHoneypot_untouched req st Hhoney), Hvalid.
  change HOUR with 3600000. cbn [negb].
  pose proof (gate_calls_checkRateLimit (email_key req) 1 3600000 now (db st))
    as Hj1.
  pose proof (iscrizioni_checkRateLimit (email_key req) 1 3600000 now (db st))
    as Hi1.
  destruct (checkRateLimit (email_key req) 1 3600000 now (db st)) as [r1 d1].
  cbn [fst snd] in *.
  destruct (allowed r1) eqn:Ha1; cbn [negb fst snd db with_db status].
  2:{ rewrite Hj1, Hi1. repeat split; try done. }
  pose proof (gate_calls_checkRateLimit (ip_key req) 3 3600000 now d1) as Hj2.
  pose proof (iscrizioni_checkRateLimit (ip_key req) 3 3600000 now d1) as Hi2.
  destruct (checkRateLimit (ip_key req) 3 3600000 now d1) as [r2 d2].
  cbn [fst snd] in *.
  destruct (allowed r2) eqn:Ha2; cbn [negb fst snd db with_db status].
  2:{ rewrite Hj2, Hj1, Hi2, Hi1, <- app_assoc. repeat split; try done. }
  pose proof (gate_calls_createIscrizione uuid
                (registration_of sanitizeInput normalizeEmail parseInt req) d2)
    as Hj3.
  destruct (createIscrizione uuid _ d2) as [[result|e] d3];
    cbn [fst snd db with_db status] in *.
  - destruct (success result); cbn [negb fst snd db with_db status].
    + unfold logAdminAction. cbn [journal record set_admin_logs].
      rewrite gate_calls_app. cbn [gate_calls flat_map].
      rewrite app_nil_r, Hj3, Hj2, Hj1, <- app_assoc.
      repeat split; try done.
    + rewrite Hj3, Hj2, Hj1, <- app_assoc. repeat split; try done.
  - rewrite Hj3, Hj2, Hj1, <- app_assoc. repeat split; try done.
Qed.

(** The duplicate email at the level of the handler: whatever the time and
    the state of the rate limiter, the submission creates nothing, and once
    both gates let it through (say, after the hour has passed) it is answered
    with status 400 and 'Email già registrata'. *)
Lemma duplicate_email_outlasts_the_window uuid req now st :
  honeypot_untouched req →
  validation_errors req = [] →
  email_registered (normalizeEmail (body_emailCapitano req)) (db st) →
  let email_call := checkRateLimit (email_key req) 1 3600000 now (db st) in
  let ip_call := checkRateLimit (ip_key req) 3 3600000 now email_call.2 in
  let out :=
    post_iscrizione sanitizeInput normalizeEmail parseInt uuid req now st in
  iscrizioni (db out.2) = iscrizioni (db st)
  ∧ status out.1 ≠ 200
  ∧ (allowed email_call.1 = true → allowed ip_call.1 = true →
       out.1 = mkResponse 400 false email_taken None).
Proof.
  intros Hhoney Hvalid Hdup email_call ip_call out.
  subst out email_call ip_call. unfold post_iscrizione.
  rewrite (checkHoneypot_untouched req st Hhoney), Hvalid.
  change HOUR with 3600000. cbn [negb].
  pose proof (iscrizioni_checkRateLimit (email_key req) 1 3600000 now (db st))
    as Hi1.
  destruct (checkRateLimit (email_key req) 1 3600000 now (db st)) as [r1 d1].
  cbn [fst snd] in *.
  destruct (allowed r1) eqn:Ha1; cbn [negb fst snd db with_db status].
  2:{ by rewrite Hi1. }
  pose proof (iscrizioni_checkRateLimit (ip_key req) 3 3600000 now d1) as Hi2.
  destruct (checkRateLimit (ip_key req) 3 3600000 now d1) as [r2 d2].
  cbn [fst snd] in *.
  destruct (allowed r2) eqn:Ha2; cbn [negb fst snd db with_db status].
  2:{ by rewrite Hi2, Hi1. }
  rewrite (RegistrationFacts.createIscrizione_duplicate uuid
             (registration_of sanitizeInput normalizeEmail parseInt req) d2).
  - cbn [success negb fst snd db with_db status]. simpl.
    by rewrite Hi2, Hi1.
  - unfold email_registered in *. by rewrite Hi2, Hi1.
Qed.

End Registration.

(** C5, witness: a first, well-formed submission on a fresh server. *)
Lemma registration_passes_both_gates_witness :
  let req := Scenarios.submission in
  let st := Scenarios.fresh_server in
  let email_call := checkRateLimit (email_key req) 1 3600000 0 (db st) in
  let ip_call := checkRateLimit (ip_key req) 3 3600000 0 email_call.2 in
  let out := post_iscrizione Scenarios.keep Scenarios.keep Scenarios.eleven
               "id-0001" req 0 st in
  gate_calls (journal (db out.2))
  = gate_calls (journal (db st))
    ++ (email_key req, 1, 3600000)
       :: (if allowed email_call.1 then [(ip_key req, 3, 3600000)] else [])
  ∧ (allowed email_call.1 = false →
       status out.1 = 429 ∧ iscrizioni (db out.2) = iscrizioni (db st))
  ∧ (allowed email_call.1 = true → allowed ip_call.1 = false →
       status out.1 = 429 ∧ iscrizioni (db out.2) = iscrizioni (db st))
  ∧ (iscrizioni (db out.2) ≠ iscrizioni (db st) →
       allowed email_call.1 = true ∧ allowed ip_call.1 = true).
Proof.
  apply (registration_passes_both_gates Scenarios.keep Scenarios.keep
           Scenarios.eleven "id-0001" Scenarios.submission 0
           Scenarios.fresh_server).
  - left. reflexivity.
  - reflexivity.
Defined.

(** C5, as stated, fails: the same captain submits twice within the hour.
    The second submission is turned away by the email call, and the handler
    returns at once: the gate has been called once for it, not twice. *)
Lemma second_submission_calls_gate_once :
  let post := post_iscrizione Scenarios.keep Scenarios.keep Scenarios.eleven in
  let first := post "id-0001" Scenarios.submission 0 Scenarios.fresh_server in
  let second := post "id-0002" Scenarios.submission 1000 first.2 in
  status first.1 = 200
  ∧ status second.1 = 429
  ∧ drop (length (gate_calls (journal (db first.2))))
         (gate_calls (journal (db second.2)))
    = [("email:mario.rossi@example.org", 1, 3600000)]
  ∧ length (iscrizioni (db second.2)) = 1%nat.
Proof. vm_compute. repeat split; congruence. Qed.

End ServerFacts.

(** ** The client event queue *)

Module AnalyticsFacts.
Import FoggianoAnalytics.


(** Replaces a page by its fields. *)
Ltac open_page p :=
  let a := fresh "a" in
  destruct p as [a ?c ?ts ?pe ?nw ?b ?cl];
  destruct a as [?cfg ?sid ?ss ?eq ?on ?rq ?sm ?cs ?fs];
  cbn [self config sessionId sessionStart eventQueue isOnline retryQueue
       scrollMilestones clickedSections funnelSteps clock timeouts pending
       network beacon_api cls] in *.

Lemma run_app i1 i2 p : run (i1 ++ i2) p = run i2 (run i1 p).
Proof. unfold run. apply fold_left_app. Qed.

Lemma run_cons i inputs p : run (i :: inputs) p = run inputs (step i p).
Proof. reflexivity. Qed.

(** One failure of [sendEvent], anywhere. *)
Lemma failure_schedules_retry event p :
  attempts event < retryAttempts (config (self p)) →
  let event' := mkEvent (endpoint event) (data event) (attempts event + 1)
                        (createdAt event) in
  let p' := sendEvent_settled false event p in
  retryQueue (self p') = retryQueue (self p) ++ [event']
  ∧ timeouts p'
    = timeouts p
      ++ [clock p
          + Z.max 0 (retryDelay (config (self p)) * (attempts event + 1))]
  ∧ eventQueue (self p') = eventQueue (self p)
  ∧ pending p' = pending p
  ∧ network p' = network p.
Proof.
  intros Hlt. unfold sendEvent_settled.
  destruct (Z.ltb_spec (attempts event) (retryAttempts (config (self p))));
    [|lia].
  by simpl.
Qed.

Lemma failure_drops_event event p :
  retryAttempts (config (self p)) ≤ attempts event →
  sendEvent_settled false event p = p.
Proof.
  intros Hge. unfold sendEvent_settled.
  by destruct (Z.ltb_spec (attempts event) (retryAttempts (config (self p))));
    [lia|].
Qed.

Lemma timeout_not_due j due p :
  timeouts p !! j = Some due → clock p < due → step (Timeout j) p = p.
Proof.
  intros Hj Hearly. simpl. rewrite Hj.
  by destruct (Z.leb_spec due (clock p)); [lia|].
Qed.

Lemma retry_round p event :
  pending p = [[event]] →
  retryQueue (self p) = [] →
  timeouts p = [] →
  attempts event < retryAttempts (config (self p)) →
  0 ≤ retryDelay (config (self p)) * (attempts event + 1) →
  let d := retryDelay (config (self p)) in
  let event' := mkEvent (endpoint event) (data event) (attempts event + 1)
                        (createdAt event) in
  let t := clock p + d * (attempts event + 1) in
  run [Settled 0 false; Elapse (d * (attempts event + 1)); Timeout 0] p
  = mkPage (self p) t [] [[event']]
           (network p ++ [delivery p event t (isOnline (self p))])
           (beacon_api p) (cls p).
Proof.
  intros Hpend Hrq Hto Hlt Hpos d event' t. subst d event' t.
  open_page p. subst pe rq ts.
  unfold run. cbn [fold_left step]. unfold settle. cbn [pending lookup].
  simpl. unfold sendEvent_settled. simpl.
  destruct (Z.ltb_spec (attempts event) (retryAttempts cfg)); [|lia].
  simpl. rewrite !Z.max_r by lia.
  destruct (Z.leb_spec (c + retryDelay cfg * (attempts event + 1))
              (c + retryDelay cfg * (attempts event + 1))); [|lia].
  reflexivity.
Qed.

Lemma final_failure p event :
  pending p = [[event]] →
  retryAttempts (config (self p)) ≤ attempts event →
  step (Settled 0 false) p = set_pending [] p.
Proof.
  intros Hpend Hge. cbn [step]. unfold settle. rewrite Hpend.
  change ([[event]] !! 0%nat) with (Some [event]). cbv iota beta.
  by rewrite (failure_drops_event event p Hge).
Qed.

Lemma retry_times_length d c a k : length (retry_times d c a k) = k.
Proof.
  revert c a. induction k as [|k IH]; intros; simpl; [done|]. by rewrite IH.
Qed.

Lemma failing_chain k :
  ∀ p event,
    pending p = [[event]] →
    retryQueue (self p) = [] →
    timeouts p = [] →
    0 ≤ attempts event →
    retryAttempts (config (self p)) = attempts event + Z.of_nat k →
    0 < retryDelay (config (self p)) →
    let d := retryDelay (config (self p)) in
    let p' := run (Settled 0 false :: failing_retries d (attempts event) k) p in
    self p' = self p
    ∧ timeouts p' = []
    ∧ pending p' = []
    ∧ network p'
      = network p
        ++ map (λ t, delivery p event t (isOnline (self p)))
               (retry_times d (clock p) (attempts event) k).
Proof.
  induction k as [|k IH]; intros p event Hpend Hrq Hto Ha Hmax Hd d p';
    subst d p'.
  - cbn [failing_retries retry_times map]. rewrite run_cons.
    rewrite (final_failure p event Hpend) by (simpl in Hmax; lia).
    cbn [run fold_left]. simpl. by rewrite app_nil_r.
  - set (d := retryDelay (config (self p))).
    change (run (Settled 0 false :: failing_retries d (attempts event) (S k)) p)
      with (run ([Settled 0 false; Elapse (d * (attempts event + 1));
                  Timeout 0]
                 ++ Settled 0 false
                    :: failing_retries d (attempts event + 1) k) p).
    rewrite run_app. subst d.
    rewrite (retry_round p event Hpend Hrq Hto) by (try lia; nia).
    set (event' := mkEvent (endpoint event) (data event) (attempts event + 1)
                           (createdAt event)).
    set (p1 := mkPage _ _ _ _ _ _ _).
    destruct (IH p1 event') as (Hself & Hto' & Hpend' & Hnet);
      try done; simpl; try lia.
    simpl in Hself, Hto', Hpend', Hnet.
    rewrite Hself, Hto', Hpend', Hnet. repeat split; try done.
    by rewrite <- app_assoc.
Qed.

(** *** Offline and back online *)


Lemma flushQueue_offline p : isOnline (self p) = false → flushQueue p = p.
Proof.
  intros Hoff. unfold flushQueue. rewrite Hoff.
  by destruct (eventQueue (self p)).
Qed.

Lemma batch_tick_offline p : isOnline (self p) = false → batch_tick p = p.
Proof.
  intros Hoff. unfold batch_tick. rewrite (flushQueue_offline p Hoff).
  by destruct (0 <? _).
Qed.

Lemma queueEvent_offline ep d p :
  isOnline (self p) = false →
  ∃ event,
    queueEvent ep d p
    = with_self (set_eventQueue (eventQueue (self p) ++ [event]) (self p)) p
    ∧ endpoint event = ep ∧ attempts event = 0.
Proof.
  intros Hoff. eexists (mkEvent ep _ 0 (clock p)). unfold queueEvent.
  split; [|by split].
  rewrite flushQueue_offline by done. by destruct (_ >=? _).
Qed.

(** While the page stays offline, tracked events and batch ticks send
    nothing; the queue only grows, by one event per tracked action. *)
Lemma offline_queue_accumulates inputs :
  ∀ p,
    isOnline (self p) = false →
    Forall (λ i, i = BatchTick ∨ ∃ ep d, i = Track ep d) inputs →
    let p' := run inputs p in
    network p' = network p
    ∧ pending p' = pending p
    ∧ isOnline (self p') = false
    ∧ ∃ added,
        eventQueue (self p') = eventQueue (self p) ++ added
        ∧ length added
          = length (List.filter (λ i, match i with
                                      | Track _ _ => true
                                      | _ => false
                                      end) inputs).
Proof.
  induction inputs as [|i inputs IH]; intros p Hoff Hall p'; subst p'.
  - simpl. repeat split; try done. exists []. by rewrite app_nil_r.
  - apply Forall_cons in Hall as [Hi Hall]. rewrite run_cons.
    destruct Hi as [-> | (ep & d & ->)]; cbn [step].
    + rewrite (batch_tick_offline p Hoff).
      destruct (IH p Hoff Hall) as (Hn & Hp & Ho & added & Hq & Hlen).
      repeat split; try done. by exists added.
    + destruct (queueEvent_offline ep d p Hoff) as (event & Hstep & _).
      rewrite Hstep.
      destruct (IH (with_self (set_eventQueue
                     (eventQueue (self p) ++ [event]) (self p)) p))
        as (Hn & Hp & Ho & added & Hq & Hlen); [done..|].
      repeat split; try done.
      exists (event :: added). split.
      * rewrite Hq. simpl. by rewrite <- app_assoc.
      * simpl. by rewrite Hlen.
Qed.

(** A send loop whose requests all succeed sends every event once, in
    order. *)
Lemma send_loop_all_ok events :
  ∀ p, pending p = [] →
    let p' := run (repeat (Settled 0 true) (length events))
                  (send_loop events p) in
    network p'
      = network p
        ++ map (λ e, delivery p e (clock p) (isOnline (self p))) events
    ∧ self p' = self p ∧ pending p' = [] ∧ timeouts p' = timeouts p
    ∧ clock p' = clock p.
Proof.
  induction events as [|e rest IH]; intros p Hpend p'; subst p'.
  - simpl. by rewrite app_nil_r.
  - cbn [length repeat]. rewrite run_cons.
    assert (Hstep : step (Settled 0 true) (send_loop (e :: rest) p)
                    = send_loop rest (sendEvent e p)).
    { open_page p. subst pe. cbn [step]. unfold settle, send_loop. simpl.
      by destruct rest. }
    rewrite Hstep.
    destruct (IH (sendEvent e p)) as (Hnet & Hself & Hp & Hto & Hclk);
      [done|].
    rewrite Hnet, Hself, Hp, Hto, Hclk. simpl. rewrite <- app_assoc.
    by repeat split.
Qed.

Lemma retry_pass_on_empty_queue q :
  retryQueue (self q) = [] → retryFailedEvents q = q.
Proof.
  intros Hrq. open_page q. by subst rq.
Qed.

Lemma flushQueue_online q :
  isOnline (self q) = true →
  flushQueue q
  = send_loop (eventQueue (self q)) (with_self (set_eventQueue [] (self q)) q).
Proof.
  intros Hon. unfold flushQueue. rewrite Hon. open_page q. by destruct eq.
Qed.

Lemma send_loop_self events q : self (send_loop events q) = self q.
Proof. by destruct events. Qed.

Lemma online_flush_delivers_once p :
  retryQueue (self p) = [] →
  pending p = [] →
  let events := eventQueue (self p) in
  let p' := run (Online :: repeat (Settled 0 true) (length events)) p in
  network p' = network p ++ map (λ e, delivery p e (clock p) true) events
  ∧ eventQueue (self p') = []
  ∧ retryQueue (self p') = []
  ∧ pending p' = [].
Proof.
  intros Hrq Hpend events p'. subst events p'. rewrite run_cons.
  cbn [step]. rewrite flushQueue_online by done.
  rewrite retry_pass_on_empty_queue by (by rewrite send_loop_self).
  open_page p. subst rq pe.
  unfold with_self, set_isOnline, set_eventQueue.
  cbn [self eventQueue config sessionId
       sessionStart isOnline retryQueue scrollMilestones clickedSections
       funnelSteps clock timeouts pending network beacon_api cls].
  set (p2 := mkPage _ _ _ _ _ _ _).
  destruct (send_loop_all_ok eq p2) as (Hnet & Hself & Hp & _); [done|].
  rewrite Hnet, Hself, Hp. by repeat split.
Qed.

(** *** Leaving the page *)


Lemma summaries_app l1 l2 :
  summaries (l1 ++ l2) = (summaries l1 + summaries l2)%nat.
Proof. unfold summaries. by rewrite List.filter_app, length_app. Qed.

(** What one run of [sendFinalData] hands to the network. *)
Lemma sendFinalData_effect p :
  self (sendFinalData p) = self p
  ∧ clock (sendFinalData p) = clock p
  ∧ timeouts (sendFinalData p) = timeouts p
  ∧ pending (sendFinalData p) = pending p
  ∧ beacon_api (sendFinalData p) = beacon_api p
  ∧ cls (sendFinalData p) = cls p
  ∧ ∃ sent, network (sendFinalData p) = network p ++ sent
            ∧ Forall (λ s, via s = Beacon) sent
            ∧ summaries sent = if beacon_api p then 1%nat else 0%nat.
Proof.
  unfold sendFinalData, sendBeacon. destruct (beacon_api p) eqn:Hb; simpl.
  - rewrite Hb. simpl. repeat split; try done.
    eexists. rewrite <- app_assoc. split; [reflexivity|].
    split; [by repeat constructor|]. reflexivity.
  - rewrite Hb. repeat split; try done. exists []. by rewrite app_nil_r.
Qed.

Lemma send_cls_effect p :
  self (send_cls p) = self p
  ∧ clock (send_cls p) = clock p
  ∧ timeouts (send_cls p) = timeouts p
  ∧ pending (send_cls p) = pending p
  ∧ beacon_api (send_cls p) = beacon_api p
  ∧ cls (send_cls p) = cls p
  ∧ ∃ sent, network (send_cls p) = network p ++ sent
            ∧ Forall (λ s, via s = Beacon) sent
            ∧ summaries sent = 0%nat.
Proof.
  unfold send_cls, sendBeacon. destruct (cls p) as [v|] eqn:Hc.
  - destruct (beacon_api p) eqn:Hb; simpl; repeat split; try done.
    + eexists. split; [reflexivity|].
      split; [by repeat constructor | reflexivity].
    + exists []. by rewrite app_nil_r.
  - repeat split; try done. exists []. by rewrite app_nil_r.
Qed.

(** C6, as stated, fails.  One event on the site's page (retryDelay 1000,
    three retries) fails every time.  Its first retry comes 1000 ms after the
    first failure.  Ten milliseconds after the second failure the connection
    drops and returns, and the 'online' handler retries at once: a delay of
    10 ms where retryDelay × attempts is 2000 ms, and shorter than the delay
    before it.  The timer left over from the second failure then brings the
    last retry 1990 ms after the third failure, not 3000 ms.  After that
    fourth failure the event is gone, with [attempts] left at 3. *)
Lemma reconnect_retries_before_the_delay :
  let p := run [BatchTick; Settled 0 false;
                Elapse 1000; Timeout 0; Settled 0 false;
                Elapse 10; Offline; Online; Settled 0 false;
                Elapse 1990; Timeout 0; Settled 0 false]
               Scenarios.page_with_click in
  eventQueue (self Scenarios.page_with_click) = [Scenarios.click_event]
  ∧ retryDelay (config (self p)) = 1000
  ∧ retryAttempts (config (self p)) = 3
  ∧ network p
    = map (λ t, delivery p Scenarios.click_event t true) [0; 1000; 1010; 3000]
  ∧ retryQueue (self p) = []
  ∧ pending p = []
  ∧ 1010 - 1000 ≠ 1000 * 2.
Proof. vm_compute. repeat split; congruence. Qed.

(** An event alone on a page whose connection does not change, every
    delivery of which fails: the schedule of its retries, to the
    millisecond. *)
Lemma lone_event_chain p event n :
  eventQueue (self p) = [event] →
  attempts event = 0 →
  isOnline (self p) = true →
  retryQueue (self p) = [] →
  timeouts p = [] →
  pending p = [] →
  retryAttempts (config (self p)) = Z.of_nat n →
  0 < retryDelay (config (self p)) →
  let d := retryDelay (config (self p)) in
  let times := clock p :: retry_times d (clock p) 0 n in
  let p' := run (BatchTick :: Settled 0 false :: failing_retries d 0 n) p in
  network p' = network p ++ map (λ t, delivery p event t true) times
  ∧ length times = S n
  ∧ eventQueue (self p') = []
  ∧ retryQueue (self p') = []
  ∧ timeouts p' = []
  ∧ pending p' = []
  ∧ (∀ a b, 0 ≤ a → a < b → d * a < d * b)
  ∧ (∀ q ev,
       attempts ev < retryAttempts (config (self q)) →
       retryQueue (self (sendEvent_settled false ev q))
       = retryQueue (self q)
         ++ [mkEvent (endpoint ev) (data ev) (attempts ev + 1) (createdAt ev)]
       ∧ timeouts (sendEvent_settled false ev q)
         = timeouts q
           ++ [clock q
               + Z.max 0 (retryDelay (config (self q)) * (attempts ev + 1))])
  ∧ (∀ q ev,
       retryAttempts (config (self q)) ≤ attempts ev →
       sendEvent_settled false ev q = q).
Proof.
  intros Hq Ha Hon Hrq Hto Hpend Hmax Hd d times p'. subst d times p'.
  rewrite run_cons.
  assert (Hflush : step BatchTick p
                   = mkPage (set_eventQueue [] (self p)) (clock p) [] [[event]]
                            (network p ++ [delivery p event (clock p) true])
                            (beacon_api p) (cls p)).
  { open_page p. by subst eq on rq ts pe. }
  rewrite Hflush. set (p1 := mkPage _ _ _ _ _ _ _).
  destruct (failing_chain n p1 event) as (Hself & Hto' & Hpend' & Hnet);
    try done; try (simpl; lia).
  assert (Hcfg : retryDelay (config (self p1)) = retryDelay (config (self p)))
    by done.
  assert (Hdel : ∀ t, delivery p1 event t (isOnline (self p1))
                      = delivery p event t true).
  { intros t. unfold delivery, endpoint_url. subst p1. simpl. by rewrite Hon. }
  rewrite Hcfg, Ha in Hself, Hto', Hpend', Hnet.
  rewrite Hself, Hto', Hpend', Hnet.
  rewrite (map_ext _ _ Hdel).
  subst p1. cbn [self clock network set_eventQueue eventQueue retryQueue
                 length map].
  rewrite retry_times_length, <- app_assoc.
  repeat split; try done.
  - intros a b Ha0 Hab. nia.
  - by destruct (failure_schedules_retry ev q) as (? & ? & _).
  - by destruct (failure_schedules_retry ev q) as (? & ? & _).
  - intros q ev Hge. by apply failure_drops_event.
Qed.

(** With the default settings the four attempts of a lone event that went
    out at time 0 come 1000, 2000 and 3000 ms apart. *)
Example default_retry_times :
  0 :: retry_times 1000 0 0 3 = [0; 1000; 3000; 6000].
Proof. reflexivity. Qed.

Example lone_click_on_the_site :
  let p := Scenarios.page_with_click in
  let p' := run (BatchTick :: Settled 0 false :: failing_retries 1000 0 3) p in
  network p'
  = map (λ t, delivery p Scenarios.click_event t true) [0; 1000; 3000; 6000]
  ∧ retryQueue (self p') = []
  ∧ pending p' = [].
Proof. vm_compute. repeat split; congruence. Qed.

(** The scenario of the design document: three events tracked while
    offline, then the page comes back online; the three go out once each, on
    their own. *)
Example three_events_queued_offline :
  let offline := run [Offline; Track "event" Scenarios.click;
                      Track "pageview" []; Track "form" []; BatchTick]
                     Scenarios.fresh_page in
  let back := run [Online; Settled 0 true; Settled 0 true; Settled 0 true]
                  offline in
  network offline = []
  ∧ length (eventQueue (self offline)) = 3%nat
  ∧ map url (network back)
    = ["/api/analytics/event"; "/api/analytics/pageview";
       "/api/analytics/form"]
  ∧ eventQueue (self back) = []
  ∧ pending back = [].
Proof. vm_compute. repeat split; congruence. Qed.

(** C7: the failing run.  An event fails once while the page is online; the
    page then goes offline; the timer set by the failure fires all the same
    and [retryFailedEvents], which does not look at [isOnline], hands the
    event to [fetch] while the page reports itself offline. *)
Theorem retry_timer_fires_while_offline :
  let p := run [BatchTick; Settled 0 false; Offline; Elapse 1000; Timeout 0]
               Scenarios.page_with_click in
  isOnline (self p) = false
  ∧ network p
    = [delivery p Scenarios.click_event 0 true;
       delivery p Scenarios.click_event 1000 false]
  ∧ pending p
    = [[mkEvent "event" (data Scenarios.click_event) 1 0]].
Proof. vm_compute. repeat split; congruence. Qed.

(** A flush that is under way when the page goes offline goes on as well:
    its loop does not look at [isOnline] between two events. *)
Example flush_under_way_continues_offline :
  let p := run [Track "event" Scenarios.click; BatchTick; Offline;
                Settled 0 true]
               Scenarios.page_with_click in
  map (λ s, (via s, sent_online s)) (network p)
  = [(Fetch, true); (Fetch, false)].
Proof. vm_compute. reflexivity. Qed.


Lemma leave_effect i p :
  leaves_page i →
  self (step i p) = self p
  ∧ clock (step i p) = clock p
  ∧ timeouts (step i p) = timeouts p
  ∧ pending (step i p) = pending p
  ∧ beacon_api (step i p) = beacon_api p
  ∧ ∃ sent, network (step i p) = network p ++ sent
            ∧ Forall (λ s, via s = Beacon) sent
            ∧ summaries sent = if beacon_api p then 1%nat else 0%nat.
Proof.
  intros [-> | ->]; cbn [step].
  - destruct (sendFinalData_effect p)
      as (H1 & H2 & H3 & H4 & H5 & H6 & sent & Hn & Hb & Hs).
    destruct (send_cls_effect (sendFinalData p))
      as (G1 & G2 & G3 & G4 & G5 & G6 & sent' & Gn & Gb & Gs).
    rewrite G1, G2, G3, G4, G5, H1, H2, H3, H4, H5. repeat split; try done.
    exists (sent ++ sent'). rewrite Gn, Hn, <- app_assoc. split; [done|].
    split; [by apply Forall_app|]. rewrite summaries_app, Hs, Gs. lia.
  - destruct (sendFinalData_effect p)
      as (H1 & H2 & H3 & H4 & H5 & H6 & sent & Hn & Hb & Hs).
    repeat split; try done. by exists sent.
Qed.




End AnalyticsFacts.

(** ** Counting the deliveries of failing events *)

Module DeliveryFacts.
Import FoggianoAnalytics Deliveries AnalyticsFacts.

Section Account.
Variable sel : Obj → bool.
Variable n : Z.

Lemma fetched_app l1 l2 :
  fetched sel (l1 ++ l2) = fetched sel l1 + fetched sel l2.
Proof. unfold fetched. rewrite List.filter_app, length_app. lia. Qed.

Lemma owed_list_app l1 l2 :
  owed_list sel n (l1 ++ l2) = owed_list sel n l1 + owed_list sel n l2.
Proof.
  unfold owed_list. induction l1 as [|e l1 IH]; simpl; [done|]. lia.
Qed.

Lemma owed_pending_app l1 l2 :
  owed_pending sel n (l1 ++ l2)
  = owed_pending sel n l1 + owed_pending sel n l2.
Proof.
  unfold owed_pending. induction l1 as [|e l1 IH]; simpl; [done|]. lia.
Qed.

Lemma fetched_delivery q e t on :
  fetched sel [delivery q e t on] + owed_sent sel n e = owed_queued sel n e.
Proof.
  unfold fetched, delivery, owed_sent, owed_queued. simpl.
  destruct (sel (data e)); simpl; lia.
Qed.

Lemma send_loop_page events q :
  send_loop events q
  = match events with
    | [] => q
    | e :: _ =>
        mkPage (self q) (clock q) (timeouts q) (pending q ++ [events])
               (network q ++ [delivery q e (clock q) (isOnline (self q))])
               (beacon_api q) (cls q)
    end.
Proof. by destruct events. Qed.

Lemma send_loop_account events q :
  self (send_loop events q) = self q
  ∧ account sel n (send_loop events q)
    = account sel n q + owed_list sel n events.
Proof.
  rewrite send_loop_page. destruct events as [|e rest].
  - simpl. split; [done|]. lia.
  - split; [done|]. unfold account.
    cbn [self network pending]. rewrite fetched_app, owed_pending_app.
    pose proof (fetched_delivery q e (clock q) (isOnline (self q))).
    cbn [owed_pending owed_loop owed_list foldr] in *.
    fold (owed_list sel n rest). lia.
Qed.

Lemma flushQueue_account q :
  config (self (flushQueue q)) = config (self q)
  ∧ account sel n (flushQueue q) = account sel n q.
Proof.
  unfold flushQueue. destruct (eventQueue (self q)) as [|e rest] eqn:Hq;
    [done|].
  destruct (isOnline (self q)); cbn [negb]; [|done].
  destruct (send_loop_account (e :: rest)
              (with_self (set_eventQueue [] (self q)) q)) as [Hs Ha].
  rewrite Hs, Ha. split; [done|].
  unfold account. cbn [with_self set_eventQueue self eventQueue retryQueue
                       network pending]. rewrite Hq.
  cbn [owed_list foldr]. lia.
Qed.

Lemma retryFailedEvents_account q :
  config (self (retryFailedEvents q)) = config (self q)
  ∧ account sel n (retryFailedEvents q) = account sel n q.
Proof.
  unfold retryFailedEvents.
  destruct (send_loop_account (retryQueue (self q))
              (with_self (set_retryQueue [] (self q)) q)) as [Hs Ha].
  rewrite Hs, Ha. split; [done|].
  unfold account. cbn [with_self set_retryQueue self eventQueue retryQueue
                       network pending].
  cbn [owed_list foldr]. lia.
Qed.

Lemma failure_account e q :
  n = retryAttempts (config (self q)) →
  config (self (sendEvent_settled false e q)) = config (self q)
  ∧ pending (sendEvent_settled false e q) = pending q
  ∧ clock (sendEvent_settled false e q) = clock q
  ∧ isOnline (self (sendEvent_settled false e q)) = isOnline (self q)
  ∧ account sel n (sendEvent_settled false e q)
    = account sel n q + owed_sent sel n e.
Proof.
  intros Hn. unfold sendEvent_settled.
  destruct (Z.ltb_spec (attempts e) (retryAttempts (config (self q))))
    as [Hlt|Hge].
  - unfold account, setTimeout.
    cbn [with_self set_retryQueue set_timeouts self eventQueue retryQueue
         network pending config clock isOnline].
    rewrite owed_list_app. repeat split; try done.
    unfold owed_list, owed_queued, owed_sent. cbn [foldr data attempts].
    destruct (sel (data e)); lia.
  - repeat split; try done. unfold owed_sent.
    destruct (sel (data e)); lia.
Qed.

Lemma owed_pending_middle i l loop :
  l !! i = Some loop →
  owed_pending sel n l
  = owed_pending sel n (take i l) + owed_loop sel n loop
    + owed_pending sel n (drop (S i) l).
Proof.
  intros Hi. rewrite <- (take_drop_middle l i loop Hi) at 1.
  rewrite owed_pending_app. cbn [owed_pending foldr].
  fold (owed_pending sel n (drop (S i) l)). lia.
Qed.

Lemma settle_account i q :
  n = retryAttempts (config (self q)) →
  config (self (settle i false q)) = config (self q)
  ∧ account sel n (settle i false q) = account sel n q.
Proof.
  intros Hn. unfold settle.
  destruct (pending q !! i) as [[|e rest]|] eqn:Hi; [done| |done].
  destruct (failure_account e q Hn) as (Hc & Hp & Hk & Ho & Ha).
  pose proof (owed_pending_middle i (pending q) (e :: rest) Hi) as Hmid.
  set (q1 := sendEvent_settled false e q) in *.
  destruct rest as [|next rest].
  - split; [done|]. revert Ha. unfold account.
    cbn [set_pending self network pending]. rewrite Hp, Hmid.
    rewrite owed_pending_app. cbn [owed_loop owed_list foldr]. lia.
  - split; [done|]. revert Ha. unfold account, sendEvent.
    cbn [set_pending transmit self network pending]. rewrite Hp, Hmid.
    rewrite fetched_app, !owed_pending_app.
    pose proof (fetched_delivery q1 next (clock q1) (isOnline (self q1)))
      as Hd. unfold delivery in Hd.
    cbn [owed_pending owed_loop owed_list foldr] in *.
    fold (owed_list sel n rest). lia.
Qed.

End Account.

Lemma fetched_beacons sel sent :
  Forall (λ s, via s = Beacon) sent → fetched sel sent = 0.
Proof.
  unfold fetched. induction sent as [|s sent IH]; [done|].
  intros Hall. apply Forall_cons in Hall as [Hs Hall]. simpl. rewrite Hs.
  by apply IH.
Qed.

(** Whatever happens on the page, as long as no new event is tracked and
    no request succeeds: the calls of [fetch] made and those still to come
    add up to the same number. *)
Lemma step_keeps_the_account sel i p :
  fails i →
  config (self (step i p)) = config (self p)
  ∧ account sel (retryAttempts (config (self p))) (step i p)
    = account sel (retryAttempts (config (self p))) p.
Proof.
  set (n := retryAttempts (config (self p))).
  destruct i as [ep d| |j|k ok| | | | | |dt]; intros Hi; cbn [step].
  - done.
  - unfold batch_tick. destruct (0 <? _); [|done].
    apply flushQueue_account.
  - destruct (timeouts p !! j) as [due|]; [|done].
    destruct (due <=? clock p); [|done].
    destruct (retryFailedEvents_account sel n
                (set_timeouts (take j (timeouts p) ++ drop (S j) (timeouts p))
                   p)) as [Hc Ha].
    by rewrite Hc, Ha.
  - simpl in Hi. subst ok. by apply settle_account.
  - destruct (flushQueue_account sel n
                (with_self (set_isOnline true (self p)) p)) as [Hc Ha].
    destruct (retryFailedEvents_account sel n
                (flushQueue (with_self (set_isOnline true (self p)) p)))
      as [Hc' Ha'].
    by rewrite Hc', Ha', Hc, Ha.
  - done.
  - destruct (leave_effect Hidden p) as (Hs & _ & _ & Hp & _ & sent & Hn & Hb & _);
      [by left|].
    cbn [step] in Hs, Hp, Hn. rewrite Hs. split; [done|].
    unfold account. rewrite Hs, Hp, Hn, fetched_app.
    rewrite (fetched_beacons sel sent Hb). lia.
  - done.
  - destruct (leave_effect BeforeUnload p)
      as (Hs & _ & _ & Hp & _ & sent & Hn & Hb & _); [by right|].
    cbn [step] in Hs, Hp, Hn. rewrite Hs. split; [done|].
    unfold account. rewrite Hs, Hp, Hn, fetched_app.
    rewrite (fetched_beacons sel sent Hb). lia.
  - done.
Qed.

Lemma run_keeps_the_account sel inputs :
  ∀ p,
    Forall fails inputs →
    config (self (run inputs p)) = config (self p)
    ∧ account sel (retryAttempts (config (self p))) (run inputs p)
      = account sel (retryAttempts (config (self p))) p.
Proof.
  induction inputs as [|i inputs IH]; intros p Hall; [done|].
  apply Forall_cons in Hall as [Hi Hall]. rewrite run_cons.
  destruct (step_keeps_the_account sel i p Hi) as [Hc Ha].
  destruct (IH (step i p) Hall) as [Hc' Ha'].
  rewrite Hc in Ha'. by rewrite Hc', Ha', Hc, Ha.
Qed.

Lemma owed_fresh_events sel n events :
  0 ≤ n →
  Forall (λ e, attempts e = 0) events →
  owed_list sel n events = (n + 1) * selected sel events.
Proof.
  intros Hn. unfold owed_list, selected, owed_queued.
  induction events as [|e events IH]; intros Hall; simpl; [lia|].
  apply Forall_cons in Hall as [He Hall]. specialize (IH Hall).
  rewrite He. destruct (sel (data e)); simpl length; lia.
Qed.

Lemma failed_deliveries_are_accounted sel inputs p :
  Forall (λ e, attempts e = 0) (eventQueue (self p)) →
  retryQueue (self p) = [] →
  pending p = [] →
  0 ≤ retryAttempts (config (self p)) →
  Forall fails inputs →
  at_rest (run inputs p) →
  fetched sel (network (run inputs p))
  = fetched sel (network p)
    + (retryAttempts (config (self p)) + 1)
      * selected sel (eventQueue (self p)).
Proof.
  intros Hfresh Hrq Hpend Hn Hall (Hq' & Hrq' & Hpend').
  destruct (run_keeps_the_account sel inputs p Hall) as [_ Ha].
  revert Ha. unfold account. rewrite Hq', Hrq', Hpend', Hrq, Hpend.
  rewrite (owed_fresh_events sel _ _ Hn Hfresh).
  cbn [owed_list owed_pending foldr]. lia.
Qed.

(** C6, amended.  Every failure of a delivery met with
    attempts < maxRetries adds one to [attempts], puts the event at the end
    of the retry queue and sets a timer of retryDelay × attempts, a delay
    that grows strictly with the attempt count; a failure met with
    attempts ≥ maxRetries drops the event.  For every page with any number
    of fresh events queued, and every course of events in which no new
    event is tracked and no request succeeds, whatever the order in which
    timers fire, requests settle and the connection comes and goes: once
    nothing is queued, waits for a retry or is under way, every event has
    been handed to [fetch] exactly maxRetries + 1 times ([sel] picks out
    the events to count by their payload).  A retry pass takes the whole
    retry queue, so an event is retried when the first pass after its
    failure runs, at its own timer or sooner; for an event that is alone
    on a page whose connection does not change, the deliveries come
    exactly retryDelay × attempts after each failure. *)
Theorem failing_events_are_retried_then_dropped sel inputs p :
  Forall (λ e, attempts e = 0) (eventQueue (self p)) →
  retryQueue (self p) = [] →
  pending p = [] →
  0 ≤ retryAttempts (config (self p)) →
  Forall fails inputs →
  at_rest (run inputs p) →
  fetched sel (network (run inputs p))
  = fetched sel (network p)
    + (retryAttempts (config (self p)) + 1)
      * selected sel (eventQueue (self p))
  ∧ (∀ q ev,
       attempts ev < retryAttempts (config (self q)) →
       retryQueue (self (sendEvent_settled false ev q))
       = retryQueue (self q)
         ++ [mkEvent (endpoint ev) (data ev) (attempts ev + 1) (createdAt ev)]
       ∧ timeouts (sendEvent_settled false ev q)
         = timeouts q
           ++ [clock q
               + Z.max 0 (retryDelay (config (self q)) * (attempts ev + 1))])
  ∧ (∀ q ev,
       retryAttempts (config (self q)) ≤ attempts ev →
       sendEvent_settled false ev q = q)
  ∧ (∀ d a b, 0 < d → 0 ≤ a → a < b → d * a < d * b)
  ∧ (∀ q event k,
       eventQueue (self q) = [event] →
       attempts event = 0 →
       isOnline (self q) = true →
       retryQueue (self q) = [] →
       timeouts q = [] →
       pending q = [] →
       retryAttempts (config (self q)) = Z.of_nat k →
       0 < retryDelay (config (self q)) →
       let d := retryDelay (config (self q)) in
       let times := clock q :: retry_times d (clock q) 0 k in
       let q' := run (BatchTick :: Settled 0 false :: failing_retries d 0 k)
                     q in
       network q' = network q ++ map (λ t, delivery q event t true) times
       ∧ length times = S k
       ∧ at_rest q'
       ∧ timeouts q' = []).
Proof.
  intros Hfresh Hrq Hpend Hn Hall Hrest.
  split; [by apply failed_deliveries_are_accounted|].
  split.
  { intros q ev Hlt.
    by destruct (failure_schedules_retry ev q Hlt) as (? & ? & _). }
  split; [intros q ev Hge; by apply failure_drops_event|].
  split; [intros d a b Hd Ha Hab; nia|].
  intros q event k Hq Ha Hon Hrq' Hto Hpend' Hk Hd d times q'.
  destruct (lone_event_chain q event k Hq Ha Hon Hrq' Hto Hpend' Hk Hd)
    as (H1 & H2 & H3 & H4 & H5 & H6 & _).
  by repeat split.
Qed.

Lemma failing_events_are_retried_then_dropped_witness :
  let p := Examples.page_with_two_events in
  let p' := run Examples.nothing_gets_through p in
  length (eventQueue (self p)) = 2%nat
  ∧ at_rest p'
  ∧ fetched (Examples.has_category "UI") (network p') = 4
  ∧ fetched (Examples.has_category "Engagement") (network p') = 4
  ∧ length (network p') = 8%nat.
Proof.
  split; [reflexivity|]. split; [by vm_compute|]. split; [|split].
  - apply (failing_events_are_retried_then_dropped
             (Examples.has_category "UI") Examples.nothing_gets_through
             Examples.page_with_two_events).
    + repeat constructor.
    + reflexivity.
    + reflexivity.
    + by vm_compute.
    + repeat constructor.
    + by vm_compute.
  - apply (failing_events_are_retried_then_dropped
             (Examples.has_category "Engagement")
             Examples.nothing_gets_through Examples.page_with_two_events).
    + repeat constructor.
    + reflexivity.
    + reflexivity.
    + by vm_compute.
    + repeat constructor.
    + by vm_compute.
  - reflexivity.
Defined.

End DeliveryFacts.

(** ** Maintenance of the two tables *)

Module MaintenanceFacts.
Import DatabaseManager.

Lemma to_seconds_bounds t :
  ∃ q, to_seconds t = 1000 * q ∧ 1000 * q ≤ t ∧ t < 1000 * q + 1000.
Proof.
  exists (t / 1000). unfold to_seconds.
  Z.to_euclidean_division_equations. lia.
Qed.

Lemma cleanupRateLimits_lookup c db key :
  rate_limits (cleanupRateLimits c db).2 !! key
  = match rate_limits db !! key with
    | Some row =>
        if decide (to_seconds (window_start row) < to_seconds c - 3600000)
        then None else Some row
    | None => None
    end.
Proof.
  unfold cleanupRateLimits. simpl. rewrite map_lookup_filter.
  destruct (rate_limits db !! key) as [row|]; simpl; [|done].
  case_decide.
  - rewrite option_guard_False; [done|]. simpl. tauto.
  - by rewrite option_guard_True.
Qed.

(** X1.  The hourly cleanup of the rate-limit table is invisible to the
    gate: for a window of at most one hour, a call of [checkRateLimit]
    after a cleanup gets the answer it would have got without it, and
    leaves the same count and the same window start for its key. *)
Theorem cleanup_keeps_gate_answers key maxRequests windowMs swept now db :
  windowMs ≤ 3600000 →
  swept ≤ now →
  let cleaned := (cleanupRateLimits swept db).2 in
  let before := checkRateLimit key maxRequests windowMs now db in
  let after := checkRateLimit key maxRequests windowMs now cleaned in
  after.1 = before.1
  ∧ count <$> rate_limits after.2 !! key = count <$> rate_limits before.2 !! key
  ∧ window_start <$> rate_limits after.2 !! key
    = window_start <$> rate_limits before.2 !! key.
Proof.
  intros Hw Hc cleaned before after. subst cleaned before after.
  pose proof (cleanupRateLimits_lookup swept db key) as Hlook.
  set (cleaned := (cleanupRateLimits swept db).2) in *.
  destruct (rate_limits db !! key) as [row|] eqn:Hrow.
  - case_decide as Hold.
    + destruct (to_seconds_bounds (window_start row)) as (q1 & Hq1 & ?).
      destruct (to_seconds_bounds swept) as (q2 & Hq2 & ?).
      rewrite Hq1, Hq2 in Hold.
      destruct (RateLimitFacts.check_expired key maxRequests windowMs now db
                  row Hrow) as [-> ->]; [lia|].
      by destruct (RateLimitFacts.check_absent key maxRequests windowMs now
                     cleaned Hlook) as [-> ->].
    + destruct (Z.lt_ge_cases (window_start row) (now - windowMs)).
      * destruct (RateLimitFacts.check_expired key maxRequests windowMs now db
                    row Hrow) as [-> ->]; [lia|].
        by destruct (RateLimitFacts.check_expired key maxRequests windowMs now
                       cleaned row Hlook) as [-> ->].
      * destruct (Z.le_gt_cases maxRequests (count row)).
        -- destruct (RateLimitFacts.check_full key maxRequests windowMs now db
                       row Hrow) as [-> ->]; [lia..|].
           destruct (RateLimitFacts.check_full key maxRequests windowMs now
                       cleaned row Hlook) as [-> ->]; [lia..|].
           by rewrite Hlook, Hrow.
        -- destruct (RateLimitFacts.check_room key maxRequests windowMs now db
                       row Hrow) as [-> ->]; [lia..|].
           by destruct (RateLimitFacts.check_room key maxRequests windowMs now
                          cleaned row Hlook) as [-> ->]; [lia..|].
  - destruct (RateLimitFacts.check_absent key maxRequests windowMs now db Hrow)
      as [-> ->].
    by destruct (RateLimitFacts.check_absent key maxRequests windowMs now
                   cleaned Hlook) as [-> ->].
Qed.

Lemma cleanup_keeps_gate_answers_witness :
  let cleaned :=
    (cleanupRateLimits 7200000 (Scenarios.one_request "ip:203.0.113.7")).2 in
  let before :=
    checkRateLimit "ip:203.0.113.7" 5 3600000 7200500
      (Scenarios.one_request "ip:203.0.113.7") in
  let after := checkRateLimit "ip:203.0.113.7" 5 3600000 7200500 cleaned in
  after.1 = before.1
  ∧ count <$> rate_limits after.2 !! "ip:203.0.113.7"
    = count <$> rate_limits before.2 !! "ip:203.0.113.7"
  ∧ window_start <$> rate_limits after.2 !! "ip:203.0.113.7"
    = window_start <$> rate_limits before.2 !! "ip:203.0.113.7".
Proof.
  apply (cleanup_keeps_gate_answers "ip:203.0.113.7" 5 3600000 7200000
           7200500 (Scenarios.one_request "ip:203.0.113.7")); lia.
Defined.

Lemma cleanupExpiredIPBlocks_lookup c db ip :
  ip_blocks (cleanupExpiredIPBlocks c db).2 !! ip
  = match ip_blocks db !! ip with
    | Some row =>
        if decide (to_seconds (blocked_until row) < to_seconds c)
        then None else Some row
    | None => None
    end.
Proof.
  unfold cleanupExpiredIPBlocks. simpl. rewrite map_lookup_filter.
  destruct (ip_blocks db !! ip) as [row|]; simpl; [|done].
  case_decide.
  - rewrite option_guard_False; [done|]. simpl. tauto.
  - by rewrite option_guard_True.
Qed.

Lemma isIPBlocked_answer ip now db :
  (isIPBlocked ip now db).1
  = match ip_blocks db !! ip with
    | Some row =>
        if blocked_until row <? now then mkBlockStatus false None None None
        else mkBlockStatus true (Some (blocked_until row)) (Some (reason row))
               (Some (attempts row))
    | None => mkBlockStatus false None None None
    end.
Proof.
  unfold isIPBlocked, getIPBlock. simpl.
  destruct (ip_blocks db !! ip) as [row|]; [|done].
  by destruct (blocked_until row <? now).
Qed.

(** X2.  The cleanup of the block table removes only records that
    [isIPBlocked] would no longer honour: after a cleanup, [isIPBlocked]
    answers for every address what it would have answered without it. *)
Theorem cleanup_never_lifts_a_block ip swept now db :
  swept ≤ now →
  (isIPBlocked ip now (cleanupExpiredIPBlocks swept db).2).1
  = (isIPBlocked ip now db).1.
Proof.
  intros Hc. rewrite !isIPBlocked_answer, cleanupExpiredIPBlocks_lookup.
  destruct (ip_blocks db !! ip) as [row|]; [|done].
  case_decide as Hold; [|done].
  destruct (to_seconds_bounds (blocked_until row)) as (q1 & Hq1 & ?).
  destruct (to_seconds_bounds swept) as (q2 & Hq2 & ?).
  rewrite Hq1, Hq2 in Hold.
  by destruct (Z.ltb_spec (blocked_until row) now); [|lia].
Qed.

Lemma cleanup_never_lifts_a_block_witness :
  let swept := cleanupExpiredIPBlocks 1900000 Examples.one_block in
  blocked_until <$> ip_blocks Examples.one_block !! "198.51.100.23"
  = Some 1800000
  ∧ swept.1 = 1
  ∧ ip_blocks swept.2 !! "198.51.100.23" = None
  ∧ (isIPBlocked "198.51.100.23" 2000000 swept.2).1
    = (isIPBlocked "198.51.100.23" 2000000 Examples.one_block).1
  ∧ blocked (isIPBlocked "198.51.100.23" 2000000 Examples.one_block).1
    = false.
Proof.
  split; [reflexivity|]. split; [by vm_compute|]. split; [by vm_compute|].
  split; [|reflexivity].
  apply (cleanup_never_lifts_a_block "198.51.100.23" 1900000 2000000
           Examples.one_block).
  lia.
Defined.

(** X3.  [unblockIP] reports true exactly when the address had a record;
    afterwards [isIPBlocked] finds the address free at any time, the
    records of the other addresses are as before, and on an address
    without a record the table is unchanged. *)
Theorem unblock_lifts_the_block ip db :
  let call := unblockIP ip db in
  (call.1 = true ↔ is_Some (ip_blocks db !! ip))
  ∧ (∀ now, (isIPBlocked ip now call.2).1 = mkBlockStatus false None None None)
  ∧ (∀ other, other ≠ ip → ip_blocks call.2 !! other = ip_blocks db !! other)
  ∧ (ip_blocks db !! ip = None → ip_blocks call.2 = ip_blocks db).
Proof.
  intros call. subst call. unfold unblockIP, deleteIPBlock. simpl.
  repeat split.
  - destruct (ip_blocks db !! ip); [eauto | done].
  - destruct (ip_blocks db !! ip); [done | by intros [? ?]].
  - intros now. rewrite isIPBlocked_answer. simpl.
    by rewrite lookup_delete_eq.
  - intros other Hne. by rewrite lookup_delete_ne.
  - intros Hnone. by apply delete_id.
Qed.
End MaintenanceFacts.

(** ** More on the gate *)

Module GateFacts.
Import DatabaseManager.

(** The answer of the gate is a function of the row of its own key. *)
Lemma checkRateLimit_answer key maxRequests windowMs now db :
  (checkRateLimit key maxRequests windowMs now db).1
  = (checkRateLimit_after_read key maxRequests windowMs now
       (rate_limits db !! key) db).1.
Proof.
  unfold checkRateLimit, checkRateLimit_after_read, getRateLimit. simpl.
  destruct (rate_limits db !! key) as [row|]; [|done].
  destruct (window_start row <? now - windowMs); [done|].
  by destruct (count row >=? maxRequests).
Qed.

Lemma after_read_answer key maxRequests windowMs now seen db db' :
  (checkRateLimit_after_read key maxRequests windowMs now seen db).1
  = (checkRateLimit_after_read key maxRequests windowMs now seen db').1.
Proof.
  unfold checkRateLimit_after_read. destruct seen as [row|]; [|done].
  destruct (window_start row <? now - windowMs); [done|].
  by destruct (count row >=? maxRequests).
Qed.

Lemma checkRateLimit_other key other maxRequests windowMs now db :
  other ≠ key →
  rate_limits (checkRateLimit key maxRequests windowMs now db).2 !! other
  = rate_limits db !! other.
Proof.
  intros Hne. unfold checkRateLimit, getRateLimit, upsertRateLimit,
    resetRateLimit. simpl.
  destruct (rate_limits db !! key) as [row|]; simpl.
  - destruct (window_start row <? now - windowMs); simpl.
    + by rewrite lookup_insert_ne.
    + destruct (count row >=? maxRequests); simpl; [done|].
      by rewrite lookup_insert_ne.
  - by rewrite lookup_insert_ne.
Qed.

(** X4.  The gate keeps its keys apart: a call for one key leaves the row
    of any other key as it was, and the answer a later call for that other
    key gets. *)
Theorem gate_keys_are_independent
    key other maxRequests windowMs now maxRequests' windowMs' now' db :
  other ≠ key →
  let db' := (checkRateLimit key maxRequests windowMs now db).2 in
  rate_limits db' !! other = rate_limits db !! other
  ∧ (checkRateLimit other maxRequests' windowMs' now' db').1
    = (checkRateLimit other maxRequests' windowMs' now' db).1.
Proof.
  intros Hne db'. subst db'.
  pose proof (checkRateLimit_other key other maxRequests windowMs now db Hne)
    as Hsame.
  split; [done|].
  rewrite !checkRateLimit_answer, Hsame. apply after_read_answer.
Qed.

Lemma gate_keys_are_independent_witness :
  let db' :=
    (checkRateLimit "email:mario.rossi@example.org" 3 3600000 1000
       (Scenarios.one_request "ip:203.0.113.7")).2 in
  rate_limits db' !! "ip:203.0.113.7"
  = rate_limits (Scenarios.one_request "ip:203.0.113.7") !! "ip:203.0.113.7"
  ∧ (checkRateLimit "ip:203.0.113.7" 5 3600000 2000 db').1
    = (checkRateLimit "ip:203.0.113.7" 5 3600000 2000
         (Scenarios.one_request "ip:203.0.113.7")).1.
Proof.
  apply (gate_keys_are_independent "email:mario.rossi@example.org"
           "ip:203.0.113.7" 3 3600000 1000 5 3600000 2000
           (Scenarios.one_request "ip:203.0.113.7")).
  discriminate.
Defined.

Lemma checkRateLimit_calls_app key maxRequests windowMs ts1 ts2 db :
  checkRateLimit_calls key maxRequests windowMs (ts1 ++ ts2) db
  = let '(rs1, db1) := checkRateLimit_calls key maxRequests windowMs ts1 db in
    let '(rs2, db2) := checkRateLimit_calls key maxRequests windowMs ts2 db1 in
    (rs1 ++ rs2, db2).
Proof.
  revert db. induction ts1 as [|t ts1 IH]; intros db; simpl.
  - by destruct (checkRateLimit_calls key maxRequests windowMs ts2 db).
  - destruct (checkRateLimit key maxRequests windowMs t db) as [r db1].
    rewrite IH.
    destruct (checkRateLimit_calls key maxRequests windowMs ts1 db1)
      as [rs1 db2].
    by destruct (checkRateLimit_calls key maxRequests windowMs ts2 db2).
Qed.

Lemma window_of_calls key maxRequests windowMs t0 ts db :
  opens_window key windowMs t0 db →
  Forall (λ t, t - windowMs ≤ t0) ts →
  Z.of_nat (length (t0 :: ts)) ≤ maxRequests →
  let out := checkRateLimit_calls key maxRequests windowMs (t0 :: ts) db in
  Forall (λ r, allowed r = true) out.1
  ∧ length out.1 = length (t0 :: ts)
  ∧ ∃ lr, rate_limits out.2 !! key
          = Some (mkRateLimitRow (Z.of_nat (length (t0 :: ts))) t0 lr).
Proof.
  intros Hopen Hin Hlen out. subst out.
  destruct (RateLimitFacts.check_opening key maxRequests windowMs t0 db Hopen)
    as (lr0 & Hres0 & Hrow0).
  cbn [checkRateLimit_calls].
  destruct (checkRateLimit key maxRequests windowMs t0 db) as [r0 db1].
  simpl in Hres0, Hrow0.
  rewrite length_cons, Nat2Z.inj_succ in Hlen.
  destruct (RateLimitFacts.calls_with_room key maxRequests windowMs ts db1 _
              Hrow0) as (lr & Hall & Hlen' & Hfin); simpl; [done|lia|].
  destruct (checkRateLimit_calls key maxRequests windowMs ts db1) as [rs db2].
  simpl in *. split; [|split].
  - constructor; [by rewrite Hres0|done].
  - by rewrite Hlen'.
  - exists lr. rewrite Hfin. do 2 f_equal. lia.
Qed.

(** X5.  The window is fixed, not sliding: [maxRequests] calls inside one
    window, the last of them at its very end, and [maxRequests] more calls
    right after it are all allowed, so that twice the limit can pass
    within little more than one window length. *)
Theorem fixed_window_lets_a_double_burst_through
    key maxRequests windowMs t0 ts1 t1 ts2 db :
  opens_window key windowMs t0 db →
  Z.of_nat (length (t0 :: ts1)) = maxRequests →
  Forall (λ t, t - t0 ≤ windowMs) ts1 →
  windowMs < t1 - t0 →
  Z.of_nat (length (t1 :: ts2)) = maxRequests →
  Forall (λ t, t - t1 ≤ windowMs) ts2 →
  let out := checkRateLimit_calls key maxRequests windowMs
               ((t0 :: ts1) ++ (t1 :: ts2)) db in
  Forall (λ r, allowed r = true) out.1
  ∧ Z.of_nat (length out.1) = 2 * maxRequests.
Proof.
  intros Hopen Hlen1 Hin1 Hnew Hlen2 Hin2 out. subst out.
  rewrite checkRateLimit_calls_app.
  destruct (window_of_calls key maxRequests windowMs t0 ts1 db Hopen)
    as (Hall1 & Hl1 & lr & Hrow1); [|lia|].
  { eapply Forall_impl; [exact Hin1|]. simpl. intros; lia. }
  destruct (checkRateLimit_calls key maxRequests windowMs (t0 :: ts1) db)
    as [rs1 db1].
  simpl in Hall1, Hl1, Hrow1.
  destruct (window_of_calls key maxRequests windowMs t1 ts2 db1)
    as (Hall2 & Hl2 & _); [| |lia|].
  { unfold opens_window. rewrite Hrow1. simpl. lia. }
  { eapply Forall_impl; [exact Hin2|]. simpl. intros; lia. }
  destruct (checkRateLimit_calls key maxRequests windowMs (t1 :: ts2) db1)
    as [rs2 db2].
  simpl in Hall2, Hl2. simpl. split.
  - by apply Forall_app.
  - rewrite length_app, Hl1, Hl2. simpl in *. lia.
Qed.

Lemma fixed_window_lets_a_double_burst_through_witness :
  let out := checkRateLimit_calls "ip:203.0.113.7" 3 1000
               ((0 :: [900; 1000]) ++ (1001 :: [1001; 1002])) empty_db in
  Forall (λ r, allowed r = true) out.1
  ∧ Z.of_nat (length out.1) = 2 * 3.
Proof.
  apply (fixed_window_lets_a_double_burst_through "ip:203.0.113.7" 3 1000 0
           [900; 1000] 1001 [1001; 1002] empty_db).
  - by vm_compute.
  - reflexivity.
  - repeat constructor; lia.
  - lia.
  - reflexivity.
  - repeat constructor; lia.
Defined.

End GateFacts.

(** ** Escalation, admin routes and the sweep *)

Module EscalationFacts.
Import DatabaseManager Server.

Lemma escalation_row ip now st :
  MAX_SUSPICIOUS_ATTEMPTS
    ≤ attempt_count (default (mkAttempts 0 0) (ipAttempts st !! ip)) + 1 →
  ∃ row, ip_blocks (db (incrementSuspiciousAttempts ip now st).2) !! ip
         = Some row
         ∧ blocked_until row = now + 1800000.
Proof.
  intros Hge. unfold incrementSuspiciousAttempts. simpl.
  destruct (Z.geb_spec
              (attempt_count (default (mkAttempts 0 0) (ipAttempts st !! ip))
               + 1) MAX_SUSPICIOUS_ATTEMPTS) as [_|Hlt]; [|lia].
  unfold blockIP, DatabaseManager.blockIP, insertIPBlock. simpl.
  rewrite lookup_insert_eq. eexists. split; [reflexivity|].
  by destruct (ip_blocks (db st) !! ip).
Qed.

Lemma ipBlockMiddleware_active req now st row :
  ip_blocks (db st) !! req_ip req = Some row →
  now ≤ blocked_until row →
  (ipBlockMiddleware req now st).1
  = respond (mkResponse 429 false
      "Accesso temporaneamente sospeso. Riprova più tardi."
      None).
Proof.
  intros Hrow Hact. unfold ipBlockMiddleware, isIPBlocked.
  destruct (BlockFacts.isIPBlocked_active (req_ip req) now (db st) row Hrow
              Hact) as [Hres _].
  destruct (DatabaseManager.isIPBlocked (req_ip req) now (db st)) as [r d].
  simpl in Hres. by rewrite Hres.
Qed.

Lemma ipBlockMiddleware_expired req now st row :
  ip_blocks (db st) !! req_ip req = Some row →
  blocked_until row < now →
  (ipBlockMiddleware req now st).1 = next
  ∧ ip_blocks (db (ipBlockMiddleware req now st).2) !! req_ip req = None.
Proof.
  intros Hrow Hexp. unfold ipBlockMiddleware, isIPBlocked.
  destruct (BlockFacts.isIPBlocked_expired (req_ip req) now (db st) row Hrow
              Hexp) as [Hres Hdel].
  destruct (DatabaseManager.isIPBlocked (req_ip req) now (db st)) as [r d].
  simpl in Hres, Hdel. rewrite Hres. simpl. split; [done|].
  rewrite Hdel. apply lookup_delete_eq.
Qed.

Lemma ipBlockMiddleware_unknown req now st :
  ip_blocks (db st) !! req_ip req = None →
  ipBlockMiddleware req now st
  = (next, with_db (record (Stmt_getIPBlock (req_ip req)) (db st)) st).
Proof.
  intros Hno. unfold ipBlockMiddleware, isIPBlocked,
    DatabaseManager.isIPBlocked, getIPBlock. simpl. by rewrite Hno.
Qed.

(** X6.  Once the count of suspicious attempts of an address reaches
    [MAX_SUSPICIOUS_ATTEMPTS], [ipBlockMiddleware] answers every request
    from it with 429 for the next thirty minutes; the first request after
    that passes, and the record is gone. *)
Theorem escalation_closes_the_door req now st :
  MAX_SUSPICIOUS_ATTEMPTS
    ≤ attempt_count (default (mkAttempts 0 0) (ipAttempts st !! req_ip req))
      + 1 →
  let st1 := (incrementSuspiciousAttempts (req_ip req) now st).2 in
  (∀ t, t ≤ now + 1800000 →
        (ipBlockMiddleware req t st1).1
        = respond (mkResponse 429 false
                     "Accesso temporaneamente sospeso. Riprova più tardi."
                     None))
  ∧ (∀ t, now + 1800000 < t →
          (ipBlockMiddleware req t st1).1 = next
          ∧ ip_blocks (db (ipBlockMiddleware req t st1).2) !! req_ip req
            = None).
Proof.
  intros Hge st1. subst st1.
  destruct (escalation_row (req_ip req) now st Hge) as (row & Hrow & Huntil).
  split; intros t Ht.
  - apply (ipBlockMiddleware_active _ _ _ row Hrow). lia.
  - apply (ipBlockMiddleware_expired _ _ _ row Hrow). lia.
Qed.

Lemma escalation_closes_the_door_witness :
  let st1 :=
    (incrementSuspiciousAttempts (req_ip Scenarios.submission) 5000
       Examples.four_strikes).2 in
  (∀ t, t ≤ 5000 + 1800000 →
        (ipBlockMiddleware Scenarios.submission t st1).1
        = respond (mkResponse 429 false
                     "Accesso temporaneamente sospeso. Riprova più tardi."
                     None))
  ∧ (∀ t, 5000 + 1800000 < t →
          (ipBlockMiddleware Scenarios.submission t st1).1 = next
          ∧ ip_blocks (db (ipBlockMiddleware Scenarios.submission t st1).2)
              !! req_ip Scenarios.submission
            = None).
Proof.
  apply (escalation_closes_the_door Scenarios.submission 5000
           Examples.four_strikes).
  by vm_compute.
Defined.

Section Admin.
Variable validateAdminKey : option string → bool.

(** X7.  What the admin routes answer.  A valid key passes and leaves
    the server as it was.  An invalid key is counted against the address:
    below [MAX_SUSPICIOUS_ATTEMPTS] the answer is 401 and one security
    event is logged; from the attempt that reaches it the answer is 429,
    the address is blocked for thirty minutes, and the block is logged
    after the event. *)
Theorem admin_auth_outcomes req now st :
  let counted :=
    attempt_count (default (mkAttempts 0 0) (ipAttempts st !! req_ip req))
    + 1 in
  let out := adminAuthMiddleware validateAdminKey req now st in
  (validateAdminKey (admin_key req) = true → out = (next, st))
  ∧ (validateAdminKey (admin_key req) = false →
       ipAttempts out.2 !! req_ip req = Some (mkAttempts counted now)
       ∧ (counted < MAX_SUSPICIOUS_ATTEMPTS →
            out.1 = respond (mkResponse 401 false "Non autorizzato" None)
            ∧ ip_blocks (db out.2) = ip_blocks (db st)
            ∧ map log_action (admin_logs (db out.2))
              = map log_action (admin_logs (db st)) ++ ["security_event"])
       ∧ (MAX_SUSPICIOUS_ATTEMPTS ≤ counted →
            out.1 = respond (mkResponse 429 false
                       "Troppi tentativi. Accesso bloccato temporaneamente."
                       None)
            ∧ blocked_until <$> ip_blocks (db out.2) !! req_ip req
              = Some (now + 1800000)
            ∧ map log_action (admin_logs (db out.2))
              = map log_action (admin_logs (db st))
                ++ ["security_event"; "ip_blocked"])).
Proof.
  intros counted out. subst counted out. unfold adminAuthMiddleware.
  destruct (validateAdminKey (admin_key req)); split; try done.
  intros _. unfold incrementSuspiciousAttempts, logSuspiciousActivity.
  simpl.
  destruct (Z.geb_spec
              (attempt_count
                 (default (mkAttempts 0 0) (ipAttempts st !! req_ip req)) + 1)
              MAX_SUSPICIOUS_ATTEMPTS) as [Hge|Hlt]; simpl.
  - rewrite lookup_insert_eq. split; [done|]. split; [intros; lia|].
    intros _. split; [done|]. rewrite lookup_insert_eq. split.
    + by destruct (ip_blocks (db st) !! req_ip req).
    + rewrite !map_app. simpl. by rewrite <- app_assoc.
  - rewrite lookup_insert_eq. split; [done|]. split; [|intros; lia].
    intros _. by rewrite map_app.
Qed.
End Admin.

Lemma sweep_lookup now st ip :
  ipAttempts (sweep now st) !! ip
  = match ipAttempts st !! ip with
    | Some a => if decide (3600000 < now - lastAttempt a) then None else Some a
    | None => None
    end.
Proof.
  unfold sweep. simpl. rewrite map_lookup_filter.
  destruct (ipAttempts st !! ip) as [a|]; simpl; [|done].
  case_decide.
  - rewrite option_guard_False; [done|]. simpl. tauto.
  - by rewrite option_guard_True.
Qed.

(** X8.  The periodic sweep forgets exactly the addresses whose last
    suspicious attempt lies more than an hour back: such an address starts
    again from a count of one, however many attempts it had; a more recent
    counter is kept as it is. *)
Theorem sweep_forgets_only_idle_addresses ip a now later st :
  ipAttempts st !! ip = Some a →
  let swept := sweep now st in
  let call := incrementSuspiciousAttempts ip later swept in
  (3600000 < now - lastAttempt a →
   ipAttempts swept !! ip = None
   ∧ call.1 = false
   ∧ ipAttempts call.2 !! ip = Some (mkAttempts 1 later))
  ∧ (now - lastAttempt a ≤ 3600000 →
     ipAttempts swept !! ip = Some a
     ∧ ipAttempts call.2 !! ip
       = Some (mkAttempts (attempt_count a + 1) later)).
Proof.
  intros Ha swept call. subst swept call.
  pose proof (sweep_lookup now st ip) as Hl. rewrite Ha in Hl.
  split; intros Hage.
  - rewrite decide_True in Hl by done.
    split; [done|]. unfold incrementSuspiciousAttempts. rewrite Hl. simpl.
    split; [done|]. by rewrite lookup_insert_eq.
  - rewrite decide_False in Hl by lia.
    split; [done|]. unfold incrementSuspiciousAttempts. rewrite Hl. simpl.
    destruct (_ >=? _); simpl; by rewrite lookup_insert_eq.
Qed.

Lemma sweep_forgets_only_idle_addresses_witness :
  let swept := sweep 3600001 Examples.four_strikes in
  let call := incrementSuspiciousAttempts "203.0.113.7" 3600500 swept in
  (3600000 < 3600001 - lastAttempt (mkAttempts 4 0) →
   ipAttempts swept !! "203.0.113.7" = None
   ∧ call.1 = false
   ∧ ipAttempts call.2 !! "203.0.113.7" = Some (mkAttempts 1 3600500))
  ∧ (3600001 - lastAttempt (mkAttempts 4 0) ≤ 3600000 →
     ipAttempts swept !! "203.0.113.7" = Some (mkAttempts 4 0)
     ∧ ipAttempts call.2 !! "203.0.113.7"
       = Some (mkAttempts (attempt_count (mkAttempts 4 0) + 1) 3600500)).
Proof.
  apply (sweep_forgets_only_idle_addresses "203.0.113.7" (mkAttempts 4 0)
           3600001 3600500 Examples.four_strikes).
  reflexivity.
Defined.

End EscalationFacts.

(** ** Reading and deleting registrations *)

Module ModerationFacts.
Import DatabaseManager Moderation.

(** C10, as stated, fails on the word permanently.  A second registration with
    the captain email of the stored one is rejected; the stored one is then
    deleted, as the admin's DELETE route does through [deleteIscrizione];
    after that a registration with the same email is accepted and
    stored. *)
Lemma deleted_registration_frees_the_email :
  let rejected :=
    createIscrizione "id-0002" Scenarios.rossi_again
      Scenarios.one_registration in
  let deletion := deleteIscrizione "id-0001" rejected.2 in
  let again := createIscrizione "id-0003" Scenarios.rossi_again deletion.2 in
  email_capitano Scenarios.rossi = emailCapitano Scenarios.rossi_again
  ∧ rejected.1
    = Returned (mkCreateResult false None None (Some email_taken))
  ∧ deletion.1 = true
  ∧ success <$> (match again.1 with
                 | Returned r => Some r
                 | Thrown _ => None
                 end) = Some true
  ∧ map (λ row, (id row, email_capitano row)) (iscrizioni again.2)
    = [("id-0003", "mario.rossi@example.org")].
Proof. vm_compute. repeat split; congruence. Qed.

Lemma existsb_has_id_false i rows :
  existsb (has_id i) rows = false ↔ i ∉ map id rows.
Proof.
  induction rows as [|r rows IH]; simpl.
  - split; [intros _; apply not_elem_of_nil | done].
  - rewrite orb_false_iff, IH, not_elem_of_cons. unfold has_id.
    rewrite bool_decide_eq_false. split; intros [? ?]; split; congruence.
Qed.

Lemma existsb_has_email_false e rows :
  existsb (has_email e) rows = false ↔ e ∉ map email_capitano rows.
Proof.
  induction rows as [|r rows IH]; simpl.
  - split; [intros _; apply not_elem_of_nil | done].
  - rewrite orb_false_iff, IH, not_elem_of_cons. unfold has_email.
    rewrite bool_decide_eq_false. split; intros [? ?]; split; congruence.
Qed.





Lemma createIscrizione_fresh uuid data db :
  ¬ email_registered (emailCapitano data) db →
  id_unused uuid db →
  let call := createIscrizione uuid data db in
  ∃ row,
    call.1 = Returned (mkCreateResult true (Some uuid) (Some row) None)
    ∧ iscrizioni call.2 = iscrizioni db ++ [row]
    ∧ (getIscrizioneById uuid call.2).1 = Some row
    ∧ getIscrizioneByEmail (emailCapitano data) call.2 = Some row
    ∧ id row = uuid
    ∧ email_capitano row = emailCapitano data
    ∧ nome_squadra row = nomeSquadra data
    ∧ status row = "pending"
    ∧ numero_giocatori row
      = match numeroGiocatori data with
        | Some n => if n =? 0 then 11 else n
        | None => 11
        end.
Proof.
  intros Hnew Hfresh call. subst call.
  assert (Hi : existsb (has_id uuid) (iscrizioni db) = false).
  { apply existsb_has_id_false. intros Hin.
    apply list_elem_of_fmap in Hin as (r & Hr & Hin). by apply (Hfresh r). }
  assert (He : existsb (has_email (emailCapitano data)) (iscrizioni db)
               = false).
  { apply existsb_has_email_false. intros Hin.
    apply list_elem_of_fmap in Hin as (r & Hr & Hin). apply Hnew.
    by exists r. }
  assert (Hfind : ∀ (P : IscrizioneRow → bool) rows r,
            existsb P rows = false → P r = true →
            find P (rows ++ [r]) = Some r).
  { intros P rows r. induction rows as [|x rows IH]; simpl.
    - by intros _ ->.
    - rewrite orb_false_iff. intros [-> Hr] HP. by apply IH. }
  unfold createIscrizione, insertIscrizione, getIscrizioneById,
    getIscrizioneByEmail. simpl. rewrite Hi, He. simpl.
  set (row := mkIscrizioneRow _ _ _ _ _ _ _ _ _ _ _ _ _ _ _).
  assert (Hbyid : find (has_id uuid) (iscrizioni db ++ [row]) = Some row).
  { apply Hfind; [done|]. unfold has_id. by apply bool_decide_eq_true. }
  assert (Hbyemail : find (has_email (emailCapitano data))
                          (iscrizioni db ++ [row]) = Some row).
  { apply Hfind; [done|]. unfold has_email. by apply bool_decide_eq_true. }
  rewrite Hbyid, Hbyemail. exists row. by repeat split.
Qed.

(** X10.  A registration with a new id and an email not yet in the table
    is stored as the newest row, with status pending and 11 players when
    none or 0 are given; the result carries that row, and both
    [getIscrizioneById] and [getIscrizioneByEmail] find it. *)
Theorem created_registration_can_be_read_back uuid data db :
  ¬ email_registered (emailCapitano data) db →
  id_unused uuid db →
  let call := createIscrizione uuid data db in
  ∃ row,
    call.1 = Returned (mkCreateResult true (Some uuid) (Some row) None)
    ∧ iscrizioni call.2 = iscrizioni db ++ [row]
    ∧ (getIscrizioneById uuid call.2).1 = Some row
    ∧ getIscrizioneByEmail (emailCapitano data) call.2 = Some row
    ∧ id row = uuid
    ∧ email_capitano row = emailCapitano data
    ∧ nome_squadra row = nomeSquadra data
    ∧ status row = "pending"
    ∧ numero_giocatori row
      = match numeroGiocatori data with
        | Some n => if n =? 0 then 11 else n
        | None => 11
        end.
Proof. apply createIscrizione_fresh. Qed.

Lemma created_registration_can_be_read_back_witness :
  let call := createIscrizione "id-0002" Scenarios.rossi_again empty_db in
  ∃ row,
    call.1 = Returned (mkCreateResult true (Some "id-0002") (Some row) None)
    ∧ iscrizioni call.2 = iscrizioni empty_db ++ [row]
    ∧ (getIscrizioneById "id-0002" call.2).1 = Some row
    ∧ getIscrizioneByEmail (emailCapitano Scenarios.rossi_again) call.2
      = Some row
    ∧ id row = "id-0002"
    ∧ email_capitano row = emailCapitano Scenarios.rossi_again
    ∧ nome_squadra row = nomeSquadra Scenarios.rossi_again
    ∧ status row = "pending"
    ∧ numero_giocatori row
      = match numeroGiocatori Scenarios.rossi_again with
        | Some n => if n =? 0 then 11 else n
        | None => 11
        end.
Proof.
  apply (created_registration_can_be_read_back "id-0002"
           Scenarios.rossi_again empty_db).
  - intros (row & Hrow & _). simpl in Hrow. by apply elem_of_nil in Hrow.
  - intros row Hrow. simpl in Hrow. by apply elem_of_nil in Hrow.
Defined.

Lemma filter_other_ids i rows row :
  row ∈ List.filter (λ r, negb (has_id i r)) rows ↔ row ∈ rows ∧ id row ≠ i.
Proof.
  rewrite !list_elem_of_In, filter_In, negb_true_iff. unfold has_id.
  by rewrite bool_decide_eq_false.
Qed.

Lemma deleteIscrizione_spec i db :
  let call := deleteIscrizione i db in
  (call.1 = true ↔ i ∈ map id (iscrizioni db))
  ∧ (getIscrizioneById i call.2).1 = None
  ∧ (∀ row, row ∈ iscrizioni call.2 ↔ row ∈ iscrizioni db ∧ id row ≠ i)
  ∧ (i ∉ map id (iscrizioni db) → iscrizioni call.2 = iscrizioni db).
Proof.
  intros call. subst call. unfold deleteIscrizione, getIscrizioneById. simpl.
  assert (Hlen : ∀ rows,
            (length (List.filter (λ r, negb (has_id i r)) rows)
             ≤ length rows)%nat
            ∧ ((length (List.filter (λ r, negb (has_id i r)) rows)
                < length rows)%nat ↔ i ∈ map id rows)
            ∧ (i ∉ map id rows →
               List.filter (λ r, negb (has_id i r)) rows = rows)).
  { induction rows as [|r rows (IH1 & IH2 & IH3)]; simpl.
    - split; [lia|]. split; [|done]. split; [lia|].
      intros H. by apply elem_of_nil in H.
    - destruct (has_id i r) eqn:E; simpl; unfold has_id in E.
      + apply bool_decide_eq_true in E.
        split; [lia|]. split.
        * split; [intros _; rewrite E; apply list_elem_of_here | lia].
        * intros Hn. exfalso. apply Hn. rewrite E. apply list_elem_of_here.
      + apply bool_decide_eq_false in E.
        split; [lia|]. split.
        * rewrite <- Nat.succ_lt_mono, IH2, elem_of_cons.
          split; [by right | intros [Heq|Hin]; [by destruct E | done]].
        * intros Hn. apply not_elem_of_cons in Hn as [_ Hn].
          by rewrite IH3. }
  destruct (Hlen (iscrizioni db)) as (H1 & H2 & H3).
  split; [|split; [|split]].
  - rewrite Z.ltb_lt, <- H2. lia.
  - destruct (find _ _) as [r|] eqn:Hfind; [|done].
    apply find_some in Hfind as [Hr Hi].
    apply list_elem_of_In, filter_other_ids in Hr as [_ Hr].
    unfold has_id in Hi. by apply bool_decide_eq_true in Hi.
  - intros row. apply filter_other_ids.
  - done.
Qed.

(** X11.  [deleteIscrizione] reports true exactly when a row had the id;
    afterwards no row has it, the rows with other ids are those of before,
    and for an unknown id the table is unchanged. *)
Theorem deleteIscrizione_removes_the_row i db :
  let call := deleteIscrizione i db in
  (call.1 = true ↔ i ∈ map id (iscrizioni db))
  ∧ (getIscrizioneById i call.2).1 = None
  ∧ (∀ row, row ∈ iscrizioni call.2 ↔ row ∈ iscrizioni db ∧ id row ≠ i)
  ∧ (i ∉ map id (iscrizioni db) → iscrizioni call.2 = iscrizioni db).
Proof. apply deleteIscrizione_spec. Qed.

Lemma NoDup_map_inj {A B} (f : A → B) l a b :
  NoDup (map f l) → a ∈ l → b ∈ l → f a = f b → a = b.
Proof.
  induction l as [|x l IH]; simpl; [by intros _ H%elem_of_nil|].
  rewrite NoDup_cons, !elem_of_cons. intros [Hx Hl] [->|Ha] [->|Hb] Hf.
  - done.
  - exfalso. apply Hx. rewrite Hf. by apply list_elem_of_fmap_2.
  - exfalso. apply Hx. rewrite <- Hf. by apply list_elem_of_fmap_2.
  - by apply IH.
Qed.

Lemma deleting_frees_the_email uuid data row db :
  keys_unique db →
  row ∈ iscrizioni db →
  emailCapitano data = email_capitano row →
  id_unused uuid db →
  let deletion := deleteIscrizione (id row) db in
  let call := createIscrizione uuid data deletion.2 in
  deletion.1 = true
  ∧ email_registered (emailCapitano data) db
  ∧ ∃ stored,
      call.1 = Returned (mkCreateResult true (Some uuid) (Some stored) None)
      ∧ email_capitano stored = email_capitano row.
Proof.
  intros [Hid Hem] Hrow Hsame Hfresh deletion call. subst deletion call.
  destruct (deleteIscrizione_spec (id row) db)
    as (Hdel & _ & Hleft & _).
  split; [apply Hdel; by apply list_elem_of_fmap_2|].
  split; [by exists row|].
  destruct (createIscrizione_fresh uuid data (deleteIscrizione (id row) db).2)
    as (stored & Hres & _ & _ & _ & _ & Hmail & _).
  - intros (r & Hr & Hre). apply Hleft in Hr as [Hr Hne]. apply Hne.
    f_equal. apply (NoDup_map_inj email_capitano (iscrizioni db)); try done.
    congruence.
  - intros r Hr. apply Hleft in Hr as [Hr _]. by apply Hfresh.
  - exists stored. split; [done|]. congruence.
Qed.

(** X12.  Deleting a registration frees its email: while the row is
    stored the captain's email counts as registered; after
    [deleteIscrizione] of that row, [createIscrizione] with the same email
    and a new id succeeds. *)
Theorem deleted_email_can_register_again uuid data row db :
  keys_unique db →
  row ∈ iscrizioni db →
  emailCapitano data = email_capitano row →
  id_unused uuid db →
  let deletion := deleteIscrizione (id row) db in
  let call := createIscrizione uuid data deletion.2 in
  deletion.1 = true
  ∧ email_registered (emailCapitano data) db
  ∧ ∃ stored,
      call.1 = Returned (mkCreateResult true (Some uuid) (Some stored) None)
      ∧ email_capitano stored = email_capitano row.
Proof. apply deleting_frees_the_email. Qed.

Lemma deleted_email_can_register_again_witness :
  let deletion :=
    deleteIscrizione (id Scenarios.rossi) Scenarios.one_registration in
  let call := createIscrizione "id-0002" Scenarios.rossi_again deletion.2 in
  deletion.1 = true
  ∧ email_registered (emailCapitano Scenarios.rossi_again)
      Scenarios.one_registration
  ∧ ∃ stored,
      call.1
      = Returned (mkCreateResult true (Some "id-0002") (Some stored) None)
      ∧ email_capitano stored = email_capitano Scenarios.rossi.
Proof.
  apply (deleted_email_can_register_again "id-0002" Scenarios.rossi_again
           Scenarios.rossi Scenarios.one_registration).
  - split; apply NoDup_singleton.
  - apply list_elem_of_here.
  - reflexivity.
  - intros row Hrow. simpl in Hrow. apply list_elem_of_singleton in Hrow.
    by subst.
Defined.

(** C10, amended.  When the captain email of a registration equals the
    captain email of a stored registration, [createIscrizione] returns
    {success: false, error: 'Email già registrata'}, whatever id was drawn
    for it; no row is inserted and no table changes.  The outcome depends
    on the [iscrizioni] table alone: neither the clock nor the
    [rate_limits] table is consulted, and neither the gate nor the hourly
    cleanup of its table touches the registrations, so the rejection
    outlasts every rate-limit window and repeats for as long as the stored
    registration stays in the table.  It ends when that registration is
    deleted: in a table with unique keys, after [deleteIscrizione] of the
    stored registration a registration with the same email and an unused
    id is accepted. *)
Theorem duplicate_email_is_rejected uuid data db :
  email_registered (emailCapitano data) db →
  let call := createIscrizione uuid data db in
  call.1 = Returned (mkCreateResult false None None (Some email_taken))
  ∧ iscrizioni call.2 = iscrizioni db
  ∧ rate_limits call.2 = rate_limits db
  ∧ ip_blocks call.2 = ip_blocks db
  ∧ admin_logs call.2 = admin_logs db
  ∧ analytics_form call.2 = analytics_form db
  ∧ email_registered (emailCapitano data) call.2
  ∧ (∀ limits, let call' := createIscrizione uuid data
                              (set_rate_limits limits db) in
               call'.1 = call.1 ∧ iscrizioni call'.2 = iscrizioni db)
  ∧ (∀ key maxRequests windowMs now later,
       let gate := checkRateLimit key maxRequests windowMs now db in
       let swept := cleanupRateLimits later gate.2 in
       (createIscrizione uuid data gate.2).1 = call.1
       ∧ (createIscrizione uuid data swept.2).1 = call.1)
  ∧ (∀ row uuid',
       keys_unique db →
       row ∈ iscrizioni db →
       email_capitano row = emailCapitano data →
       id_unused uuid' db →
       let deletion := deleteIscrizione (id row) db in
       deletion.1 = true
       ∧ ∃ stored,
           (createIscrizione uuid' data deletion.2).1
           = Returned (mkCreateResult true (Some uuid') (Some stored) None)
           ∧ email_capitano stored = emailCapitano data).
Proof.
  intros Hdup call. subst call.
  rewrite (RegistrationFacts.createIscrizione_duplicate uuid data db Hdup).
  simpl.
  split; [done|]. split; [done|]. split; [done|]. split; [done|].
  split; [done|]. split; [done|]. split; [done|]. split; [|split].
  - intros limits.
    by rewrite (RegistrationFacts.createIscrizione_duplicate uuid data
                  (set_rate_limits limits db) Hdup).
  - intros key maxRequests windowMs now later.
    assert (Hgate : iscrizioni
                      (checkRateLimit key maxRequests windowMs now db).2
                    = iscrizioni db).
    { unfold checkRateLimit, getRateLimit, upsertRateLimit, resetRateLimit.
      simpl. destruct (rate_limits db !! key) as [row|]; simpl; [|done].
      destruct (window_start row <? now - windowMs); simpl; [done|].
      by destruct (count row >=? maxRequests). }
    split.
    + rewrite RegistrationFacts.createIscrizione_duplicate; [done|].
      unfold email_registered. by rewrite Hgate.
    + rewrite RegistrationFacts.createIscrizione_duplicate; [done|].
      unfold email_registered, cleanupRateLimits. simpl. by rewrite Hgate.
  - intros row uuid' Hkeys Hrow Hsame Hfresh. cbv zeta.
    destruct (deleting_frees_the_email uuid' data row db Hkeys Hrow
                (eq_sym Hsame) Hfresh) as (Hdel & _ & stored & Hres & Hmail).
    split; [done|]. exists stored. split; [done|]. congruence.
Qed.

Lemma duplicate_email_is_rejected_witness :
  let db := Scenarios.one_registration in
  let call := createIscrizione "id-0001" Scenarios.rossi_again db in
  let deletion := deleteIscrizione "id-0001" db in
  id Scenarios.rossi = "id-0001"
  ∧ call.1 = Returned (mkCreateResult false None None (Some email_taken))
  ∧ iscrizioni call.2 = [Scenarios.rossi]
  ∧ (∀ key maxRequests windowMs now later,
       (createIscrizione "id-0001" Scenarios.rossi_again
          (cleanupRateLimits later
             (checkRateLimit key maxRequests windowMs now db).2).2).1
       = call.1)
  ∧ deletion.1 = true
  ∧ ∃ stored,
      (createIscrizione "id-0002" Scenarios.rossi_again deletion.2).1
      = Returned (mkCreateResult true (Some "id-0002") (Some stored) None).
Proof.
  destruct (duplicate_email_is_rejected "id-0001" Scenarios.rossi_again
              Scenarios.one_registration)
    as (Hres & Hrows & _ & _ & _ & _ & _ & _ & Hlater & Hfree).
  { exists Scenarios.rossi. split; [apply list_elem_of_here | reflexivity]. }
  split; [reflexivity|]. split; [exact Hres|]. split; [exact Hrows|].
  split.
  { intros key maxRequests windowMs now later.
    apply (Hlater key maxRequests windowMs now later). }
  destruct (Hfree Scenarios.rossi "id-0002") as (Hdel & stored & Hok & _).
  - split; apply NoDup_singleton.
  - apply list_elem_of_here.
  - reflexivity.
  - intros row Hrow. simpl in Hrow. apply list_elem_of_singleton in Hrow.
    by subst.
  - split; [exact Hdel|]. by exists stored.
Defined.

End ModerationFacts.

(** ** The mail service *)

Module EmailFacts.
Import Stdlib.Strings.Ascii EmailService.

Section Transport.
Variable smtp : nat → Outcome.

Lemma sendWithRetry_unfold svc options retries trace :
  sendWithRetry smtp svc options retries trace
  = let '(result, trace1) := send smtp svc options trace in
    if negb (success result) && bool_decide (retries < maxRetries svc)%nat
    then sendWithRetry smtp svc options (S retries)
           (trace1 ++ [Delay (retryDelay svc * 2 ^ Z.of_nat retries)])
    else (result, trace1).
Proof.
  simp sendWithRetry. destruct (send smtp svc options trace) as [result trace1].
  simpl. unfold sendWithRetry_unfold_clause_1_clause_1.
  destruct (success result) eqn:Hs;
    destruct (decide (retries < maxRetries svc)%nat) as [Hlt|Hge];
    simpl; rewrite ?Hs; simpl.
  - done.
  - done.
  - by rewrite bool_decide_eq_true_2.
  - by rewrite bool_decide_eq_false_2.
Qed.

Lemma calls_SendMail trace options :
  calls (trace ++ [SendMail options]) = S (calls trace).
Proof. unfold calls. rewrite List.filter_app, length_app. simpl. lia. Qed.

Lemma calls_Delay trace ms : calls (trace ++ [Delay ms]) = calls trace.
Proof. unfold calls. rewrite List.filter_app, length_app. simpl. lia. Qed.

Lemma waited_app t1 t2 : waited (t1 ++ t2) = waited t1 + waited t2.
Proof.
  unfold waited. induction t1 as [|[o|ms] t1 IH]; simpl; [done| |]; lia.
Qed.

Lemma waited_attempts svc options r d :
  waited (flat_map (λ k, [SendMail options;
                          Delay (retryDelay svc * 2 ^ Z.of_nat k)])
                   (seq r d))
  = retryDelay svc * (2 ^ Z.of_nat (r + d) - 2 ^ Z.of_nat r).
Proof.
  revert r. induction d as [|d IH]; intros r; simpl.
  - rewrite Nat.add_0_r. lia.
  - change (waited (SendMail options :: ?t)) with (waited t).
    change (waited (Delay ?ms :: ?t)) with (ms + waited t).
    rewrite IH. replace (r + S d)%nat with (S r + d)%nat by lia.
    replace (Z.of_nat (S r + d)) with (Z.of_nat (r + d) + 1) by lia.
    replace (Z.of_nat (S r)) with (Z.of_nat r + 1) by lia.
    rewrite !Z.pow_add_r by lia. lia.
Qed.

Lemma waited_delays svc r d :
  waited (map (λ k, Delay (retryDelay svc * 2 ^ Z.of_nat k)) (seq r d))
  = retryDelay svc * (2 ^ Z.of_nat (r + d) - 2 ^ Z.of_nat r).
Proof.
  revert r. induction d as [|d IH]; intros r; simpl.
  - rewrite Nat.add_0_r. lia.
  - change (waited (Delay ?ms :: ?t)) with (ms + waited t).
    rewrite IH. replace (r + S d)%nat with (S r + d)%nat by lia.
    replace (Z.of_nat (S r + d)) with (Z.of_nat (r + d) + 1) by lia.
    replace (Z.of_nat (S r)) with (Z.of_nat r + 1) by lia.
    rewrite !Z.pow_add_r by lia. lia.
Qed.

Lemma calls_attempts svc options r d :
  calls (flat_map (λ k, [SendMail options;
                         Delay (retryDelay svc * 2 ^ Z.of_nat k)])
                  (seq r d))
  = d.
Proof.
  unfold calls. revert r. induction d as [|d IH]; intros r; simpl; [done|].
  by rewrite IH.
Qed.

Lemma calls_delays svc r d :
  calls (map (λ k, Delay (retryDelay svc * 2 ^ Z.of_nat k)) (seq r d)) = 0%nat.
Proof.
  unfold calls. revert r. induction d as [|d IH]; intros r; simpl; [done|].
  apply IH.
Qed.

Lemma retry_until_accepted svc options m n :
  transporter svc = true →
  (n ≤ maxRetries svc)%nat →
  smtp n = Accepted m →
  ∀ d r trace,
    n = (r + d)%nat →
    calls trace = r →
    (∀ k, (r ≤ k < n)%nat → ∃ e, smtp k = Rejected e) →
    sendWithRetry smtp svc options r trace
    = (mkResult true (Some m) None,
       trace
       ++ flat_map (λ k, [SendMail options;
                          Delay (retryDelay svc * 2 ^ Z.of_nat k)])
                   (seq r d)
       ++ [SendMail options]).
Proof.
  intros Hcfg Hn Hok. induction d as [|d IH]; intros r trace Hr Hcalls Hrej.
  - rewrite sendWithRetry_unfold. unfold send. rewrite Hcfg. simpl.
    rewrite Hcalls. replace r with n by lia. by rewrite Hok.
  - rewrite sendWithRetry_unfold. unfold send. rewrite Hcfg. simpl.
    rewrite Hcalls. destruct (Hrej r) as [e He]; [lia|]. rewrite He. simpl.
    rewrite bool_decide_eq_true_2 by lia.
    rewrite (IH (S r)); [|lia| |].
    + by rewrite <- !app_assoc.
    + by rewrite calls_Delay, calls_SendMail, Hcalls.
    + intros k Hk. apply Hrej. lia.
Qed.

Lemma retry_until_given_up svc options e :
  transporter svc = true →
  smtp (maxRetries svc) = Rejected e →
  ∀ d r trace,
    maxRetries svc = (r + d)%nat →
    calls trace = r →
    (∀ k, (r ≤ k < maxRetries svc)%nat → ∃ e', smtp k = Rejected e') →
    sendWithRetry smtp svc options r trace
    = (mkResult false None (Some e),
       trace
       ++ flat_map (λ k, [SendMail options;
                          Delay (retryDelay svc * 2 ^ Z.of_nat k)])
                   (seq r d)
       ++ [SendMail options]).
Proof.
  intros Hcfg Hlast. induction d as [|d IH]; intros r trace Hr Hcalls Hrej.
  - rewrite sendWithRetry_unfold. unfold send. rewrite Hcfg. simpl.
    rewrite Hcalls. replace r with (maxRetries svc) by lia. rewrite Hlast.
    simpl. by rewrite bool_decide_eq_false_2 by lia.
  - rewrite sendWithRetry_unfold. unfold send. rewrite Hcfg. simpl.
    rewrite Hcalls. destruct (Hrej r) as [e' He]; [lia|]. rewrite He. simpl.
    rewrite bool_decide_eq_true_2 by lia.
    rewrite (IH (S r)); [|lia| |].
    + by rewrite <- !app_assoc.
    + by rewrite calls_Delay, calls_SendMail, Hcalls.
    + intros k Hk. apply Hrej. lia.
Qed.

Lemma retry_unconfigured svc options :
  transporter svc = false →
  ∀ d r trace,
    maxRetries svc = (r + d)%nat →
    sendWithRetry smtp svc options r trace
    = (mkResult false None (Some "Email service not configured"),
       trace
       ++ map (λ k, Delay (retryDelay svc * 2 ^ Z.of_nat k)) (seq r d)).
Proof.
  intros Hcfg. induction d as [|d IH]; intros r trace Hr.
  - rewrite sendWithRetry_unfold. unfold send. rewrite Hcfg. simpl.
    rewrite bool_decide_eq_false_2 by lia. by rewrite app_nil_r.
  - rewrite sendWithRetry_unfold. unfold send. rewrite Hcfg. simpl.
    rewrite bool_decide_eq_true_2 by lia.
    rewrite (IH (S r)) by lia. by rewrite <- !app_assoc.
Qed.

(** X13.  A mail the server accepts at attempt [n] (counting from 0, at most
    [maxRetries]) after rejecting the earlier ones is reported as sent with
    that message id; [sendMail] was called [n + 1] times, attempt [k] was
    followed by a pause of [retryDelay * 2^k], and nothing happens after
    the accepted attempt. *)
Theorem first_accepted_attempt_ends_the_retries svc options m n :
  transporter svc = true →
  (n ≤ maxRetries svc)%nat →
  (∀ k, (k < n)%nat → ∃ e, smtp k = Rejected e) →
  smtp n = Accepted m →
  let call := sendWithRetry smtp svc options 0 [] in
  call.1 = mkResult true (Some m) None
  ∧ call.2
    = flat_map (λ k, [SendMail options;
                      Delay (retryDelay svc * 2 ^ Z.of_nat k)])
               (seq 0 n)
      ++ [SendMail options]
  ∧ calls call.2 = S n
  ∧ waited call.2 = retryDelay svc * (2 ^ Z.of_nat n - 1).
Proof.
  intros Hcfg Hn Hrej Hok call. subst call.
  rewrite (retry_until_accepted svc options m n Hcfg Hn Hok n 0%nat [])
    by first [done | intros k Hk; apply Hrej; lia].
  simpl. split; [done|]. split; [done|]. split.
  - rewrite calls_SendMail, calls_attempts. done.
  - rewrite waited_app, waited_attempts. simpl.
    change (waited [SendMail options]) with 0. lia.
Qed.

(** X14.  A mail the server rejects at every attempt is given up after
    [maxRetries + 1] calls of [sendMail]; the caller gets the error of the
    last attempt, after pauses of [retryDelay * (2^maxRetries - 1)] in
    all. *)
Theorem rejected_mail_is_given_up svc options e :
  transporter svc = true →
  (∀ k, (k < maxRetries svc)%nat → ∃ e', smtp k = Rejected e') →
  smtp (maxRetries svc) = Rejected e →
  let call := sendWithRetry smtp svc options 0 [] in
  call.1 = mkResult false None (Some e)
  ∧ calls call.2 = S (maxRetries svc)
  ∧ waited call.2 = retryDelay svc * (2 ^ Z.of_nat (maxRetries svc) - 1)
  ∧ last call.2 = Some (SendMail options).
Proof.
  intros Hcfg Hrej Hlast call. subst call.
  rewrite (retry_until_given_up svc options e Hcfg Hlast
             (maxRetries svc) 0%nat [])
    by first [done | intros k Hk; apply Hrej; lia].
  simpl. split; [done|]. split; [|split].
  - rewrite calls_SendMail, calls_attempts. done.
  - rewrite waited_app, waited_attempts. simpl.
    change (waited [SendMail options]) with 0. lia.
  - by rewrite last_snoc.
Qed.

(** X15.  Without a transporter [sendWithRetry] never calls [sendMail], yet it
    goes through all the pauses of the backoff before it reports that the
    service is not configured. *)
Theorem unconfigured_service_waits_for_nothing svc options :
  transporter svc = false →
  let call := sendWithRetry smtp svc options 0 [] in
  call.1 = mkResult false None (Some "Email service not configured")
  ∧ call.2
    = map (λ k, Delay (retryDelay svc * 2 ^ Z.of_nat k))
          (seq 0 (maxRetries svc))
  ∧ calls call.2 = 0%nat
  ∧ waited call.2 = retryDelay svc * (2 ^ Z.of_nat (maxRetries svc) - 1).
Proof.
  intros Hcfg call. subst call.
  rewrite (retry_unconfigured svc options Hcfg (maxRetries svc) 0%nat [])
    by done.
  simpl. split; [done|]. split; [done|]. split.
  - apply calls_delays.
  - rewrite waited_delays. simpl. lia.
Qed.

End Transport.

Lemma first_accepted_attempt_ends_the_retries_witness :
  let call :=
    sendWithRetry Examples.greylisting (EmailService true)
      Examples.confirmation 0 [] in
  call.1 = mkResult true (Some "<0001@libero.it>") None
  ∧ call.2
    = flat_map (λ k, [SendMail Examples.confirmation;
                      Delay (retryDelay (EmailService true)
                             * 2 ^ Z.of_nat k)])
               (seq 0 2)
      ++ [SendMail Examples.confirmation]
  ∧ calls call.2 = 3%nat
  ∧ waited call.2 = retryDelay (EmailService true) * (2 ^ Z.of_nat 2 - 1).
Proof.
  apply (first_accepted_attempt_ends_the_retries Examples.greylisting
           (EmailService true) Examples.confirmation "<0001@libero.it>" 2).
  - reflexivity.
  - simpl. lia.
  - intros k Hk. exists "451 try again later".
    destruct k as [|[|k]]; [reflexivity | reflexivity | lia].
  - reflexivity.
Defined.

Lemma rejected_mail_is_given_up_witness :
  let call :=
    sendWithRetry Examples.unreachable (EmailService true)
      Examples.confirmation 0 [] in
  call.1 = mkResult false None (Some "connect ETIMEDOUT")
  ∧ calls call.2 = S (maxRetries (EmailService true))
  ∧ waited call.2
    = retryDelay (EmailService true)
      * (2 ^ Z.of_nat (maxRetries (EmailService true)) - 1)
  ∧ last call.2 = Some (SendMail Examples.confirmation).
Proof.
  apply (rejected_mail_is_given_up Examples.unreachable (EmailService true)
           Examples.confirmation "connect ETIMEDOUT").
  - reflexivity.
  - intros k _. by exists "connect ETIMEDOUT".
  - reflexivity.
Defined.

Lemma unconfigured_service_waits_for_nothing_witness :
  let call :=
    sendWithRetry Examples.unreachable (EmailService false)
      Examples.confirmation 0 [] in
  call.1 = mkResult false None (Some "Email service not configured")
  ∧ call.2
    = map (λ k, Delay (retryDelay (EmailService false) * 2 ^ Z.of_nat k))
          (seq 0 (maxRetries (EmailService false)))
  ∧ calls call.2 = 0%nat
  ∧ waited call.2
    = retryDelay (EmailService false)
      * (2 ^ Z.of_nat (maxRetries (EmailService false)) - 1).
Proof.
  apply (unconfigured_service_waits_for_nothing Examples.unreachable
           (EmailService false) Examples.confirmation).
  reflexivity.
Defined.

Lemma markup_free_app a b :
  Forall (λ c, c ∉ markup) (String.list_ascii_of_string a) →
  Forall (λ c, c ∉ markup) (String.list_ascii_of_string b) →
  Forall (λ c, c ∉ markup) (String.list_ascii_of_string (a +:+ b)).
Proof.
  induction a as [|c a IH]; simpl; [done|].
  intros Ha Hb. apply Forall_cons in Ha as [Hc Ha].
  apply Forall_cons. split; [done|]. by apply IH.
Qed.

(** X16.  The text [escapeHtml] returns holds no angle bracket and no
    quote, whatever it was given; a text without any of the five special
    characters comes back unchanged. *)
Theorem escapeHtml_leaves_no_markup text :
  Forall (λ c, c ∉ markup) (String.list_ascii_of_string (escapeHtml text))
  ∧ (Forall (λ c, c ∉ "&"%char :: markup) (String.list_ascii_of_string text) →
     escapeHtml text = text).
Proof.
  split.
  - induction text as [|c text IH]; simpl; [constructor|].
    unfold htmlEntities.
    repeat (match goal with
            | |- context [Ascii.eqb c ?x] => destruct (Ascii.eqb c x) eqn:?
            end;
            [ cbv iota; apply markup_free_app; [|done];
              simpl;
              repeat (apply Forall_cons; split;
                      [ unfold markup; rewrite !not_elem_of_cons;
                        repeat split; [done..|apply not_elem_of_nil] |]);
              constructor
            | ]).
    simpl. apply Forall_cons. split; [|done].
    unfold markup. rewrite !not_elem_of_cons.
    repeat match goal with H : Ascii.eqb _ _ = false |- _ =>
      apply Ascii.eqb_neq in H end.
    repeat split; try done. apply not_elem_of_nil.
  - induction text as [|c text IH]; simpl; [done|].
    intros H. apply Forall_cons in H as [Hc H].
    unfold markup in Hc. rewrite !not_elem_of_cons in Hc.
    destruct Hc as (H1 & H2 & H3 & H4 & H5 & _).
    unfold htmlEntities.
    rewrite !(proj2 (Ascii.eqb_neq _ _)) by done.
    by rewrite IH.
Qed.
End EmailFacts.

(** ** The landing page *)

Module LandingFacts.
Import Landing.

(** X17.  Before the date the countdown shows the remaining time cut
    down to whole seconds: hours below 24, minutes and seconds below 60,
    nothing negative, and days, hours, minutes and seconds together are
    the remaining time to within less than a second. *)
Theorem countdown_splits_the_remaining_time tournamentDate now :
  now ≤ tournamentDate →
  ∃ d h m s,
    updateCountdown tournamentDate now = Remaining d h m s
    ∧ 0 ≤ d ∧ 0 ≤ h < 24 ∧ 0 ≤ m < 60 ∧ 0 ≤ s < 60
    ∧ let total := ((d * 24 + h) * 60 + m) * 60 + s in
      1000 * total ≤ tournamentDate - now < 1000 * total + 1000.
Proof.
  intros Hle. unfold updateCountdown.
  destruct (Z.ltb_spec (tournamentDate - now) 0) as [|_]; [lia|].
  set (distance := tournamentDate - now). assert (0 ≤ distance) by lia.
  clearbody distance.
  rewrite !Z.rem_mod_nonneg by lia.
  eexists _, _, _, _. split; [reflexivity|].
  cbv zeta.
  change (1000 * 60 * 60 * 24) with 86400000.
  change (1000 * 60 * 60) with 3600000.
  change (1000 * 60) with 60000.
  Z.to_euclidean_division_equations. lia.
Qed.

Lemma countdown_splits_the_remaining_time_witness :
  ∃ d h m s,
    updateCountdown 1780297200000 1780207138999 = Remaining d h m s
    ∧ 0 ≤ d ∧ 0 ≤ h < 24 ∧ 0 ≤ m < 60 ∧ 0 ≤ s < 60
    ∧ let total := ((d * 24 + h) * 60 + m) * 60 + s in
      1000 * total ≤ 1780297200000 - 1780207138999 < 1000 * total + 1000.
Proof.
  apply (countdown_splits_the_remaining_time 1780297200000 1780207138999).
  lia.
Defined.

Lemma handlePieceClick_invariant piece st :
  (piece < Z.to_nat PUZZLE_PIECES)%nat →
  puzzleCompleted st = false →
  flipped st ⊆ grid →
  flippedPieces st = Z.of_nat (size (flipped st)) →
  assemblies st = (if decide (flipped st = grid) then 1 else 0)%nat →
  let st' := handlePieceClick piece st in
  puzzleCompleted st' = false
  ∧ flipped st' = {[piece]} ∪ flipped st
  ∧ flipped st' ⊆ grid
  ∧ flippedPieces st' = Z.of_nat (size (flipped st'))
  ∧ assemblies st' = (if decide (flipped st' = grid) then 1 else 0)%nat.
Proof.
  intros Hpiece Hc Hsub Hcount Hasm st'. subst st'.
  assert (Hgrid : size grid = 9%nat) by (unfold grid; by rewrite size_set_seq).
  assert (Hin : piece ∈ grid) by (unfold grid; apply elem_of_set_seq; lia).
  unfold handlePieceClick. rewrite Hc. simpl.
  destruct (decide (piece ∈ flipped st)) as [Hold|Hnew].
  - rewrite bool_decide_eq_true_2 by done.
    replace ({[piece]} ∪ flipped st) with (flipped st)
      by (symmetry; by apply subseteq_union_1_L, singleton_subseteq_l).
    done.
  - rewrite bool_decide_eq_false_2 by done.
    assert (Hsize : size ({[piece]} ∪ flipped st) = S (size (flipped st))).
    { rewrite size_union by (by apply disjoint_singleton_l).
      by rewrite size_singleton. }
    assert (Hsub' : {[piece]} ∪ flipped st ⊆ grid)
      by (apply union_subseteq; split;
          [by apply singleton_subseteq_l | done]).
    assert (Hnot : flipped st ≠ grid)
      by (intros Heq; apply Hnew; by rewrite Heq).
    destruct (decide (flipped st = grid)) as [|_]; [done|].
    unfold PUZZLE_PIECES. rewrite Hcount.
    destruct (Z.eqb_spec (Z.of_nat (size (flipped st)) + 1) 9) as [Hfull|Hpart];
      cbn [puzzleCompleted flipped flippedPieces scheduled];
      (split; [done|]); (split; [done|]); (split; [done|]);
      (split; [lia|]).
    + assert (Heq : {[piece]} ∪ flipped st = grid).
      { apply set_subseteq_size_eq; [done|]. rewrite Hgrid, Hsize. lia. }
      rewrite decide_True by done.
      unfold assemblies in *. cbn [scheduled].
      rewrite !List.filter_app, !length_app. simpl. lia.
    + assert (Hne : {[piece]} ∪ flipped st ≠ grid).
      { intros Heq. rewrite Heq, Hgrid in Hsize. lia. }
      rewrite decide_False by done.
      unfold assemblies in *. cbn [scheduled].
      rewrite !List.filter_app, !length_app. simpl. lia.
Qed.

Lemma clicks_invariant pieces :
  ∀ st,
    Forall (λ piece, (piece < Z.to_nat PUZZLE_PIECES)%nat) pieces →
    puzzleCompleted st = false →
    flipped st ⊆ grid →
    flippedPieces st = Z.of_nat (size (flipped st)) →
    assemblies st = (if decide (flipped st = grid) then 1 else 0)%nat →
    let st' := clicks pieces st in
    puzzleCompleted st' = false
    ∧ flipped st' = list_to_set pieces ∪ flipped st
    ∧ flippedPieces st' = Z.of_nat (size (flipped st'))
    ∧ assemblies st' = (if decide (flipped st' = grid) then 1 else 0)%nat.
Proof.
  induction pieces as [|piece pieces IH]; intros st Hall Hc Hsub Hcount Hasm.
  - simpl. repeat split; try done. by rewrite union_empty_l_L.
  - apply Forall_cons in Hall as [Hpiece Hall].
    destruct (handlePieceClick_invariant piece st Hpiece Hc Hsub Hcount Hasm)
      as (Hc' & Hf' & Hsub' & Hcount' & Hasm').
    destruct (IH (handlePieceClick piece st) Hall Hc' Hsub' Hcount' Hasm')
      as (H1 & H2 & H3 & H4).
    cbn [clicks fold_left] in *. fold (clicks pieces (handlePieceClick piece st)).
    repeat split; try done.
    rewrite H2, Hf'. cbn [list_to_set].
    by rewrite (assoc_L (∪)), (comm_L (∪) (list_to_set pieces)).
Qed.

(** X18.  Whatever pieces of the grid a visitor clicks, in whatever
    order and however often, [flippedPieces] is the number of distinct
    pieces clicked, it never exceeds [PUZZLE_PIECES], and [assemblePuzzle]
    is scheduled exactly once when all the pieces are flipped and not at
    all before. *)
Theorem puzzle_assembles_once_when_every_piece_is_flipped pieces :
  Forall (λ piece, (piece < Z.to_nat PUZZLE_PIECES)%nat) pieces →
  let st := clicks pieces initial in
  flipped st = list_to_set pieces
  ∧ flippedPieces st = Z.of_nat (size (flipped st))
  ∧ 0 ≤ flippedPieces st ≤ PUZZLE_PIECES
  ∧ assemblies st
    = (if decide (flipped st = set_seq 0 (Z.to_nat PUZZLE_PIECES))
       then 1 else 0)%nat.
Proof.
  intros Hall st. subst st.
  destruct (clicks_invariant pieces initial Hall) as (H1 & H2 & H3 & H4);
    try done.
  assert (Hf : flipped (clicks pieces initial) = list_to_set pieces).
  { rewrite H2. simpl. by rewrite union_empty_r_L. }
  split; [done|]. split; [done|]. split; [|done].
  rewrite H3, Hf. split; [lia|].
  assert (list_to_set pieces ⊆ grid).
  { intros x Hx. apply elem_of_list_to_set in Hx.
    rewrite Forall_forall in Hall. apply Hall in Hx.
    unfold grid. apply elem_of_set_seq. lia. }
  assert (size (list_to_set pieces : gset nat) ≤ size grid)%nat
    by by apply subseteq_size.
  unfold grid in *. rewrite size_set_seq in *. unfold PUZZLE_PIECES in *. lia.
Qed.


Lemma puzzle_assembles_once_when_every_piece_is_flipped_witness :
  let st := clicks [4; 0; 4; 8; 0]%nat initial in
  flipped st = list_to_set [4; 0; 4; 8; 0]%nat
  ∧ flippedPieces st = Z.of_nat (size (flipped st))
  ∧ 0 ≤ flippedPieces st ≤ PUZZLE_PIECES
  ∧ assemblies st
    = (if decide (flipped st = set_seq 0 (Z.to_nat PUZZLE_PIECES))
       then 1 else 0)%nat.
Proof.
  apply (puzzle_assembles_once_when_every_piece_is_flipped
           [4; 0; 4; 8; 0]%nat).
  repeat constructor; unfold PUZZLE_PIECES; lia.
Defined.

End LandingFacts.

(** ** The age of the captain *)

Module AgeFacts.
Import AgeCheck.


End AgeFacts.

(** ** The pages of the admin table *)

Module DashboardFacts.
Import Dashboard.

Lemma slice_inside {A} (l : list A) start size :
  0 ≤ start → 0 ≤ size →
  slice start (start + size) l
  = take (Z.to_nat size) (drop (Z.to_nat start) l).
Proof.
  intros Hs Hn. unfold slice.
  destruct (Z.ltb_spec start 0); [lia|].
  destruct (Z.ltb_spec (start + size) 0); [lia|].
  set (len := Z.of_nat (length l)).
  destruct (decide (start + size ≤ len)) as [Hin|Hout].
  - rewrite !Z.min_l by lia. f_equal. lia.
  - destruct (decide (start ≤ len)) as [Hin'|Hout'].
    + rewrite (Z.min_l start) by lia. rewrite Z.min_r by lia.
      rewrite !take_ge; [done| |]; rewrite length_drop; lia.
    + rewrite !Z.min_r by lia. rewrite !drop_ge by lia. by rewrite !take_nil.
Qed.

Lemma page_take_drop {A} (l : list A) size n :
  0 < size → (0 < n)%nat →
  page l size n
  = take (Z.to_nat size) (drop ((n - 1) * Z.to_nat size) l).
Proof.
  intros Hs Hn. unfold page, pageData. simpl.
  rewrite slice_inside by nia. do 2 f_equal. nia.
Qed.

Lemma chunks_concat {A} size : (0 < size)%nat →
  ∀ k (l : list A), (length l ≤ k * size)%nat →
    concat (map (λ i, take size (drop (i * size) l)) (seq 0 k)) = l.
Proof.
  intros Hs. induction k as [|k IH]; intros l Hl.
  - destruct l; [done|simpl in Hl; lia].
  - rewrite seq_S, map_app, concat_app. simpl. rewrite app_nil_r.
    destruct (decide (length l ≤ k * size)%nat) as [Hshort|Hlong].
    + rewrite (IH l) by done. rewrite drop_ge by lia.
      by rewrite take_nil, app_nil_r.
    + transitivity (take (k * size) l ++ drop (k * size) l);
        [|apply take_drop].
      f_equal.
      * etransitivity;
          [|apply (IH (take (k * size) l)); rewrite length_take; lia].
        f_equal. apply map_ext_in. intros i Hi. apply in_seq in Hi.
        replace (k * size)%nat with (i * size + (k - i) * size)%nat by nia.
        rewrite <- take_drop_commute, take_take. f_equal. nia.
      * rewrite take_ge; [done|]. rewrite length_drop. simpl in Hl. lia.
Qed.

Lemma totalPages_bounds {A} (filtered : list A) d :
  0 < itemsPerPage d →
  let len := Z.of_nat (length filtered) in
  let pages := totalPages filtered d in
  0 ≤ pages
  ∧ len ≤ pages * itemsPerPage d
  ∧ (0 < pages → (pages - 1) * itemsPerPage d < len).
Proof.
  intros Hs len pages. subst len pages. unfold totalPages.
  pose proof (Nat2Z.is_nonneg (length filtered)) as Hl.
  revert Hl. generalize (Z.of_nat (length filtered)). intros len Hl.
  Z.to_euclidean_division_equations. nia.
Qed.

Lemma pages_partition {A} (filtered : list A) d :
  0 < itemsPerPage d →
  let pages := Z.to_nat (totalPages filtered d) in
  concat (map (page filtered (itemsPerPage d)) (seq 1 pages)) = filtered
  ∧ (∀ n, (1 ≤ n ≤ pages)%nat →
          0 < Z.of_nat (length (page filtered (itemsPerPage d) n))
            ≤ itemsPerPage d)
  ∧ (∀ n, (pages < n)%nat → page filtered (itemsPerPage d) n = []).
Proof.
  intros Hs pages.
  destruct (totalPages_bounds filtered d Hs) as (H0 & Hup & Hlow).
  fold pages in Hup. 
  assert (Hpages : Z.of_nat pages = totalPages filtered d)
    by (subst pages; lia).
  rewrite <- Hpages in *. clearbody pages.
  split; [|split].
  - rewrite <- seq_shift, map_map.
    erewrite map_ext_in.
    + apply (chunks_concat (Z.to_nat (itemsPerPage d))); [lia|]. nia.
    + intros i _. rewrite page_take_drop by lia. simpl.
      by rewrite Nat.sub_0_r.
  - intros n Hn. rewrite page_take_drop by lia.
    rewrite length_take, length_drop. nia.
  - intros n Hn. rewrite page_take_drop by lia.
    rewrite drop_ge; [by rewrite take_nil|]. nia.
Qed.

(** X20.  The pages from 1 to [totalPages] hold the filtered rows, each once
    and in order; each of them has at least one row and at most
    [itemsPerPage]; any later page is empty. *)
Theorem pages_partition_the_rows {A} (filtered : list A) d :
  0 < itemsPerPage d →
  let pages := Z.to_nat (totalPages filtered d) in
  concat (map (page filtered (itemsPerPage d)) (seq 1 pages)) = filtered
  ∧ (∀ n, (1 ≤ n ≤ pages)%nat →
          0 < Z.of_nat (length (page filtered (itemsPerPage d) n))
            ≤ itemsPerPage d)
  ∧ (∀ n, (pages < n)%nat → page filtered (itemsPerPage d) n = []).
Proof. apply pages_partition. Qed.

Lemma pages_partition_the_rows_witness :
  let pages := Z.to_nat (totalPages Examples.rows AdminDashboard) in
  concat (map (page Examples.rows (itemsPerPage AdminDashboard))
              (seq 1 pages))
  = Examples.rows
  ∧ (∀ n, (1 ≤ n ≤ pages)%nat →
          0 < Z.of_nat (length (page Examples.rows
                                     (itemsPerPage AdminDashboard) n))
            ≤ itemsPerPage AdminDashboard)
  ∧ (∀ n, (pages < n)%nat →
          page Examples.rows (itemsPerPage AdminDashboard) n = []).
Proof.
  apply (pages_partition_the_rows Examples.rows AdminDashboard).
  simpl. lia.
Defined.

(** X21.  A click on an enabled button leads to a page that has rows: the
    next button from a page that is not the last one, the previous button
    from a page after the first. *)
Theorem enabled_buttons_lead_to_rows {A} (filtered : list A) d :
  0 < itemsPerPage d →
  1 ≤ currentPage d ≤ totalPages filtered d →
  (next_disabled filtered d = false →
   currentPage (nextPage d) = currentPage d + 1
   ∧ currentPage (nextPage d) ≤ totalPages filtered (nextPage d)
   ∧ pageData filtered (nextPage d) ≠ [])
  ∧ (prev_disabled d = false →
     currentPage (prevPage d) = currentPage d - 1
     ∧ 1 ≤ currentPage (prevPage d)
     ∧ pageData filtered (prevPage d) ≠ [])
  ∧ (next_disabled filtered d = true ↔ currentPage d = totalPages filtered d)
  ∧ (prev_disabled d = true ↔ currentPage d = 1).
Proof.
  intros Hs Hcur.
  destruct (pages_partition filtered d Hs) as (_ & Hrows & _).
  assert (Hpage : ∀ c, 1 ≤ c ≤ totalPages filtered d →
            pageData filtered (mkPager c (itemsPerPage d)) ≠ []).
  { intros c Hc Hempty.
    specialize (Hrows (Z.to_nat c)). unfold page in Hrows.
    rewrite Z2Nat.id in Hrows by lia. rewrite Hempty in Hrows.
    simpl in Hrows. lia. }
  unfold next_disabled, prev_disabled, nextPage, prevPage.
  split; [|split; [|split]].
  - intros Hen. apply Z.leb_gt in Hen. simpl.
    split; [done|]. split; [unfold totalPages in *; simpl; lia|].
    apply Hpage. lia.
  - intros Hen. apply Z.eqb_neq in Hen.
    destruct (Z.ltb_spec 1 (currentPage d)); [|lia]. simpl.
    split; [done|]. split; [lia|]. apply Hpage. lia.
  - rewrite Z.leb_le. lia.
  - by rewrite Z.eqb_eq.
Qed.


Lemma enabled_buttons_lead_to_rows_witness :
  (next_disabled Examples.rows AdminDashboard = false →
   currentPage (nextPage AdminDashboard) = currentPage AdminDashboard + 1
   ∧ currentPage (nextPage AdminDashboard)
     ≤ totalPages Examples.rows (nextPage AdminDashboard)
   ∧ pageData Examples.rows (nextPage AdminDashboard) ≠ [])
  ∧ (prev_disabled AdminDashboard = false →
     currentPage (prevPage AdminDashboard) = currentPage AdminDashboard - 1
     ∧ 1 ≤ currentPage (prevPage AdminDashboard)
     ∧ pageData Examples.rows (prevPage AdminDashboard) ≠ [])
  ∧ (next_disabled Examples.rows AdminDashboard = true
     ↔ currentPage AdminDashboard = totalPages Examples.rows AdminDashboard)
  ∧ (prev_disabled AdminDashboard = true ↔ currentPage AdminDashboard = 1).
Proof.
  apply (enabled_buttons_lead_to_rows Examples.rows AdminDashboard).
  - simpl. lia.
  - vm_compute. split; discriminate.
Defined.

End DashboardFacts.

(** ** More on the event queue *)

Module QueueFacts.
Import FoggianoAnalytics AnalyticsFacts.

(** X22.  On an online page [queueEvent] sends nothing while the queue stays
    below [batchSize]; the event that fills the batch empties the queue
    into one send loop, which starts with the oldest event. *)
Theorem batch_size_triggers_the_flush ep d p :
  isOnline (self p) = true →
  let p' := queueEvent ep d p in
  let filled := Z.of_nat (length (eventQueue (self p))) + 1 in
  ∃ event,
    endpoint event = ep ∧ attempts event = 0 ∧ createdAt event = clock p
    ∧ (filled < batchSize (config (self p)) →
       eventQueue (self p') = eventQueue (self p) ++ [event]
       ∧ network p' = network p
       ∧ pending p' = pending p)
    ∧ (batchSize (config (self p)) ≤ filled →
       eventQueue (self p') = []
       ∧ pending p' = pending p ++ [eventQueue (self p) ++ [event]]
       ∧ ∃ oldest,
           head (eventQueue (self p) ++ [event]) = Some oldest
           ∧ network p'
             = network p ++ [delivery p oldest (clock p) true]).
Proof.
  intros Hon p' filled. subst p' filled.
  exists (mkEvent ep
            (obj_set "timeOnPage" (JNum (getTimeOnPage p))
               (obj_set "timestamp" (getTimestamp p)
                  (obj_set "sessionId" (JStr (sessionId (self p))) d)))
            0 (clock p)).
  split; [reflexivity|]. split; [reflexivity|]. split; [reflexivity|].
  unfold queueEvent. open_page p. subst on.
  unfold with_self, set_eventQueue.
  cbn [self config sessionId sessionStart eventQueue isOnline retryQueue
       scrollMilestones clickedSections funnelSteps clock timeouts pending
       network beacon_api cls].
  rewrite length_app. cbn [length].
  replace (Z.of_nat (length eq + 1)) with (Z.of_nat (length eq) + 1) by lia.
  split.
  - intros Hlt. destruct (Z.geb_spec (Z.of_nat (length eq) + 1) (batchSize cfg));
      [lia|]. done.
  - intros Hge. destruct (Z.geb_spec (Z.of_nat (length eq) + 1) (batchSize cfg));
      [|lia].
    unfold flushQueue.
    cbn [self config sessionId sessionStart eventQueue isOnline retryQueue
         scrollMilestones clickedSections funnelSteps clock timeouts pending
         network beacon_api cls].
    destruct eq as [|oldest eq]; simpl.
    + split; [done|]. split; [done|]. eexists. split; [reflexivity|]. done.
    + split; [done|]. split; [done|]. eexists. split; [reflexivity|]. done.
Qed.

Lemma batch_size_triggers_the_flush_witness :
  let p := Examples.page_one_short in
  let p' := queueEvent "event" Scenarios.click p in
  isOnline (self p) = true
  ∧ length (eventQueue (self p)) = 4%nat
  ∧ batchSize (config (self p)) = 5
  ∧ network p = []
  ∧ ∃ event oldest,
      eventQueue (self p') = []
      ∧ pending p' = pending p ++ [eventQueue (self p) ++ [event]]
      ∧ head (eventQueue (self p) ++ [event]) = Some oldest
      ∧ network p' = network p ++ [delivery p oldest (clock p) true].
Proof.
  split; [reflexivity|]. split; [reflexivity|]. split; [reflexivity|].
  split; [reflexivity|].
  destruct (batch_size_triggers_the_flush "event" Scenarios.click
              Examples.page_one_short)
    as (event & _ & _ & _ & _ & Hflush); [reflexivity|].
  destruct Hflush as (Hq & Hp & oldest & Hh & Hn); [by vm_compute|].
  by exists event, oldest.
Defined.

(** X23.  While the page is offline, tracked events and batch ticks hand
    nothing to the network; the queue grows by one event per tracked
    action and loses none, however long it gets. *)
Theorem offline_events_wait_in_the_queue inputs p :
  isOnline (self p) = false →
  Forall (λ i, i = BatchTick ∨ ∃ ep d, i = Track ep d) inputs →
  let p' := run inputs p in
  network p' = network p
  ∧ pending p' = pending p
  ∧ isOnline (self p') = false
  ∧ ∃ added,
      eventQueue (self p') = eventQueue (self p) ++ added
      ∧ length added
        = length (List.filter (λ i, match i with
                                    | Track _ _ => true
                                    | _ => false
                                    end) inputs).
Proof. intros Hoff Hall. by apply offline_queue_accumulates. Qed.

Lemma offline_events_wait_in_the_queue_witness :
  let inputs :=
    [Track "event" Scenarios.click; BatchTick; Track "event" Scenarios.click]
  in
  let p := Examples.offline_page in
  let p' := run inputs p in
  network p' = network p
  ∧ pending p' = pending p
  ∧ isOnline (self p') = false
  ∧ ∃ added,
      eventQueue (self p') = eventQueue (self p) ++ added
      ∧ length added
        = length (List.filter (λ i, match i with
                                    | Track _ _ => true
                                    | _ => false
                                    end) inputs).
Proof.
  apply (offline_events_wait_in_the_queue
           [Track "event" Scenarios.click; BatchTick;
            Track "event" Scenarios.click]
           Examples.offline_page).
  - reflexivity.
  - constructor; [right; by eexists _, _|].
    constructor; [by left|].
    constructor; [right; by eexists _, _|].
    constructor.
Defined.

(** X24.  When the page comes back online with nothing in flight, and every
    request succeeds, each queued event is handed to [fetch] exactly once,
    in the order of the queue, and both queues end up empty. *)
Theorem reconnect_delivers_the_queue_once p :
  retryQueue (self p) = [] →
  pending p = [] →
  let events := eventQueue (self p) in
  let p' := run (Online :: repeat (Settled 0 true) (length events)) p in
  network p' = network p ++ map (λ e, delivery p e (clock p) true) events
  ∧ eventQueue (self p') = []
  ∧ retryQueue (self p') = []
  ∧ pending p' = [].
Proof. apply online_flush_delivers_once. Qed.

Lemma reconnect_delivers_the_queue_once_witness :
  let p := Examples.page_with_backlog in
  let events := eventQueue (self p) in
  let p' := run (Online :: repeat (Settled 0 true) (length events)) p in
  network p' = network p ++ map (λ e, delivery p e (clock p) true) events
  ∧ eventQueue (self p') = []
  ∧ retryQueue (self p') = []
  ∧ pending p' = [].
Proof.
  apply (reconnect_delivers_the_queue_once Examples.page_with_backlog);
    reflexivity.
Defined.

Lemma max_scroll_nonneg a :
  0 ≤ max_scroll a.
Proof.
  unfold max_scroll. induction (scrollMilestones a) as [|m l IH]; simpl; lia.
Qed.

(** X25.  The engagement score lies between 0 and 100 as long as the clock
    has not gone back behind the start of the session. *)
Theorem engagement_score_range p :
  sessionStart (self p) ≤ clock p →
  0 ≤ calculateEngagementScore p ≤ 100.
Proof.
  intros Htime. unfold calculateEngagementScore, getTimeOnPage.
  pose proof (max_scroll_nonneg (self p)) as Hscroll.
  assert (Ht : 0 ≤ (clock p - sessionStart (self p)) / 30000)
    by (apply Z.div_pos; lia).
  set (steps := Z.of_nat (length (filter _ _))).
  assert (0 ≤ steps) by (subst steps; lia).
  assert (0 ≤ max_scroll (self p) / 5) by (apply Z.div_pos; lia).
  assert (0 ≤ Z.of_nat (length (clickedSections (self p)))) by lia.
  destruct (puzzleComplete _), (formSubmit _); lia.
Qed.


Lemma engagement_score_range_witness :
  0 ≤ calculateEngagementScore Scenarios.fresh_page ≤ 100.
Proof.
  apply (engagement_score_range Scenarios.fresh_page). simpl. lia.
Defined.

End QueueFacts.

(** ** Scroll depth *)

Module ScrollFacts.
Import FoggianoAnalytics ScrollTracking AnalyticsFacts.

Lemma queueEvent_scrollMilestones ep d p :
  scrollMilestones (self (queueEvent ep d p)) = scrollMilestones (self p).
Proof.
  unfold queueEvent, flushQueue, send_loop. open_page p.
  unfold with_self, set_eventQueue. simpl.
  destruct (_ >=? _); [|done].
  destruct (eq ++ _); [done|]. by destruct on.
Qed.

Lemma reach_scrollMilestones r p m :
  scrollMilestones (self (reach r p m))
  = if (m <=? r) && negb (bool_decide (m ∈ scrollMilestones (self p)))
    then scrollMilestones (self p) ++ [m]
    else scrollMilestones (self p).
Proof.
  unfold reach. destruct (_ && _); [|done].
  rewrite queueEvent_scrollMilestones. by open_page p.
Qed.

Lemma fold_reach r ms :
  NoDup ms →
  ∀ p,
    scrollMilestones (self (fold_left (reach r) ms p))
    = scrollMilestones (self p)
      ++ List.filter
           (λ m, (m <=? r)
                 && negb (bool_decide (m ∈ scrollMilestones (self p))))
           ms.
Proof.
  induction ms as [|m ms IH]; intros Hnd p; simpl.
  - by rewrite app_nil_r.
  - apply NoDup_cons in Hnd as [Hm Hnd].
    rewrite IH by done. rewrite reach_scrollMilestones.
    destruct ((m <=? r)
              && negb (bool_decide (m ∈ scrollMilestones (self p)))) eqn:E.
    + rewrite <- app_assoc. simpl. do 2 f_equal.
      apply filter_ext_in. intros m' Hm'. f_equal. f_equal.
      apply bool_decide_ext. rewrite elem_of_app, list_elem_of_singleton.
      split; [|by left]. intros [?| ->]; [done|].
      by apply list_elem_of_In in Hm'.
    + done.
Qed.

Lemma milestones_NoDup : NoDup milestones.
Proof. compute_done. Qed.

Lemma reached_filter M m :
  m ∈ milestones →
  bool_decide (m ∈ List.filter (λ m, m <=? M) milestones) = (m <=? M).
Proof.
  intros Hm. destruct (Z.leb_spec m M) as [Hle|Hgt].
  - apply bool_decide_eq_true_2, list_elem_of_In, filter_In.
    split; [by apply list_elem_of_In | by apply Z.leb_le].
  - apply bool_decide_eq_false_2. intros Hin.
    apply list_elem_of_In, filter_In in Hin as [_ Hin].
    apply Z.leb_le in Hin. lia.
Qed.

Lemma updateScrollDepth_invariant r t :
  scrollMilestones (self (page t))
  = List.filter (λ m, m <=? maxScroll t) milestones →
  let t' := updateScrollDepth r t in
  maxScroll t' = Z.max (maxScroll t) r
  ∧ scrollMilestones (self (page t'))
    = List.filter (λ m, m <=? maxScroll t') milestones.
Proof.
  intros Hinv t'. subst t'. unfold updateScrollDepth.
  destruct (Z.ltb_spec (maxScroll t) r) as [Hup|Hdown]; cbn [maxScroll page].
  - split; [lia|].
    rewrite fold_reach by apply milestones_NoDup.
    rewrite Hinv.
    rewrite (filter_ext_in
               (λ m, (m <=? r)
                     && negb (bool_decide
                                (m ∈ List.filter (λ m, m <=? maxScroll t)
                                                 milestones)))
               (λ m, (m <=? r) && negb (m <=? maxScroll t)));
      [|intros m Hm; rewrite (reached_filter (maxScroll t) m); [done|];
        by apply list_elem_of_In].
    unfold milestones. simpl.
    repeat (match goal with
            | |- context [?a <=? ?b] => destruct (Z.leb_spec a b)
            end; simpl; try lia); reflexivity.
  - split; [lia|done].
Qed.

Lemma scrolls_invariant readings :
  ∀ t,
    0 ≤ maxScroll t →
    scrollMilestones (self (page t))
    = List.filter (λ m, m <=? maxScroll t) milestones →
    let t' := scrolls readings t in
    maxScroll t' = Z.max (maxScroll t) (foldr Z.max 0 readings)
    ∧ scrollMilestones (self (page t'))
      = List.filter (λ m, m <=? maxScroll t') milestones.
Proof.
  induction readings as [|r readings IH]; intros t Hpos Hinv; simpl.
  - split; [lia|done].
  - destruct (updateScrollDepth_invariant r t Hinv) as [Hmax Hinv'].
    destruct (IH (updateScrollDepth r t)) as [Hmax' Hinv'']; [lia|done|].
    split; [|done].
    change (scrolls (r :: readings) t)
      with (scrolls readings (updateScrollDepth r t)).
    rewrite Hmax', Hmax. lia.
Qed.

Lemma deepest_bounds_the_milestones M ms :
  0 ≤ M → fold_right Z.max 0 (List.filter (λ m, m <=? M) ms) ≤ M.
Proof.
  intros HM. induction ms as [|m ms IH]; [done|].
  cbn [List.filter]. destruct (Z.leb_spec m M); cbn [fold_right]; lia.
Qed.

(** X26.  Whatever the scroll positions of a visit, in whatever order, the
    milestones recorded are those up to the deepest position, each once
    and in ascending order. *)
Theorem scroll_milestones_follow_the_deepest_reading readings p :
  scrollMilestones (self p) = [] →
  let t := scrolls readings (mkTracker 0 p) in
  maxScroll t = foldr Z.max 0 readings
  ∧ scrollMilestones (self (page t))
    = List.filter (λ m, m <=? maxScroll t) milestones
  ∧ NoDup (scrollMilestones (self (page t)))
  ∧ max_scroll (self (page t)) ≤ maxScroll t.
Proof.
  intros Hfresh t. subst t.
  destruct (scrolls_invariant readings (mkTracker 0 p)) as [Hmax Hinv];
    [done|cbn [page maxScroll]; by rewrite Hfresh|].
  simpl in Hmax.
  assert (Hpos : 0 ≤ foldr Z.max 0 readings).
  { clear. induction readings; simpl; lia. }
  split; [lia|]. split; [done|]. split.
  - rewrite Hinv. unfold milestones.
    apply NoDup_ListNoDup, List.NoDup_filter, NoDup_ListNoDup.
    apply milestones_NoDup.
  - unfold max_scroll. rewrite Hinv.
    apply deepest_bounds_the_milestones. lia.
Qed.


Lemma scroll_milestones_follow_the_deepest_reading_witness :
  let t := scrolls [30; 12; 80; 55] (mkTracker 0 Scenarios.fresh_page) in
  maxScroll t = foldr Z.max 0 [30; 12; 80; 55]
  ∧ scrollMilestones (self (page t))
    = List.filter (λ m, m <=? maxScroll t) milestones
  ∧ NoDup (scrollMilestones (self (page t)))
  ∧ max_scroll (self (page t)) ≤ maxScroll t.
Proof.
  apply (scroll_milestones_follow_the_deepest_reading [30; 12; 80; 55]
           Scenarios.fresh_page).
  reflexivity.
Defined.

End ScrollFacts.
